(** * Contact enrichment reconciliation: VCF matching, report, commit, clients

    Verification development for the VCF contact-enrichment workflow of the
    personal-secretary application.

    - [Unicode]: text as the sequence of its code points, the UTF-8 decoder
      that reads a stored field or a literal, the white space of Python and
      of JavaScript, and lower-casing with the Unicode 14.0 tables,
      capital sigma by its context.
    - [PyStr]: the Python [str] operations the matcher uses ([lower],
      [split], [join], [strip]).
    - [Matcher]: [match_vcf_to_contact], as listed in Overview.md (section 6,
      backend/app/services/rag/contact_parsers.py), on contacts whose names
      are strings; [Dicts]: the same function on dicts whose entries may be
      missing or [None].
    - [Report] and [Committer]: the report builder, the action resolver and
      the committer, whose backend code is not part of the sources at hand.
    - [ReactClient]: frontend/src/hooks/useVcf.ts and the action selector of
      frontend/src/components/modals/VcfModal.tsx.
    - [FlutterClient]: the VcfEnrichmentModal widget of the Flutter client.
    - [Staging] and [Scenario]: a server that keeps staged uploads, and the
      concrete contacts, reports and states the examples run on.
    - [JsStr], [ReviewList], [Contacts], [ContactSearch], [FlutterUpload]:
      the JavaScript string operations, the list of the review modal, the
      contacts hook, the search of the sidebar and the upload area of the
      Flutter client.

    The facts follow the definitions, one module of facts per component. *)

From Stdlib Require Import Ascii String Sorted.
From stdpp Require Import gmap strings pretty list fin_maps.

(* ===================================================================== *)
(** ** Unicode text *)
(* ===================================================================== *)

Module Unicode.
Local Open Scope N_scope.

(** A text is the sequence of its code points, as a Python [str] is; a
    field or a literal written as a [string] holds the UTF-8 bytes of its
    text. The tables are those of Unicode 14.0, which CPython 3.11 carries. *)

Definition byte (a : ascii) : N := N_of_ascii a.

Definition continuation (b : N) : bool := (128 <=? b) && (b <=? 191).

Definition between (lo hi b : N) : bool := (lo <=? b) && (b <=? hi).

(** The code point a byte that starts no well-formed sequence decodes to:
    U+FFFD, the replacement character. *)
Definition replacement : N := 65533.

(** The UTF-8 decoder: well-formed sequences of one to four bytes (no
    overlong form, no surrogate, nothing above U+10FFFF) give their code
    point; any other byte gives the replacement character. *)
Fixpoint decode (s : string) : list N :=
  match s with
  | EmptyString => []
  | String a0 s1 =>
      let b0 := byte a0 in
      if b0 <? 128 then b0 :: decode s1
      else
        match s1 with
        | EmptyString => [replacement]
        | String a1 s2 =>
            let b1 := byte a1 in
            if between 194 223 b0 && continuation b1
            then ((b0 - 192) * 64 + (b1 - 128)) :: decode s2
            else
              match s2 with
              | EmptyString => replacement :: decode s1
              | String a2 s3 =>
                  let b2 := byte a2 in
                  if between 224 239 b0 && continuation b2 &&
                     (if b0 =? 224 then between 160 191 b1
                      else if b0 =? 237 then between 128 159 b1
                      else continuation b1)
                  then ((b0 - 224) * 4096 + (b1 - 128) * 64 + (b2 - 128))
                       :: decode s3
                  else
                    match s3 with
                    | EmptyString => replacement :: decode s1
                    | String a3 s4 =>
                        let b3 := byte a3 in
                        if between 240 244 b0 && continuation b2 &&
                           continuation b3 &&
                           (if b0 =? 240 then between 144 191 b1
                            else if b0 =? 244 then between 128 143 b1
                            else continuation b1)
                        then ((b0 - 240) * 262144 + (b1 - 128) * 4096 +
                              (b2 - 128) * 64 + (b3 - 128)) :: decode s4
                        else replacement :: decode s1
                    end
              end
        end
  end.

(** Equality of two texts. *)
Fixpoint eqb (a b : list N) : bool :=
  match a, b with
  | [], [] => true
  | x :: a', y :: b' => (x =? y) && eqb a' b'
  | _, _ => false
  end.

(** *** White space *)

Definition member (l : list N) (c : N) : bool := existsb (N.eqb c) l.

(** The code points [str.isspace] accepts, which are those [str.split] and
    [str.strip] take as white space. *)
Definition py_spaces : list N :=
  [9; 10; 11; 12; 13; 28; 29; 30; 31; 32; 133; 160; 5760; 8192; 8193; 8194;
   8195; 8196; 8197; 8198; 8199; 8200; 8201; 8202; 8232; 8233; 8239; 8287;
   12288].

Definition py_space (c : N) : bool := member py_spaces c.

(** The code points of WhiteSpace and LineTerminator in ECMAScript, which
    are those [trim] removes and the regular expression [\s] matches. *)
Definition js_spaces : list N :=
  [9; 10; 11; 12; 13; 32; 160; 5760; 8192; 8193; 8194; 8195; 8196; 8197;
   8198; 8199; 8200; 8201; 8202; 8232; 8233; 8239; 8287; 12288; 65279].

Definition js_space (c : N) : bool := member js_spaces c.

(** *** Lower case *)

(** The lower-case mappings, one rule for each run of code points that map
    at a constant distance: [(first, count, step, image of first)]. *)
Definition lower_rules : list (N * N * N * N) :=
  [
   (65,26,1,97); (192,23,1,224); (216,7,1,248); (256,24,2,257);
   (306,3,2,307); (313,8,2,314); (330,23,2,331); (376,1,1,255);
   (377,3,2,378); (385,1,1,595); (386,2,2,387); (390,1,1,596);
   (391,1,1,392); (393,2,1,598); (395,1,1,396); (398,1,1,477);
   (399,1,1,601); (400,1,1,603); (401,1,1,402); (403,1,1,608);
   (404,1,1,611); (406,1,1,617); (407,1,1,616); (408,1,1,409);
   (412,1,1,623); (413,1,1,626); (415,1,1,629); (416,3,2,417);
   (422,1,1,640); (423,1,1,424); (425,1,1,643); (428,1,1,429);
   (430,1,1,648); (431,1,1,432); (433,2,1,650); (435,2,2,436);
   (439,1,1,658); (440,1,1,441); (444,1,1,445); (452,1,1,454);
   (453,1,1,454); (455,1,1,457); (456,1,1,457); (458,1,1,460);
   (459,9,2,460); (478,9,2,479); (497,1,1,499); (498,2,2,499);
   (502,1,1,405); (503,1,1,447); (504,20,2,505); (544,1,1,414);
   (546,9,2,547); (570,1,1,11365); (571,1,1,572); (573,1,1,410);
   (574,1,1,11366); (577,1,1,578); (579,1,1,384); (580,1,1,649);
   (581,1,1,652); (582,5,2,583); (880,2,2,881); (886,1,1,887);
   (895,1,1,1011); (902,1,1,940); (904,3,1,941); (908,1,1,972);
   (910,2,1,973); (913,17,1,945); (932,8,1,964); (975,1,1,983);
   (984,12,2,985); (1012,1,1,952); (1015,1,1,1016); (1017,1,1,1010);
   (1018,1,1,1019); (1021,3,1,891); (1024,16,1,1104); (1040,32,1,1072);
   (1120,17,2,1121); (1162,27,2,1163); (1216,1,1,1231); (1217,7,2,1218);
   (1232,48,2,1233); (1329,38,1,1377); (4256,38,1,11520); (4295,1,1,11559);
   (4301,1,1,11565); (5024,80,1,43888); (5104,6,1,5112); (7312,43,1,4304);
   (7357,3,1,4349); (7680,75,2,7681); (7838,1,1,223); (7840,48,2,7841);
   (7944,8,1,7936); (7960,6,1,7952); (7976,8,1,7968); (7992,8,1,7984);
   (8008,6,1,8000); (8025,4,2,8017); (8040,8,1,8032); (8072,8,1,8064);
   (8088,8,1,8080); (8104,8,1,8096); (8120,2,1,8112); (8122,2,1,8048);
   (8124,1,1,8115); (8136,4,1,8050); (8140,1,1,8131); (8152,2,1,8144);
   (8154,2,1,8054); (8168,2,1,8160); (8170,2,1,8058); (8172,1,1,8165);
   (8184,2,1,8056); (8186,2,1,8060); (8188,1,1,8179); (8486,1,1,969);
   (8490,1,1,107); (8491,1,1,229); (8498,1,1,8526); (8544,16,1,8560);
   (8579,1,1,8580); (9398,26,1,9424); (11264,48,1,11312); (11360,1,1,11361);
   (11362,1,1,619); (11363,1,1,7549); (11364,1,1,637); (11367,3,2,11368);
   (11373,1,1,593); (11374,1,1,625); (11375,1,1,592); (11376,1,1,594);
   (11378,1,1,11379); (11381,1,1,11382); (11390,2,1,575);
   (11392,50,2,11393); (11499,2,2,11500); (11506,1,1,11507);
   (42560,23,2,42561); (42624,14,2,42625); (42786,7,2,42787);
   (42802,31,2,42803); (42873,2,2,42874); (42877,1,1,7545);
   (42878,5,2,42879); (42891,1,1,42892); (42893,1,1,613); (42896,2,2,42897);
   (42902,10,2,42903); (42922,1,1,614); (42923,1,1,604); (42924,1,1,609);
   (42925,1,1,620); (42926,1,1,618); (42928,1,1,670); (42929,1,1,647);
   (42930,1,1,669); (42931,1,1,43859); (42932,8,2,42933); (42948,1,1,42900);
   (42949,1,1,642); (42950,1,1,7566); (42951,2,2,42952); (42960,1,1,42961);
   (42966,2,2,42967); (42997,1,1,42998); (65313,26,1,65345);
   (66560,40,1,66600); (66736,36,1,66776); (66928,11,1,66967);
   (66940,15,1,66979); (66956,7,1,66995); (66964,2,1,67003);
   (68736,51,1,68800); (71840,32,1,71872); (93760,32,1,93792);
   (125184,34,1,125218)
  ].

Definition expand (r : N * N * N * N) : list (N * list N) :=
  let '(first, count, step, image) := r in
  (fun k => (first + N.of_nat k * step, [image + N.of_nat k * step]))
    <$> seq 0%nat (N.to_nat count).

(** The code points that have a lower-case mapping, each with its image:
    the rules, U+0130 (capital I with dot above), the one code point whose
    image is two code points long, and capital sigma with the image it has
    outside the final position. *)
Definition lower_map : list (N * list N) :=
  Eval vm_compute in
    ((304, [105; 775]) :: (931, [963]) :: flat_map expand lower_rules).

(** The lower case of one code point, out of context. *)
Definition to_lower (c : N) : list N :=
  if c <? 192
  then if between 65 90 c then [c + 32] else [c]
  else match List.find (fun e => e.1 =? c) lower_map with
       | Some e => e.2
       | None => [c]
       end.

(** The code points with the property Cased that are not Case_Ignorable. *)
Definition cased_ranges : list (N * N) :=
  [
   (65,90); (97,122); (170,170); (181,181); (186,186); (192,214); (216,246);
   (248,442); (444,447); (452,659); (661,687); (880,883); (886,887);
   (891,893); (895,895); (902,902); (904,906); (908,908); (910,929);
   (931,1013); (1015,1153); (1162,1327); (1329,1366); (1376,1416);
   (4256,4293); (4295,4295); (4301,4301); (4304,4346); (4349,4351);
   (5024,5109); (5112,5117); (7296,7304); (7312,7354); (7357,7359);
   (7424,7467); (7531,7543); (7545,7578); (7680,7957); (7960,7965);
   (7968,8005); (8008,8013); (8016,8023); (8025,8025); (8027,8027);
   (8029,8029); (8031,8061); (8064,8116); (8118,8124); (8126,8126);
   (8130,8132); (8134,8140); (8144,8147); (8150,8155); (8160,8172);
   (8178,8180); (8182,8188); (8450,8450); (8455,8455); (8458,8467);
   (8469,8469); (8473,8477); (8484,8484); (8486,8486); (8488,8488);
   (8490,8493); (8495,8500); (8505,8505); (8508,8511); (8517,8521);
   (8526,8526); (8544,8575); (8579,8580); (9398,9449); (11264,11387);
   (11390,11492); (11499,11502); (11506,11507); (11520,11557);
   (11559,11559); (11565,11565); (42560,42605); (42624,42651);
   (42786,42863); (42865,42887); (42891,42894); (42896,42954);
   (42960,42961); (42963,42963); (42965,42969); (42997,42998);
   (43002,43002); (43824,43866); (43872,43880); (43888,43967);
   (64256,64262); (64275,64279); (65313,65338); (65345,65370);
   (66560,66639); (66736,66771); (66776,66811); (66928,66938);
   (66940,66954); (66956,66962); (66964,66965); (66967,66977);
   (66979,66993); (66995,67001); (67003,67004); (68736,68786);
   (68800,68850); (71840,71903); (93760,93823); (119808,119892);
   (119894,119964); (119966,119967); (119970,119970); (119973,119974);
   (119977,119980); (119982,119993); (119995,119995); (119997,120003);
   (120005,120069); (120071,120074); (120077,120084); (120086,120092);
   (120094,120121); (120123,120126); (120128,120132); (120134,120134);
   (120138,120144); (120146,120485); (120488,120512); (120514,120538);
   (120540,120570); (120572,120596); (120598,120628); (120630,120654);
   (120656,120686); (120688,120712); (120714,120744); (120746,120770);
   (120772,120779); (122624,122633); (122635,122654); (125184,125251);
   (127280,127305); (127312,127337); (127344,127369)
  ].

(** The code points with the property Case_Ignorable. *)
Definition case_ignorable_ranges : list (N * N) :=
  [
   (39,39); (46,46); (58,58); (94,94); (96,96); (168,168); (173,173);
   (175,175); (180,180); (183,184); (688,879); (884,885); (890,890);
   (900,901); (903,903); (1155,1161); (1369,1369); (1375,1375); (1425,1469);
   (1471,1471); (1473,1474); (1476,1477); (1479,1479); (1524,1524);
   (1536,1541); (1552,1562); (1564,1564); (1600,1600); (1611,1631);
   (1648,1648); (1750,1757); (1759,1768); (1770,1773); (1807,1807);
   (1809,1809); (1840,1866); (1958,1968); (2027,2037); (2042,2042);
   (2045,2045); (2070,2093); (2137,2139); (2184,2184); (2192,2193);
   (2200,2207); (2249,2306); (2362,2362); (2364,2364); (2369,2376);
   (2381,2381); (2385,2391); (2402,2403); (2417,2417); (2433,2433);
   (2492,2492); (2497,2500); (2509,2509); (2530,2531); (2558,2558);
   (2561,2562); (2620,2620); (2625,2626); (2631,2632); (2635,2637);
   (2641,2641); (2672,2673); (2677,2677); (2689,2690); (2748,2748);
   (2753,2757); (2759,2760); (2765,2765); (2786,2787); (2810,2815);
   (2817,2817); (2876,2876); (2879,2879); (2881,2884); (2893,2893);
   (2901,2902); (2914,2915); (2946,2946); (3008,3008); (3021,3021);
   (3072,3072); (3076,3076); (3132,3132); (3134,3136); (3142,3144);
   (3146,3149); (3157,3158); (3170,3171); (3201,3201); (3260,3260);
   (3263,3263); (3270,3270); (3276,3277); (3298,3299); (3328,3329);
   (3387,3388); (3393,3396); (3405,3405); (3426,3427); (3457,3457);
   (3530,3530); (3538,3540); (3542,3542); (3633,3633); (3636,3642);
   (3654,3662); (3761,3761); (3764,3772); (3782,3782); (3784,3789);
   (3864,3865); (3893,3893); (3895,3895); (3897,3897); (3953,3966);
   (3968,3972); (3974,3975); (3981,3991); (3993,4028); (4038,4038);
   (4141,4144); (4146,4151); (4153,4154); (4157,4158); (4184,4185);
   (4190,4192); (4209,4212); (4226,4226); (4229,4230); (4237,4237);
   (4253,4253); (4348,4348); (4957,4959); (5906,5908); (5938,5939);
   (5970,5971); (6002,6003); (6068,6069); (6071,6077); (6086,6086);
   (6089,6099); (6103,6103); (6109,6109); (6155,6159); (6211,6211);
   (6277,6278); (6313,6313); (6432,6434); (6439,6440); (6450,6450);
   (6457,6459); (6679,6680); (6683,6683); (6742,6742); (6744,6750);
   (6752,6752); (6754,6754); (6757,6764); (6771,6780); (6783,6783);
   (6823,6823); (6832,6862); (6912,6915); (6964,6964); (6966,6970);
   (6972,6972); (6978,6978); (7019,7027); (7040,7041); (7074,7077);
   (7080,7081); (7083,7085); (7142,7142); (7144,7145); (7149,7149);
   (7151,7153); (7212,7219); (7222,7223); (7288,7293); (7376,7378);
   (7380,7392); (7394,7400); (7405,7405); (7412,7412); (7416,7417);
   (7468,7530); (7544,7544); (7579,7679); (8125,8125); (8127,8129);
   (8141,8143); (8157,8159); (8173,8175); (8189,8190); (8203,8207);
   (8216,8217); (8228,8228); (8231,8231); (8234,8238); (8288,8292);
   (8294,8303); (8305,8305); (8319,8319); (8336,8348); (8400,8432);
   (11388,11389); (11503,11505); (11631,11631); (11647,11647);
   (11744,11775); (11823,11823); (12293,12293); (12330,12333);
   (12337,12341); (12347,12347); (12441,12446); (12540,12542);
   (40981,40981); (42232,42237); (42508,42508); (42607,42610);
   (42612,42621); (42623,42623); (42652,42655); (42736,42737);
   (42752,42785); (42864,42864); (42888,42890); (42994,42996);
   (43000,43001); (43010,43010); (43014,43014); (43019,43019);
   (43045,43046); (43052,43052); (43204,43205); (43232,43249);
   (43263,43263); (43302,43309); (43335,43345); (43392,43394);
   (43443,43443); (43446,43449); (43452,43453); (43471,43471);
   (43493,43494); (43561,43566); (43569,43570); (43573,43574);
   (43587,43587); (43596,43596); (43632,43632); (43644,43644);
   (43696,43696); (43698,43700); (43703,43704); (43710,43711);
   (43713,43713); (43741,43741); (43756,43757); (43763,43764);
   (43766,43766); (43867,43871); (43881,43883); (44005,44005);
   (44008,44008); (44013,44013); (64286,64286); (64434,64450);
   (65024,65039); (65043,65043); (65056,65071); (65106,65106);
   (65109,65109); (65279,65279); (65287,65287); (65294,65294);
   (65306,65306); (65342,65342); (65344,65344); (65392,65392);
   (65438,65439); (65507,65507); (65529,65531); (66045,66045);
   (66272,66272); (66422,66426); (67456,67461); (67463,67504);
   (67506,67514); (68097,68099); (68101,68102); (68108,68111);
   (68152,68154); (68159,68159); (68325,68326); (68900,68903);
   (69291,69292); (69446,69456); (69506,69509); (69633,69633);
   (69688,69702); (69744,69744); (69747,69748); (69759,69761);
   (69811,69814); (69817,69818); (69821,69821); (69826,69826);
   (69837,69837); (69888,69890); (69927,69931); (69933,69940);
   (70003,70003); (70016,70017); (70070,70078); (70089,70092);
   (70095,70095); (70191,70193); (70196,70196); (70198,70199);
   (70206,70206); (70367,70367); (70371,70378); (70400,70401);
   (70459,70460); (70464,70464); (70502,70508); (70512,70516);
   (70712,70719); (70722,70724); (70726,70726); (70750,70750);
   (70835,70840); (70842,70842); (70847,70848); (70850,70851);
   (71090,71093); (71100,71101); (71103,71104); (71132,71133);
   (71219,71226); (71229,71229); (71231,71232); (71339,71339);
   (71341,71341); (71344,71349); (71351,71351); (71453,71455);
   (71458,71461); (71463,71467); (71727,71735); (71737,71738);
   (71995,71996); (71998,71998); (72003,72003); (72148,72151);
   (72154,72155); (72160,72160); (72193,72202); (72243,72248);
   (72251,72254); (72263,72263); (72273,72278); (72281,72283);
   (72330,72342); (72344,72345); (72752,72758); (72760,72765);
   (72767,72767); (72850,72871); (72874,72880); (72882,72883);
   (72885,72886); (73009,73014); (73018,73018); (73020,73021);
   (73023,73029); (73031,73031); (73104,73105); (73109,73109);
   (73111,73111); (73459,73460); (78896,78904); (92912,92916);
   (92976,92982); (92992,92995); (94031,94031); (94095,94111);
   (94176,94177); (94179,94180); (110576,110579); (110581,110587);
   (110589,110590); (113821,113822); (113824,113827); (118528,118573);
   (118576,118598); (119143,119145); (119155,119170); (119173,119179);
   (119210,119213); (119362,119364); (121344,121398); (121403,121452);
   (121461,121461); (121476,121476); (121499,121503); (121505,121519);
   (122880,122886); (122888,122904); (122907,122913); (122915,122916);
   (122918,122922); (123184,123197); (123566,123566); (123628,123631);
   (125136,125142); (125252,125259); (127995,127999); (917505,917505);
   (917536,917631); (917760,917999)
  ].

Definition in_ranges (ranges : list (N * N)) (c : N) : bool :=
  existsb (fun r => between r.1 r.2 c) ranges.

Definition cased (c : N) : bool := in_ranges cased_ranges c.

Definition case_ignorable (c : N) : bool := in_ranges case_ignorable_ranges c.

Definition capital_sigma : N := 931.
Definition small_sigma : N := 963.
Definition final_sigma : N := 962.

Fixpoint skip_ignorable (s : list N) : list N :=
  match s with
  | c :: s' => if case_ignorable c then skip_ignorable s' else s
  | [] => []
  end.

(** The nearest code point that is not Case_Ignorable is cased. *)
Definition cased_next (s : list N) : bool :=
  match skip_ignorable s with
  | c :: _ => cased c
  | [] => false
  end.

(** The Final_Sigma context: a cased letter before, none after, with what
    is Case_Ignorable skipped; [before] is what precedes, nearest first. *)
Definition in_final_position (before after : list N) : bool :=
  cased_next before && negb (cased_next after).

(** The lower case of one code point where it stands: capital sigma gives
    the final or the plain small sigma by its context, every other code
    point its lower case. *)
Definition lower_at (before : list N) (c : N) (after : list N) : list N :=
  if c =? capital_sigma
  then [if in_final_position before after then final_sigma else small_sigma]
  else to_lower c.

(** [str.lower] and [String.prototype.toLowerCase]. *)
Fixpoint lower_go (before s : list N) : list N :=
  match s with
  | [] => []
  | c :: s' => lower_at before c s' ++ lower_go (c :: before) s'
  end.

Definition lower (s : list N) : list N := lower_go [] s.

(** A code point that lower-casing leaves as it is, wherever it stands. *)
Definition stable (c : N) : bool :=
  negb (c =? capital_sigma) && eqb (to_lower c) [c].

End Unicode.

(* ===================================================================== *)
(** ** Python string operations *)
(* ===================================================================== *)

Module PyStr.

(** A Python [str]: the sequence of its code points. *)
Definition pystr := list N.

(** The [str] a stored field or a literal holds. *)
Definition text (s : string) : pystr := Unicode.decode s.

(** The space character. *)
Definition space : N := 32%N.

(** [==] on two [str]. *)
Definition eqb (a b : pystr) : bool := Unicode.eqb a b.

(** [str.isspace] on one character. *)
Definition is_space (c : N) : bool := Unicode.py_space c.

(** [s.lower()] *)
Definition lower (s : pystr) : pystr := Unicode.lower s.

(** The word being read, when it is not empty, closes into one token. *)
Definition flush (cur : pystr) : list pystr :=
  match cur with
  | [] => []
  | _ => [cur]
  end.

(** [s.split()] with no separator: maximal runs of characters that are not
    white space; [cur] is the word read so far. *)
Fixpoint split_go (cur : pystr) (s : pystr) : list pystr :=
  match s with
  | [] => flush cur
  | c :: s' =>
      if is_space c then flush cur ++ split_go [] s'
      else split_go (cur ++ [c]) s'
  end.

Definition split (s : pystr) : list pystr := split_go [] s.

(** [' '.join(ts)] *)
Fixpoint join (ts : list pystr) : pystr :=
  match ts with
  | [] => []
  | [t] => t
  | t :: ts' => t ++ space :: join ts'
  end.

(** [s.lstrip()] *)
Fixpoint lstrip (s : pystr) : pystr :=
  match s with
  | [] => []
  | c :: s' => if is_space c then lstrip s' else s
  end.

(** [s.rstrip()] *)
Fixpoint rstrip (s : pystr) : pystr :=
  match s with
  | [] => []
  | c :: s' =>
      match rstrip s' with
      | [] => if is_space c then [] else [c]
      | r => c :: r
      end
  end.

(** [s.strip()] *)
Definition strip (s : pystr) : pystr := lstrip (rstrip s).

(** [ts[-1]] of a list that is not empty. *)
Definition last_part (ts : list pystr) : pystr := List.last ts [].

(** White space at the start of a string. *)
Definition starts_with_space (s : pystr) : bool :=
  match s with
  | c :: _ => is_space c
  | [] => false
  end.

(** White space at the end of a string. *)
Fixpoint ends_with_space (s : pystr) : bool :=
  match s with
  | [] => false
  | [c] => is_space c
  | _ :: s' => ends_with_space s'
  end.

(** Every character is its own lower case, wherever it stands: no
    upper-case or title-case letter occurs. *)
Fixpoint all_lower (s : pystr) : bool :=
  match s with
  | [] => true
  | c :: s' => Unicode.stable c && all_lower s'
  end.

(** No white space character occurs. *)
Fixpoint no_space (s : pystr) : bool :=
  match s with
  | [] => true
  | c :: s' => negb (is_space c) && no_space s'
  end.

(** Every white space character is one space character, and a character
    that is not white space follows it: no run of white space is longer than
    one, none ends the string. *)
Fixpoint single_spaced (s : pystr) : bool :=
  match s with
  | [] => true
  | c :: s' =>
      (if is_space c
       then N.eqb c space &&
            match s' with
            | d :: _ => negb (is_space d)
            | [] => false
            end
       else true) && single_spaced s'
  end.

(** The words of the specification, in its order: "collapse internal
    whitespace runs to single spaces": the last character of each run is
    replaced by one space, the others are dropped. *)
Fixpoint collapse_runs (s : pystr) : pystr :=
  match s with
  | [] => []
  | c :: s' =>
      if is_space c
      then if starts_with_space s' then collapse_runs s'
           else space :: collapse_runs s'
      else c :: collapse_runs s'
  end.

(** A word: not empty, and no white space in it. *)
Definition token (t : pystr) : Prop := t <> [] /\ no_space t = true.

End PyStr.

(* ===================================================================== *)
(** ** The name normalizer and the match classifier *)
(* ===================================================================== *)

Module Matcher.
Import PyStr.

(** A persisted contact, as the matcher reads it ([contact['first_name']],
    [contact['last_name']]) and with the other fields of [Person] in
    types/index.ts that the workflow touches, where both names are strings.
    The id is a number, as in the responses the README shows. A field holds
    the UTF-8 bytes of its text. *)
Record ExistingContact := {
  id : nat;
  first_name : string;
  last_name : string;
  email : option string;
  phone : option string;
  company : option string;
  position : option string;
  files : list string
}.

(** A record of the uploaded file: free-text full name, or first and last
    name, optional email and phone. The matcher reads [full_name] only. *)
Record IncomingContact := {
  full_name : string;
  inc_first_name : string;
  inc_last_name : string;
  inc_email : option string;
  inc_phone : option string
}.

Inductive MatchType := exact | partial | none.

(** [{"match_type": ..., "contact": matched_contact or None}] *)
Record MatchResult := {
  match_type : MatchType;
  contact : option ExistingContact
}.

(** [' '.join(vcf_contact['full_name'].lower().split())] *)
Definition normalize_name (s : pystr) : pystr := join (split (lower s)).

(** The specification's wording of the normalizer: collapse the runs of
    white space, trim both ends, lower-case. *)
Definition Normalize_spec (s : pystr) : pystr :=
  lower (strip (collapse_runs s)).

(** [f"{contact['first_name']} {contact['last_name']}".lower().strip()] *)
Definition contact_full (c : ExistingContact) : pystr :=
  strip (lower (text (first_name c) ++ space :: text (last_name c))).

Definition c_first (c : ExistingContact) : pystr := lower (text (first_name c)).
Definition c_last (c : ExistingContact) : pystr := lower (text (last_name c)).

(** The first contact of the enumeration that passes a test: a [for] loop
    that returns at its first hit. *)
Definition first_hit (test : ExistingContact -> bool)
    (existing : list ExistingContact) : option ExistingContact :=
  List.find test existing.

Definition found (mt : MatchType) (c : ExistingContact) : MatchResult :=
  {| match_type := mt; contact := Some c |}.

Definition not_found : MatchResult :=
  {| match_type := none; contact := None |}.

(** STRATEGY 1: the normalized name against the full name of each contact.
    A strategy yields the result it returns, or nothing when the code falls
    through to the next one. *)
Definition strategy1 (vcf_name : pystr) (existing_contacts : list ExistingContact)
    : option MatchResult :=
  found exact <$>
    first_hit (fun contact => eqb vcf_name (contact_full contact))
      existing_contacts.

(** STRATEGY 2, under [len(vcf_parts) >= 2]: first and last word against the
    components, the exact loop before the partial loop. *)
Definition strategy2 (vcf_parts : list pystr)
    (existing_contacts : list ExistingContact) : option MatchResult :=
  if 2 <=? length vcf_parts then
    let vcf_first := List.hd [] vcf_parts in
    let vcf_last := last_part vcf_parts in
    match first_hit (fun contact =>
                       eqb vcf_first (c_first contact) &&
                       eqb vcf_last (c_last contact))
            existing_contacts with
    | Some contact => Some (found exact contact)
    | None =>
        found partial <$>
          first_hit (fun contact =>
                       eqb vcf_last (c_last contact) &&
                       negb (eqb vcf_first (c_first contact)))
            existing_contacts
    end
  else None.

(** STRATEGY 3, under [len(vcf_parts) == 1]: the one word against either
    component. *)
Definition strategy3 (vcf_parts : list pystr)
    (existing_contacts : list ExistingContact) : option MatchResult :=
  if length vcf_parts =? 1 then
    let w := List.hd [] vcf_parts in
    found partial <$>
      first_hit (fun contact =>
                   eqb w (c_first contact) ||
                   eqb w (c_last contact))
        existing_contacts
  else None.

(** [match_vcf_to_contact(vcf_contact, existing_contacts)] *)
Definition match_vcf_to_contact (vcf_contact : IncomingContact)
    (existing_contacts : list ExistingContact) : MatchResult :=
  let vcf_name := normalize_name (text (full_name vcf_contact)) in
  let vcf_parts := split vcf_name in
  match strategy1 vcf_name existing_contacts with
  | Some result => result
  | None =>
      match strategy2 vcf_parts existing_contacts with
      | Some result => result
      | None =>
          match strategy3 vcf_parts existing_contacts with
          | Some result => result
          | None => not_found
          end
      end
  end.

Definition matched_id (r : MatchResult) : option nat := id <$> contact r.

(** A contact with names only. *)
Definition person (i : nat) (f l : string) : ExistingContact :=
  {| id := i; first_name := f; last_name := l; email := None; phone := None;
     company := None; position := None; files := [] |}.

(** An uploaded record with first and last name, and an email. *)
Definition incoming_person (f l : string) (e : option string) : IncomingContact :=
  {| full_name := f +:+ String " " l; inc_first_name := f; inc_last_name := l;
     inc_email := e; inc_phone := None |}.

(** An uploaded record with a full name only. *)
Definition named (n : string) : IncomingContact :=
  {| full_name := n; inc_first_name := ""; inc_last_name := "";
     inc_email := None; inc_phone := None |}.

End Matcher.

(* ===================================================================== *)
(** ** The match classifier on the dicts it is handed *)
(* ===================================================================== *)

Module Dicts.
Import PyStr.

(** What a dict holds under a key: no entry, [None], or a [str]. *)
Inductive PyValue := absent | py_none | py_str (s : string).

(** The exceptions the classifier can end with. *)
Inductive PyError := KeyError | AttributeError.

(** One element of [existing_contacts], as the classifier reads it. *)
Record ContactDict := {
  dict_id : nat;
  dict_first_name : PyValue;
  dict_last_name : PyValue
}.

(** [{"match_type": ..., "contact": matched_contact or None}] *)
Record MatchResult := {
  match_type : Matcher.MatchType;
  contact : option ContactDict
}.

(** [d[key].lower()] *)
Definition lowered (v : PyValue) : PyError + pystr :=
  match v with
  | absent => inl KeyError
  | py_none => inl AttributeError
  | py_str s => inr (lower (text s))
  end.

(** [d[key]] inside an f-string: [None] is formatted as the text None. *)
Definition formatted (v : PyValue) : PyError + pystr :=
  match v with
  | absent => inl KeyError
  | py_none => inr (text "None")
  | py_str s => inr (text s)
  end.

(** A [for] loop over the contacts that returns at the first contact whose
    test passes; an exception raised by the body ends the loop. *)
Fixpoint first_hit (test : ContactDict -> PyError + bool)
    (existing : list ContactDict) : PyError + option ContactDict :=
  match existing with
  | [] => inr None
  | contact :: rest =>
      match test contact with
      | inl e => inl e
      | inr true => inr (Some contact)
      | inr false => first_hit test rest
      end
  end.

(** The body of the loop of STRATEGY 1. *)
Definition full_name_test (vcf_name : pystr) (contact : ContactDict)
    : PyError + bool :=
  match formatted (dict_first_name contact) with
  | inl e => inl e
  | inr f =>
      match formatted (dict_last_name contact) with
      | inl e => inl e
      | inr l => inr (eqb vcf_name (strip (lower (f ++ space :: l))))
      end
  end.

(** The body of the loops of STRATEGY 2 and 3: [c_first] and [c_last] are
    computed, in this order, before the test. *)
Definition components_test (test : pystr -> pystr -> bool)
    (contact : ContactDict) : PyError + bool :=
  match lowered (dict_first_name contact) with
  | inl e => inl e
  | inr c_first =>
      match lowered (dict_last_name contact) with
      | inl e => inl e
      | inr c_last => inr (test c_first c_last)
      end
  end.

(** A loop that returns the given match type at its first hit, or falls
    through to [next]. *)
Definition returning (mt : Matcher.MatchType)
    (hit : PyError + option ContactDict) (next : PyError + MatchResult)
    : PyError + MatchResult :=
  match hit with
  | inl e => inl e
  | inr (Some c) => inr {| match_type := mt; contact := Some c |}
  | inr None => next
  end.

(** [match_vcf_to_contact(vcf_contact, existing_contacts)], for what
    [vcf_contact] holds under ['full_name']. *)
Definition match_vcf_to_contact (full_name : PyValue)
    (existing_contacts : list ContactDict) : PyError + MatchResult :=
  match lowered full_name with
  | inl e => inl e
  | inr low =>
      let vcf_name := join (split low) in
      let vcf_parts := split vcf_name in
      let vcf_first := List.hd [] vcf_parts in
      let vcf_last := last_part vcf_parts in
      let strategy3 :=
        if length vcf_parts =? 1 then
          returning Matcher.partial
            (first_hit (components_test
                          (fun c_first c_last =>
                             eqb vcf_first c_first || eqb vcf_first c_last))
               existing_contacts)
            (inr {| match_type := Matcher.none; contact := None |})
        else inr {| match_type := Matcher.none; contact := None |} in
      let strategy2 :=
        if 2 <=? length vcf_parts then
          returning Matcher.exact
            (first_hit (components_test
                          (fun c_first c_last =>
                             eqb vcf_first c_first && eqb vcf_last c_last))
               existing_contacts)
            (returning Matcher.partial
               (first_hit (components_test
                             (fun c_first c_last =>
                                eqb vcf_last c_last &&
                                negb (eqb vcf_first c_first)))
                  existing_contacts)
               strategy3)
        else strategy3 in
      returning Matcher.exact
        (first_hit (full_name_test vcf_name) existing_contacts)
        strategy2
  end.

(** The dict of a contact whose names are strings. *)
Definition dict_of (c : Matcher.ExistingContact) : ContactDict :=
  {| dict_id := Matcher.id c;
     dict_first_name := py_str (Matcher.first_name c);
     dict_last_name := py_str (Matcher.last_name c) |}.

Definition result_of (r : Matcher.MatchResult) : MatchResult :=
  {| match_type := Matcher.match_type r;
     contact := dict_of <$> Matcher.contact r |}.

End Dicts.

(* ===================================================================== *)
(** ** The match report *)
(* ===================================================================== *)

Module Report.
Import PyStr Matcher.

(** Modelled from the spec: one record of the report (sections 3, 4.3 and
    6): the uploaded contact paired with its classification, and what a
    review screen reads of it; the backend's report type is not among the
    sources. *)
Record MatchRecord := {
  index : nat;
  incoming : IncomingContact;
  vcf_name : pystr;
  vcf_email : option string;
  vcf_phone : option string;
  match_type : MatchType;
  matched_contact_id : option nat;
  matched_contact_name : option string;
  matched_contact_company : option string
}.

(** Modelled from the spec: the report (sections 3 and 4.3): the records,
    the totals and the reference to the staged files. *)
Record MatchReport := {
  total_vcf_contacts : nat;
  exact_matches : nat;
  partial_matches : nat;
  no_matches : nat;
  all_contacts : list MatchRecord;
  temp_dir : string
}.

(** Modelled from the spec: the report builder's record for one uploaded
    contact (section 4.3: index, normalized display name, optional email and
    phone, classification, matched contact's id, name and company); the
    backend's report builder is not among the sources. *)
Definition build_record (existing : list ExistingContact)
    (idx : nat) (i : IncomingContact) : MatchRecord :=
  let r := match_vcf_to_contact i existing in
  {| index := idx;
     incoming := i;
     vcf_name := normalize_name (text (full_name i));
     vcf_email := inc_email i;
     vcf_phone := inc_phone i;
     match_type := Matcher.match_type r;
     matched_contact_id := id <$> contact r;
     matched_contact_name :=
       (fun c => first_name c +:+ String " " (last_name c)) <$> contact r;
     matched_contact_company := contact r ≫= company |}.

Definition is_type (t : MatchType) (r : MatchRecord) : bool :=
  match t, match_type r with
  | exact, exact | partial, partial | none, none => true
  | _, _ => false
  end.

Definition count_type (t : MatchType) (rs : list MatchRecord) : nat :=
  length (List.filter (is_type t) rs).

(** Modelled from the spec: BuildReport (sections 4.3 and 6) runs the
    classifier over the batch in input order, numbers the records from 0 and
    adds the totals and the reference to the staged files; the backend's
    report builder is not among the sources. *)
Definition build_report (batch : list IncomingContact)
    (existing : list ExistingContact) (staged_at : string) : MatchReport :=
  let rs := imap (build_record existing) batch in
  {| total_vcf_contacts := length rs;
     exact_matches := count_type exact rs;
     partial_matches := count_type partial rs;
     no_matches := count_type none rs;
     all_contacts := rs;
     temp_dir := staged_at |}.

End Report.

(* ===================================================================== *)
(** ** The action resolver and the reconciliation committer *)
(* ===================================================================== *)

Module Committer.
Import PyStr Matcher.

(** Modelled from the spec: the user's decision for one uploaded contact
    (section 3); the backend's types are not among the sources. *)
Inductive ContactAction := merge | create | skip.

(** Modelled from the spec: the validation error, naming the offending
    index (sections 4.4 and 7). *)
Inductive CommitError := InvalidActionError (index : nat).

(** Modelled from the spec: the outcome of a commit (sections 3 and 7):
    counts of the applied actions and the failed items, each with its index
    and the reason. *)
Record EnrichmentOutcome := {
  merged : nat;
  created : nat;
  skipped : nat;
  failures : list (nat * string)
}.

(** Modelled from the spec: the two backing stores (section 4.5): the
    relational contact store, by contact id, and the vector index, one
    namespace of indexed files per contact id. *)
Record Stores := {
  contacts : gmap nat ExistingContact;
  vector_index : gmap nat (list string)
}.

(** Modelled from the spec: the stores and the staging area of the uploaded
    files (section 6). *)
Record World := {
  stores : Stores;
  staged : gset string
}.

(** Modelled from the spec: an index with no entry in the action map
    resolves to skip (section 4.4); the backend's resolver is not among the
    sources. *)
Definition resolve_action (actions : gmap nat ContactAction) (idx : nat)
    : ContactAction :=
  default skip (actions !! idx).

Definition is_merge (a : ContactAction) : bool :=
  match a with merge => true | _ => false end.

Definition is_none (t : MatchType) : bool :=
  match t with none => true | _ => false end.

(** Modelled from the spec: merge is valid only where the classification is
    not none; create and skip are always valid (section 4.4). *)
Definition invalid_at (actions : gmap nat ContactAction)
    (r : Report.MatchRecord) : bool :=
  is_merge (resolve_action actions (Report.index r)) &&
  is_none (Report.match_type r).

(** Modelled from the spec: the resolver validates the whole action set and
    fails fast with the offending index, or yields the resolved action list
    in index order (section 4.4). *)
Definition resolve (report : Report.MatchReport)
    (actions : gmap nat ContactAction)
    : CommitError + list (Report.MatchRecord * ContactAction) :=
  match List.find (invalid_at actions) (Report.all_contacts report) with
  | Some r => inl (InvalidActionError (Report.index r))
  | None =>
      inr ((fun r => (r, resolve_action actions (Report.index r)))
             <$> Report.all_contacts report)
  end.

Definition blank (o : option string) : bool :=
  match o with
  | None => true
  | Some s => String.eqb s ""
  end.

(** Modelled from the spec: the field-merge policy (section 4.5). With
    overwrite every incoming field that is not empty replaces the existing
    value; without it only a field that is empty on the existing contact is
    filled. *)
Definition merge_field (overwrite : bool) (old new : option string)
    : option string :=
  if blank new then old
  else if overwrite then new
  else if blank old then new else old.

(** Modelled from the spec: the same policy on a name field, which is a
    string on both sides (section 4.5). *)
Definition merge_name (overwrite : bool) (old new : string) : string :=
  if String.eqb new "" then old
  else if overwrite then new
  else if String.eqb old "" then new else old.

(** Modelled from the spec: the merge of an uploaded contact into the
    matched contact (section 4.5): names, email and phone follow the field
    policy, everything else stays. *)
Definition merge_contact (overwrite : bool) (e : ExistingContact)
    (i : IncomingContact) : ExistingContact :=
  {| id := id e;
     first_name := merge_name overwrite (first_name e) (inc_first_name i);
     last_name := merge_name overwrite (last_name e) (inc_last_name i);
     email := merge_field overwrite (email e) (inc_email i);
     phone := merge_field overwrite (phone e) (inc_phone i);
     company := company e;
     position := position e;
     files := files e |}.

(** Modelled from the spec: the contact a create action inserts, from the
    fields of the uploaded contact (section 4.5). *)
Definition new_contact (nid : nat) (attachments : list string)
    (i : IncomingContact) : ExistingContact :=
  {| id := nid;
     first_name := inc_first_name i;
     last_name := inc_last_name i;
     email := inc_email i;
     phone := inc_phone i;
     company := None;
     position := None;
     files := attachments |}.

(** Modelled from the spec: how one item of the commit ends (section
    4.5). *)
Inductive ItemResult :=
  | Merged
  | Created
  | Skipped
  | Failed (reason : string).

Section StoreLayer.

(** Modelled from the spec: the store layer's integrity check of a row
    about to be written, against the rows it holds (section 4.5, "a single
    insert failing due to a constraint violation"): [None] accepts the
    write, [Some reason] refuses it. The constraints are the database's. *)
Variable violates : gmap nat ExistingContact -> ExistingContact -> option string.

Variable overwrite : bool.

(** The files uploaded along with the batch. *)
Variable attachments : list string.

(** Modelled from the spec: one item of the commit (section 4.5). A skip is
    a no-op; a create inserts the new contact and indexes the batch's files
    into its namespace; a merge updates the matched contact. A write the
    store refuses changes nothing and is reported with its reason. *)
Definition apply_item (s : Stores) (r : Report.MatchRecord)
    (a : ContactAction) : Stores * ItemResult :=
  match a with
  | skip => (s, Skipped)
  | create =>
      let nid := fresh (dom (contacts s)) in
      let c := new_contact nid attachments (Report.incoming r) in
      match violates (contacts s) c with
      | Some reason => (s, Failed reason)
      | None =>
          ({| contacts := <[nid := c]> (contacts s);
              vector_index :=
                match attachments with
                | [] => vector_index s
                | _ => <[nid := attachments]> (vector_index s)
                end |}, Created)
      end
  | merge =>
      match Report.matched_contact_id r with
      | None => (s, Failed "no matched contact")
      | Some k =>
          match contacts s !! k with
          | None => (s, Failed "matched contact not found")
          | Some e =>
              let m := merge_contact overwrite e (Report.incoming r) in
              match violates (delete k (contacts s)) m with
              | Some reason => (s, Failed reason)
              | None =>
                  ({| contacts := <[k := m]> (contacts s);
                      vector_index := vector_index s |}, Merged)
              end
          end
      end
  end.

Definition no_outcome : EnrichmentOutcome :=
  {| merged := 0; created := 0; skipped := 0; failures := [] |}.

(** Modelled from the spec: the outcome with one more item counted, a
    failure with its index and reason (section 4.5). *)
Definition record_item (o : EnrichmentOutcome) (idx : nat) (res : ItemResult)
    : EnrichmentOutcome :=
  match res with
  | Merged => {| merged := S (merged o); created := created o;
                 skipped := skipped o; failures := failures o |}
  | Created => {| merged := merged o; created := S (created o);
                  skipped := skipped o; failures := failures o |}
  | Skipped => {| merged := merged o; created := created o;
                  skipped := S (skipped o); failures := failures o |}
  | Failed reason => {| merged := merged o; created := created o;
                        skipped := skipped o;
                        failures := failures o ++ [(idx, reason)] |}
  end.

(** The counts added and the failure lists appended. *)
Definition add_outcome (o d : EnrichmentOutcome) : EnrichmentOutcome :=
  {| merged := merged o + merged d;
     created := created o + created d;
     skipped := skipped o + skipped d;
     failures := failures o ++ failures d |}.

(** The number of items an outcome accounts for. *)
Definition processed (o : EnrichmentOutcome) : nat :=
  merged o + created o + skipped o + length (failures o).

(** Modelled from the spec: the items are processed one after the other in
    index order, and a failed item does not stop the next one (section
    4.5). *)
Fixpoint apply_items (s : Stores) (o : EnrichmentOutcome)
    (items : list (Report.MatchRecord * ContactAction))
    : Stores * EnrichmentOutcome :=
  match items with
  | [] => (s, o)
  | (r, a) :: rest =>
      let '(s', res) := apply_item s r a in
      apply_items s' (record_item o (Report.index r) res) rest
  end.

(** Modelled from the spec: Commit (section 6) validates, applies, and
    deletes the staged files as its final step whatever the outcome. *)
Definition Commit (report : Report.MatchReport)
    (actions : gmap nat ContactAction) (w : World)
    : (CommitError + EnrichmentOutcome) * World :=
  let cleaned := staged w ∖ {[ Report.temp_dir report ]} in
  match resolve report actions with
  | inl err => (inl err, {| stores := stores w; staged := cleaned |})
  | inr items =>
      let '(s', o) := apply_items (stores w) no_outcome items in
      (inr o, {| stores := s'; staged := cleaned |})
  end.

End StoreLayer.

(** Modelled from the spec: the server-proposed default action (section 3):
    merge for an exact match, skip for a partial match or none. *)
Definition default_action (t : MatchType) : ContactAction :=
  match t with
  | exact => merge
  | _ => skip
  end.

(** Modelled from the spec: the default action of every record of a
    report (sections 3 and 8). *)
Definition default_actions (report : Report.MatchReport)
    : gmap nat ContactAction :=
  list_to_map ((fun r => (Report.index r, default_action (Report.match_type r)))
                 <$> Report.all_contacts report).

(** A store layer with no constraint. *)
Definition accepts_all (_ : gmap nat ExistingContact) (_ : ExistingContact)
    : option string := None.

(** A store layer with one constraint: a contact has a first or a last
    name. *)
Definition needs_a_name (_ : gmap nat ExistingContact) (c : ExistingContact)
    : option string :=
  if String.eqb (first_name c) "" && String.eqb (last_name c) ""
  then Some "NOT NULL constraint failed: persons.name"
  else None.

End Committer.

(* ===================================================================== *)
(** ** The React client: useVcf.ts and the selector of VcfModal.tsx *)
(* ===================================================================== *)

Module ReactClient.

(** ['merge' | 'create' | 'skip'] *)
Inductive ContactAction := merge | create | skip.

Inductive StatusType := success | error | info.

Record UploadStatus := {
  type : StatusType;
  message : string
}.

(** ['all' | 'exact' | 'partial' | 'none'] *)
Inductive MatchFilter := all | only_exact | only_partial | only_none.

(** [VcfContact] of types/index.ts. The index is the property key it is used
    as: a numeric index reads as its decimal string there. The match type is
    the string the response carries. *)
Record VcfContact := {
  index : string;
  vcf_name : string;
  vcf_email : option string;
  vcf_phone : option string;
  match_type : string;
  matched_contact_name : option string;
  matched_contact_company : option string
}.

(** [res.data] of /persons/enrich-from-vcf: [VcfMatchReport] of
    types/index.ts and the [temp_dir] the hook reads besides; [all_contacts]
    and [temp_dir] may be missing. *)
Record VcfMatchReport := {
  total_vcf_contacts : nat;
  exact_matches : nat;
  partial_matches : nat;
  no_matches : nat;
  all_contacts : option (list VcfContact);
  temp_dir : option string
}.

(** [res.data] of /persons/confirm-vcf-enrichment, as far as the hook reads
    it. *)
Record ConfirmData := {
  enriched_count : nat;
  created_count : nat
}.

(** The form of /persons/confirm-vcf-enrichment. *)
Record ConfirmForm := {
  user_id : string;
  form_temp_dir : string;
  overwrite : bool;
  contact_actions : gmap string ContactAction
}.

Inductive Request :=
  | enrich_from_vcf (user : string) (files : list string)
  | confirm_vcf_enrichment (form : ConfirmForm).

(** What a handler does besides writing the hook's state, in order. *)
Inductive Effect :=
  | post (r : Request)
  | onEnrichmentComplete
  | console_error
  | clear_status_after (ms : nat)
  | clear_file_input.

(** How an awaited request ends. *)
Inductive Response (A : Type) :=
  | resolved (data : A)
  | thrown.
Arguments resolved {A} data.
Arguments thrown {A}.

(** The state of the hook, and the upload status of its caller, which the
    hook writes through [setUploadStatus]. *)
Record VcfState := {
  showVcfModal : bool;
  vcfMatchReport : option VcfMatchReport;
  vcfTempDir : option string;
  vcfOverwriteMode : bool;
  vcfContactActions : gmap string ContactAction;
  vcfMatchFilter : MatchFilter;
  vcfSearchQuery : string;
  uploadStatus : option UploadStatus
}.

(** [useState] initial values. *)
Definition initial_state : VcfState :=
  {| showVcfModal := false; vcfMatchReport := None; vcfTempDir := None;
     vcfOverwriteMode := false; vcfContactActions := ∅;
     vcfMatchFilter := all; vcfSearchQuery := ""; uploadStatus := None |}.

(** [contact.match_type === 'exact' ? 'merge' : 'skip'] *)
Definition initial_action (c : VcfContact) : ContactAction :=
  if String.eqb (match_type c) "exact" then merge else skip.

(** The [forEach] of handleVcfUpload over [res.data.all_contacts]. *)
Definition initialActions (cs : option (list VcfContact))
    : gmap string ContactAction :=
  match cs with
  | Some l => foldl (fun acc c => <[index c := initial_action c]> acc) ∅ l
  | None => ∅
  end.

(** handleVcfUpload, for the files chosen and the way the request ends. *)
Definition handleVcfUpload (userId : string) (files : list string)
    (res : Response VcfMatchReport) (st : VcfState)
    : VcfState * list Effect :=
  match files with
  | [] => (st, [])
  | _ =>
      match res with
      | resolved data =>
          ({| showVcfModal := true;
              vcfMatchReport := Some data;
              vcfTempDir := temp_dir data;
              vcfOverwriteMode := vcfOverwriteMode st;
              vcfContactActions := initialActions (all_contacts data);
              vcfMatchFilter := all;
              vcfSearchQuery := "";
              uploadStatus := None |},
           [post (enrich_from_vcf userId files); clear_file_input])
      | thrown =>
          ({| showVcfModal := showVcfModal st;
              vcfMatchReport := vcfMatchReport st;
              vcfTempDir := vcfTempDir st;
              vcfOverwriteMode := vcfOverwriteMode st;
              vcfContactActions := vcfContactActions st;
              vcfMatchFilter := vcfMatchFilter st;
              vcfSearchQuery := vcfSearchQuery st;
              uploadStatus :=
                Some {| type := error; message := "❌ VCF processing failed" |} |},
           [post (enrich_from_vcf userId files); console_error;
            clear_status_after 5000; clear_file_input])
      end
  end.

(** [!vcfTempDir] is false: the reference is neither null nor empty. *)
Definition truthy (o : option string) : option string :=
  match o with
  | Some s => if String.eqb s "" then None else Some s
  | None => None
  end.

Definition enriched_message (d : ConfirmData) : string :=
  "✅ Enriched " +:+ pretty (enriched_count d) +:+ " contacts!" +:+
  (if 0 <? created_count d
   then " Created " +:+ pretty (created_count d) +:+ " new."
   else "").

(** handleConfirmVcfEnrichment, for the way the request ends. *)
Definition handleConfirmVcfEnrichment (userId : string)
    (res : Response ConfirmData) (st : VcfState) : VcfState * list Effect :=
  match truthy (vcfTempDir st) with
  | None => (st, [])
  | Some dir =>
      let form := {| user_id := userId; form_temp_dir := dir;
                     overwrite := vcfOverwriteMode st;
                     contact_actions := vcfContactActions st |} in
      match res with
      | resolved data =>
          ({| showVcfModal := false;
              vcfMatchReport := None;
              vcfTempDir := None;
              vcfOverwriteMode := vcfOverwriteMode st;
              vcfContactActions := ∅;
              vcfMatchFilter := vcfMatchFilter st;
              vcfSearchQuery := vcfSearchQuery st;
              uploadStatus :=
                Some {| type := success; message := enriched_message data |} |},
           [post (confirm_vcf_enrichment form); onEnrichmentComplete;
            clear_status_after 3000])
      | thrown =>
          ({| showVcfModal := false;
              vcfMatchReport := vcfMatchReport st;
              vcfTempDir := vcfTempDir st;
              vcfOverwriteMode := vcfOverwriteMode st;
              vcfContactActions := vcfContactActions st;
              vcfMatchFilter := vcfMatchFilter st;
              vcfSearchQuery := vcfSearchQuery st;
              uploadStatus :=
                Some {| type := error; message := "❌ Enrichment failed" |} |},
           [post (confirm_vcf_enrichment form); console_error;
            clear_status_after 5000])
      end
  end.

(** handleCancelVcfEnrichment *)
Definition handleCancelVcfEnrichment (st : VcfState)
    : VcfState * list Effect :=
  ({| showVcfModal := false;
      vcfMatchReport := None;
      vcfTempDir := None;
      vcfOverwriteMode := vcfOverwriteMode st;
      vcfContactActions := ∅;
      vcfMatchFilter := vcfMatchFilter st;
      vcfSearchQuery := vcfSearchQuery st;
      uploadStatus :=
        Some {| type := info; message := "❌ Enrichment canceled" |} |},
   [clear_status_after 2000]).

(** The selector of VcfModal.tsx shows
    [vcfContactActions[contact.index] || 'skip']. *)
Definition selected_action (actions : gmap string ContactAction)
    (c : VcfContact) : ContactAction :=
  default skip (actions !! index c).

(** Its [onChange]:
    [setVcfContactActions({...vcfContactActions, [contact.index]: value})]. *)
Definition select_action (c : VcfContact) (a : ContactAction)
    (st : VcfState) : VcfState :=
  {| showVcfModal := showVcfModal st;
     vcfMatchReport := vcfMatchReport st;
     vcfTempDir := vcfTempDir st;
     vcfOverwriteMode := vcfOverwriteMode st;
     vcfContactActions := <[index c := a]> (vcfContactActions st);
     vcfMatchFilter := vcfMatchFilter st;
     vcfSearchQuery := vcfSearchQuery st;
     uploadStatus := uploadStatus st |}.

(** The options the selector offers: merge only where the match type is not
    ['none']. *)
Definition offered (c : VcfContact) : list ContactAction :=
  (if String.eqb (match_type c) "none" then [] else [merge]) ++ [create; skip].

(** The events of one reconciliation in the hook. *)
Inductive Event :=
  | upload (files : list string) (res : Response VcfMatchReport)
  | confirm (res : Response ConfirmData)
  | cancel
  | choose (c : VcfContact) (a : ContactAction).

Definition step (userId : string) (ev : Event) (st : VcfState)
    : VcfState * list Effect :=
  match ev with
  | upload files res => handleVcfUpload userId files res st
  | confirm res => handleConfirmVcfEnrichment userId res st
  | cancel => handleCancelVcfEnrichment st
  | choose c a => (select_action c a st, [])
  end.

(** The report, the staged-file reference and the action map are all
    cleared. *)
Definition cleared (st : VcfState) : Prop :=
  vcfMatchReport st = None ∧ vcfTempDir st = None ∧ vcfContactActions st = ∅.

Section Server.

(** The server behind the client, whatever it is: its state changes by the
    requests it receives, and by nothing else the client does. *)
Variable ServerState : Type.
Variable serve : ServerState -> Request -> ServerState.

Definition deliver (effects : list Effect) (srv : ServerState) : ServerState :=
  foldl (fun s e => match e with post r => serve s r | _ => s end) srv effects.

(** A handler run against the server: the client's new state, and the
    server after the requests the handler sent. *)
Definition run (h : VcfState -> VcfState * list Effect)
    (w : VcfState * ServerState) : VcfState * ServerState :=
  let '(st', effects) := h (fst w) in (st', deliver effects (snd w)).

End Server.

End ReactClient.

(* ===================================================================== *)
(** ** The Flutter client: VcfEnrichmentModal *)
(* ===================================================================== *)

Module FlutterClient.

(** One element of [report['all_contacts']]: [c['index'].toString()] and
    [c['match_type']]. *)
Record Contact := {
  index : string;
  match_type : string
}.

(** The decoded body of /persons/enrich-from-vcf. *)
Record Report := {
  all_contacts : list Contact;
  temp_dir : option string
}.

(** The fields of the multipart request of confirmVcfEnrichment; the values
    of [contactActions] are the action strings. *)
Record ConfirmFields := {
  user_id : string;
  form_temp_dir : string;
  overwrite : bool;
  contact_actions : gmap string string
}.

Inductive Request :=
  | confirmVcfEnrichment (fields : ConfirmFields)
  | getPersons (user : string).

Inductive Effect :=
  | send (r : Request)
  | navigator_pop
  | show_snack_bar.

Inductive Response (A : Type) :=
  | returned (data : A)
  | thrown.
Arguments returned {A} data.
Arguments thrown {A}.

(** The providers the modal reads and writes, and its own [_overwrite]. *)
Record ModalState := {
  userId : option string;
  vcfMatchReport : option Report;
  vcfTempDir : option string;
  persons : list string;
  _overwrite : bool
}.

(** The action string the loop writes for one contact. *)
Definition action_for (c : Contact) : string :=
  if String.eqb (match_type c) "exact" then "merge" else "create".

(** The loop of _confirmEnrichment over the contacts of the report. *)
Definition build_actions (contacts : list Contact) : gmap string string :=
  foldl (fun actions c =>
           if String.eqb (match_type c) "exact"
           then <[index c := "merge"]> actions
           else <[index c := "create"]> actions) ∅ contacts.

(** _confirmEnrichment, for the way its two requests end. [report!] outside
    the [try] ends the handler with nothing done; [userId!] and [tempDir!]
    inside it are caught, after the dialog was closed. *)
Definition _confirmEnrichment (confirmed : Response string)
    (fetched : Response (list string)) (st : ModalState)
    : ModalState * list Effect :=
  match vcfMatchReport st with
  | None => (st, [])
  | Some report =>
      let actions := build_actions (all_contacts report) in
      match userId st, vcfTempDir st with
      | Some user, Some dir =>
          let fields := {| user_id := user; form_temp_dir := dir;
                           overwrite := _overwrite st;
                           contact_actions := actions |} in
          match confirmed with
          | thrown =>
              (st, [navigator_pop; send (confirmVcfEnrichment fields);
                    show_snack_bar])
          | returned _ =>
              match fetched with
              | thrown =>
                  (st, [navigator_pop; send (confirmVcfEnrichment fields);
                        show_snack_bar; send (getPersons user);
                        show_snack_bar])
              | returned ps =>
                  ({| userId := userId st;
                      vcfMatchReport := None;
                      vcfTempDir := None;
                      persons := ps;
                      _overwrite := _overwrite st |},
                   [navigator_pop; send (confirmVcfEnrichment fields);
                    show_snack_bar; send (getPersons user)])
              end
          end
      | _, _ => (st, [navigator_pop; show_snack_bar])
      end
  end.

(** The [onPressed] of the Cancel button. *)
Definition cancel_pressed (st : ModalState) : ModalState * list Effect :=
  ({| userId := userId st;
      vcfMatchReport := None;
      vcfTempDir := None;
      persons := persons st;
      _overwrite := _overwrite st |},
   [navigator_pop]).

(** The confirm requests among the effects of a handler. *)
Definition confirm_requests (effects : list Effect) : list ConfirmFields :=
  omap (fun e => match e with
                 | send (confirmVcfEnrichment f) => Some f
                 | _ => None
                 end) effects.

Section Server.

Variable ServerState : Type.
Variable serve : ServerState -> Request -> ServerState.

Definition deliver (effects : list Effect) (srv : ServerState) : ServerState :=
  foldl (fun s e => match e with send r => serve s r | _ => s end) srv effects.

Definition run (h : ModalState -> ModalState * list Effect)
    (w : ModalState * ServerState) : ModalState * ServerState :=
  let '(st', effects) := h (fst w) in (st', deliver effects (snd w)).

End Server.

End FlutterClient.

(* ===================================================================== *)
(** ** A server that keeps staged uploads *)
(* ===================================================================== *)

Module Staging.

(** Modelled from the spec: the server side of the staging area, which is
    not among the sources: the contacts it stores and the directories of
    staged uploads. A confirm request deletes the directory it names
    (sections 4.5 and 6); the upload request is taken to stage one under the
    user's name. *)
Record Server := {
  stored : list string;
  staged : gset string
}.

(** Modelled from the spec: what the endpoints the React client calls do to
    the staging area. *)
Definition serve_react (s : Server) (r : ReactClient.Request) : Server :=
  match r with
  | ReactClient.enrich_from_vcf user _ =>
      {| stored := stored s; staged := staged s ∪ {[ user ]} |}
  | ReactClient.confirm_vcf_enrichment f =>
      {| stored := stored s;
         staged := staged s ∖ {[ ReactClient.form_temp_dir f ]} |}
  end.

(** Modelled from the spec: what the endpoints the Flutter client calls do
    to the staging area. *)
Definition serve_flutter (s : Server) (r : FlutterClient.Request) : Server :=
  match r with
  | FlutterClient.confirmVcfEnrichment f =>
      {| stored := stored s;
         staged := staged s ∖ {[ FlutterClient.form_temp_dir f ]} |}
  | FlutterClient.getPersons _ => s
  end.

End Staging.

(* ===================================================================== *)
(** ** The scenarios of the specification *)
(* ===================================================================== *)

Module Scenario.
Import Matcher.

(** Section 8: the existing contact with an email, and the uploaded contact
    with another one. *)
Definition existing_john : ExistingContact :=
  {| id := 1; first_name := "John"; last_name := "Doe";
     email := Some "existing@y.com"; phone := None; company := Some "Acme Corp";
     position := None; files := [] |}.

Definition incoming_john : IncomingContact :=
  incoming_person "John" "Doe" (Some "a@x.com").

Definition john_store : Committer.Stores :=
  {| Committer.contacts := {[ 1 := existing_john ]};
     Committer.vector_index := ∅ |}.

Definition john_record : Report.MatchRecord :=
  Report.build_record [existing_john] 0 incoming_john.

(** Section 8, the end-to-end scenario: three uploaded contacts against two
    existing ones. *)
Definition two_existing : list ExistingContact :=
  [person 1 "John" "Doe"; person 2 "John" "Smith"].

Definition three_incoming : list IncomingContact :=
  [incoming_person "John" "Doe" None; incoming_person "Mike" "Smith" None;
   incoming_person "Alice" "Wonderland" None].

Definition three_report : Report.MatchReport :=
  Report.build_report three_incoming two_existing "tmp_vcf_1".

Definition two_world : Committer.World :=
  {| Committer.stores :=
       {| Committer.contacts :=
            {[ 1 := person 1 "John" "Doe"; 2 := person 2 "John" "Smith" ]};
          Committer.vector_index := ∅ |};
     Committer.staged := {[ "tmp_vcf_1" ]} |}.

(** A batch of three new contacts, the second one without a name. *)
Definition nameless_batch : list IncomingContact :=
  [incoming_person "Ann" "Lee" None; named ""; incoming_person "Bob" "Ray" None].

Definition nameless_report : Report.MatchReport :=
  Report.build_report nameless_batch [] "tmp_vcf_2".

Definition create_all : gmap nat Committer.ContactAction :=
  {[ 0 := Committer.create; 1 := Committer.create; 2 := Committer.create ]}.

Definition empty_world : Committer.World :=
  {| Committer.stores :=
       {| Committer.contacts := ∅; Committer.vector_index := ∅ |};
     Committer.staged := {[ "tmp_vcf_2" ]} |}.

(** The React hook while the user reviews a report of three contacts. *)
Definition review_report : ReactClient.VcfMatchReport :=
  {| ReactClient.total_vcf_contacts := 3;
     ReactClient.exact_matches := 1;
     ReactClient.partial_matches := 1;
     ReactClient.no_matches := 1;
     ReactClient.all_contacts :=
       Some [ {| ReactClient.index := "0"; ReactClient.vcf_name := "john doe";
                 ReactClient.vcf_email := None; ReactClient.vcf_phone := None;
                 ReactClient.match_type := "exact";
                 ReactClient.matched_contact_name := Some "John Doe";
                 ReactClient.matched_contact_company := None |};
              {| ReactClient.index := "1"; ReactClient.vcf_name := "mike smith";
                 ReactClient.vcf_email := None; ReactClient.vcf_phone := None;
                 ReactClient.match_type := "partial";
                 ReactClient.matched_contact_name := Some "John Smith";
                 ReactClient.matched_contact_company := None |};
              {| ReactClient.index := "2";
                 ReactClient.vcf_name := "alice wonderland";
                 ReactClient.vcf_email := None; ReactClient.vcf_phone := None;
                 ReactClient.match_type := "none";
                 ReactClient.matched_contact_name := None;
                 ReactClient.matched_contact_company := None |} ];
     ReactClient.temp_dir := Some "tmp_vcf_1" |}.

Definition reviewing : ReactClient.VcfState :=
  (ReactClient.handleVcfUpload "user@gmail.com" ["contacts.vcf"]
     (ReactClient.resolved review_report) ReactClient.initial_state).1.

(** The Flutter modal over the same report. *)
Definition flutter_report : FlutterClient.Report :=
  {| FlutterClient.all_contacts :=
       [ {| FlutterClient.index := "0"; FlutterClient.match_type := "exact" |};
         {| FlutterClient.index := "1"; FlutterClient.match_type := "partial" |};
         {| FlutterClient.index := "2"; FlutterClient.match_type := "none" |} ];
     FlutterClient.temp_dir := Some "tmp_vcf_1" |}.

Definition flutter_reviewing : FlutterClient.ModalState :=
  {| FlutterClient.userId := Some "user@gmail.com";
     FlutterClient.vcfMatchReport := Some flutter_report;
     FlutterClient.vcfTempDir := Some "tmp_vcf_1";
     FlutterClient.persons := ["John Doe"; "John Smith"];
     FlutterClient._overwrite := true |}.

(** The server with the upload of that report staged. *)
Definition staging_server : Staging.Server :=
  {| Staging.stored := ["John Doe"; "John Smith"];
     Staging.staged := {[ "tmp_vcf_1" ]} |}.

End Scenario.

(* ===================================================================== *)
(** ** JavaScript and Dart string operations *)
(* ===================================================================== *)

Module JsStr.

(** A JavaScript or Dart string, as the sequence of the code points of its
    text: the strings at hand are well-formed, and on such strings the
    comparisons by code unit are the comparisons by code point. *)
Definition jsstr := list N.

(** The string a state field, a property or a literal holds. *)
Definition text (s : string) : jsstr := Unicode.decode s.

(** The space character. *)
Definition space : N := 32%N.

(** [===] on two strings. *)
Definition eqb (a b : jsstr) : bool := Unicode.eqb a b.

(** The white space of [trim] and of the regular expression [\s]. *)
Definition is_space (c : N) : bool := Unicode.js_space c.

(** [s.toLowerCase()] *)
Definition toLowerCase (s : jsstr) : jsstr := Unicode.lower s.

(** [s.trimStart()] *)
Fixpoint trimStart (s : jsstr) : jsstr :=
  match s with
  | [] => []
  | c :: s' => if is_space c then trimStart s' else s
  end.

(** [s.trimEnd()] *)
Fixpoint trimEnd (s : jsstr) : jsstr :=
  match s with
  | [] => []
  | c :: s' =>
      match trimEnd s' with
      | [] => if is_space c then [] else [c]
      | r => c :: r
      end
  end.

(** [s.trim()] *)
Definition trim (s : jsstr) : jsstr := trimStart (trimEnd s).

(** [t] starts [s]. *)
Fixpoint prefix (t s : jsstr) : bool :=
  match t, s with
  | [], _ => true
  | x :: t', y :: s' => (x =? y)%N && prefix t' s'
  | _ :: _, [] => false
  end.

(** [s.startsWith(t)] *)
Definition startsWith (s t : jsstr) : bool := prefix t s.

(** [s.includes(t)] *)
Fixpoint includes (s t : jsstr) : bool :=
  prefix t s ||
  match s with
  | [] => false
  | _ :: s' => includes s' t
  end.

(** [s.endsWith(t)] *)
Fixpoint endsWith (s t : jsstr) : bool :=
  eqb s t ||
  match s with
  | [] => false
  | _ :: s' => endsWith s' t
  end.

(** [s.split(/\s+/).filter(token => token.length > 0)]: the maximal runs of
    characters that are not white space; [cur] is the run read so far. *)
Fixpoint words_go (cur : jsstr) (s : jsstr) : list jsstr :=
  match s with
  | [] => PyStr.flush cur
  | c :: s' =>
      if is_space c then PyStr.flush cur ++ words_go [] s'
      else words_go (cur ++ [c]) s'
  end.

Definition words (s : jsstr) : list jsstr := words_go [] s.

(** No white space character of [\s] occurs. *)
Fixpoint no_space (s : jsstr) : bool :=
  match s with
  | [] => true
  | c :: s' => negb (is_space c) && no_space s'
  end.

End JsStr.

(* ===================================================================== *)
(** ** The review list of VcfModal.tsx and the controls around it *)
(* ===================================================================== *)

Module ReviewList.
Import ReactClient.

(** The match type test of the list's [filter]. *)
Definition passes_filter (f : MatchFilter) (c : VcfContact) : bool :=
  match f with
  | all => true
  | only_exact => String.eqb (match_type c) "exact"
  | only_partial => String.eqb (match_type c) "partial"
  | only_none => String.eqb (match_type c) "none"
  end.

(** [field?.toLowerCase().includes(query)], false for a missing field. *)
Definition field_includes (field : option string) (query : JsStr.jsstr)
    : bool :=
  match field with
  | Some v => JsStr.includes (JsStr.toLowerCase (JsStr.text v)) query
  | None => false
  end.

(** The search test of the list's [filter]: it applies when the trimmed
    search text is not empty, and compares with the search text lower-cased
    but not trimmed. *)
Definition passes_search (q : JsStr.jsstr) (c : VcfContact) : bool :=
  if JsStr.eqb (JsStr.trim q) [] then true
  else
    let query := JsStr.toLowerCase q in
    field_includes (Some (vcf_name c)) query ||
    field_includes (vcf_email c) query ||
    field_includes (vcf_phone c) query ||
    field_includes (matched_contact_name c) query.

Definition listed (f : MatchFilter) (q : JsStr.jsstr) (c : VcfContact)
    : bool :=
  passes_filter f c && passes_search q c.

(** [vcfMatchReport.all_contacts?.filter(...)]: the contacts the list
    shows. *)
Definition listed_contacts (st : VcfState) : list VcfContact :=
  match vcfMatchReport st with
  | Some report =>
      match all_contacts report with
      | Some cs =>
          List.filter
            (listed (vcfMatchFilter st) (JsStr.text (vcfSearchQuery st))) cs
      | None => []
      end
  | None => []
  end.

(** The component returns null without a report: the modal is on screen
    while a report is held. *)
Definition modal_rendered (st : VcfState) : bool :=
  match vcfMatchReport st with
  | Some _ => true
  | None => false
  end.

Definition action_eqb (a b : ContactAction) : bool :=
  match a, b with
  | merge, merge | create, create | skip, skip => true
  | _, _ => false
  end.

(** [Object.values(vcfContactActions).filter(a => a === action).length] of
    the action summary. *)
Definition count_action (a : ContactAction)
    (actions : gmap string ContactAction) : nat :=
  length (List.filter (fun x => action_eqb x a) (snd <$> map_to_list actions)).

(** What the user can do in the hook and the modal: the handlers of the
    hook, and the setters the modal calls from its controls. *)
Inductive UiEvent :=
  | handler (ev : Event)
  | setVcfOverwriteMode (checked : bool)
  | setVcfMatchFilter (f : MatchFilter)
  | setVcfSearchQuery (q : string).

Definition ui_step (userId : string) (e : UiEvent) (st : VcfState)
    : VcfState * list Effect :=
  match e with
  | handler ev => step userId ev st
  | setVcfOverwriteMode checked =>
      ({| showVcfModal := showVcfModal st;
          vcfMatchReport := vcfMatchReport st;
          vcfTempDir := vcfTempDir st;
          vcfOverwriteMode := checked;
          vcfContactActions := vcfContactActions st;
          vcfMatchFilter := vcfMatchFilter st;
          vcfSearchQuery := vcfSearchQuery st;
          uploadStatus := uploadStatus st |}, [])
  | setVcfMatchFilter f =>
      ({| showVcfModal := showVcfModal st;
          vcfMatchReport := vcfMatchReport st;
          vcfTempDir := vcfTempDir st;
          vcfOverwriteMode := vcfOverwriteMode st;
          vcfContactActions := vcfContactActions st;
          vcfMatchFilter := f;
          vcfSearchQuery := vcfSearchQuery st;
          uploadStatus := uploadStatus st |}, [])
  | setVcfSearchQuery q =>
      ({| showVcfModal := showVcfModal st;
          vcfMatchReport := vcfMatchReport st;
          vcfTempDir := vcfTempDir st;
          vcfOverwriteMode := vcfOverwriteMode st;
          vcfContactActions := vcfContactActions st;
          vcfMatchFilter := vcfMatchFilter st;
          vcfSearchQuery := q;
          uploadStatus := uploadStatus st |}, [])
  end.

(** The indices of the contacts of a report. *)
Definition indices (report : VcfMatchReport) : list string :=
  match all_contacts report with
  | Some cs => index <$> cs
  | None => []
  end.

(** An event the screen allows in a state. The selector of a contact exists
    for the contacts the list shows, and its options are the offered ones.
    An upload that resolves brings a report whose indices differ. *)
Definition possible (st : VcfState) (e : UiEvent) : Prop :=
  match e with
  | handler (choose c a) => c ∈ listed_contacts st /\ a ∈ offered c
  | handler (upload _ (resolved data)) => NoDup (indices data)
  | _ => True
  end.

(** The states the hook reaches from its initial state by events the screen
    allows. *)
Inductive reachable (userId : string) : VcfState -> Prop :=
  | reachable_initial : reachable userId initial_state
  | reachable_step st e :
      reachable userId st -> possible st e ->
      reachable userId (ui_step userId e st).1.

(** The confirm forms among the effects of a handler. *)
Definition confirm_forms (effects : list Effect) : list ConfirmForm :=
  omap (fun e => match e with
                 | post (confirm_vcf_enrichment f) => Some f
                 | _ => None
                 end) effects.

(** The requests among the effects of a handler. *)
Definition requests (effects : list Effect) : list Request :=
  omap (fun e => match e with post r => Some r | _ => None end) effects.

(** The report, the staged-file reference and the action map belong
    together: none of them is held, or the reference is the one the report
    came with and the action map has an entry for the index of every contact
    of the report and for nothing else. *)
Definition consistent (st : VcfState) : Prop :=
  match vcfMatchReport st with
  | None => vcfTempDir st = None /\ vcfContactActions st = ∅
  | Some report =>
      vcfTempDir st = temp_dir report /\
      dom (vcfContactActions st) = list_to_set (indices report) /\
      NoDup (indices report)
  end.

(** No contact of the held report whose match type is ['none'] has merge as
    its action. *)
Definition merge_only_on_match (st : VcfState) : Prop :=
  forall report cs c,
    vcfMatchReport st = Some report -> all_contacts report = Some cs ->
    c ∈ cs -> vcfContactActions st !! index c = Some merge ->
    match_type c <> "none".

End ReviewList.

(* ===================================================================== *)
(** ** The contacts hook of the React client: useContacts *)
(* ===================================================================== *)

Module Contacts.

(** [Person] of types/index.ts. *)
Record Person := {
  id : string;
  first_name : string;
  last_name : string;
  email : option string;
  phone : option string;
  company : option string;
  position : option string;
  description : option string;
  files : option (list string);
  address : option string;
  birthday : option string;
  notes : option string;
  url : option string
}.

(** [Partial<Person>] with the fields the hook and the edit modal write. *)
Record EditForm := {
  form_first_name : option string;
  form_last_name : option string;
  form_email : option string;
  form_phone : option string;
  form_company : option string;
  form_position : option string;
  form_url : option string;
  form_address : option string;
  form_birthday : option string;
  form_notes : option string
}.

(** [{}] *)
Definition empty_form : EditForm :=
  {| form_first_name := None; form_last_name := None; form_email := None;
     form_phone := None; form_company := None; form_position := None;
     form_url := None; form_address := None; form_birthday := None;
     form_notes := None |}.

(** The inputs of the edit modal. *)
Inductive Field :=
  | f_first_name | f_last_name | f_email | f_phone | f_company
  | f_position | f_url | f_address | f_birthday | f_notes.

Definition get_field (f : Field) (d : EditForm) : option string :=
  match f with
  | f_first_name => form_first_name d
  | f_last_name => form_last_name d
  | f_email => form_email d
  | f_phone => form_phone d
  | f_company => form_company d
  | f_position => form_position d
  | f_url => form_url d
  | f_address => form_address d
  | f_birthday => form_birthday d
  | f_notes => form_notes d
  end.

(** [{ ...editFormData, field: value }] *)
Definition set_field (f : Field) (v : string) (d : EditForm) : EditForm :=
  {| form_first_name := if f is f_first_name then Some v else form_first_name d;
     form_last_name := if f is f_last_name then Some v else form_last_name d;
     form_email := if f is f_email then Some v else form_email d;
     form_phone := if f is f_phone then Some v else form_phone d;
     form_company := if f is f_company then Some v else form_company d;
     form_position := if f is f_position then Some v else form_position d;
     form_url := if f is f_url then Some v else form_url d;
     form_address := if f is f_address then Some v else form_address d;
     form_birthday := if f is f_birthday then Some v else form_birthday d;
     form_notes := if f is f_notes then Some v else form_notes d |}.

(** [editFormData.field || ''], what an input of the edit modal shows. *)
Definition shown (f : Field) (d : EditForm) : string :=
  match get_field f d with
  | Some v => v
  | None => ""
  end.

(** The field of a person an input stands for, [person.field || '']. *)
Definition person_field (f : Field) (p : Person) : string :=
  match f with
  | f_first_name => first_name p
  | f_last_name => last_name p
  | f_email => default "" (email p)
  | f_phone => default "" (phone p)
  | f_company => default "" (company p)
  | f_position => default "" (position p)
  | f_url => default "" (url p)
  | f_address => default "" (address p)
  | f_birthday => default "" (birthday p)
  | f_notes => default "" (notes p)
  end.

Inductive Request :=
  | get_persons (user : string)
  | post_person_files (personId user : string) (uploads : list string)
  | delete_person_file (personId filename user : string)
  | delete_person (personId user : string)
  | post_person (user : string) (data : EditForm)
  | put_person (personId user : string) (data : EditForm).

Inductive Effect :=
  | api (r : Request)
  | window_confirm
  | call_fetchPersons
  | console_log
  | console_error
  | clear_status_after (ms : nat).

(** The state of the hook, and the upload status of its caller. *)
Record ContactsState := {
  persons : list Person;
  searchQuery : string;
  editingPerson : option Person;
  isCreating : bool;
  editFormData : EditForm;
  uploadStatus : option ReactClient.UploadStatus
}.

Definition initial_state : ContactsState :=
  {| persons := []; searchQuery := ""; editingPerson := None;
     isCreating := false; editFormData := empty_form; uploadStatus := None |}.

Definition with_status (st : ContactsState) (t : ReactClient.StatusType)
    (m : string) : ContactsState :=
  {| persons := persons st; searchQuery := searchQuery st;
     editingPerson := editingPerson st; isCreating := isCreating st;
     editFormData := editFormData st;
     uploadStatus :=
       Some {| ReactClient.type := t; ReactClient.message := m |} |}.

(** fetchPersons, for the way the request ends; [res.data.persons || []]. *)
Definition fetchPersons (userId : option string)
    (res : ReactClient.Response (option (list Person))) (st : ContactsState)
    : ContactsState * list Effect :=
  match ReactClient.truthy userId with
  | None => (st, [])
  | Some user =>
      match res with
      | ReactClient.resolved data =>
          ({| persons := default [] data; searchQuery := searchQuery st;
              editingPerson := editingPerson st; isCreating := isCreating st;
              editFormData := editFormData st;
              uploadStatus := uploadStatus st |},
           [console_log; api (get_persons user); console_log])
      | ReactClient.thrown =>
          (st, [console_log; api (get_persons user); console_error])
      end
  end.

(** handlePersonFileUpload; [uploads] is [None] for a null [FileList]. *)
Definition handlePersonFileUpload (userId : option string) (personId : string)
    (uploads : option (list string)) (res : ReactClient.Response unit)
    (st : ContactsState) : ContactsState * list Effect :=
  match uploads, ReactClient.truthy userId with
  | Some (file :: rest), Some user =>
      match res with
      | ReactClient.resolved _ =>
          (with_status st ReactClient.success
             "✅ Contact files uploaded successfully!",
           [api (post_person_files personId user (file :: rest));
            call_fetchPersons; clear_status_after 3000])
      | ReactClient.thrown =>
          (with_status st ReactClient.error "❌ Failed to upload contact files",
           [api (post_person_files personId user (file :: rest));
            console_error; clear_status_after 5000])
      end
  | _, _ => (st, [])
  end.

(** handlePersonFileDelete; [confirmed] is the answer of
    [window.confirm]. *)
Definition handlePersonFileDelete (userId : option string)
    (personId filename : string) (confirmed : bool)
    (res : ReactClient.Response unit) (st : ContactsState)
    : ContactsState * list Effect :=
  match ReactClient.truthy userId with
  | None => (st, [])
  | Some user =>
      if confirmed then
        match res with
        | ReactClient.resolved _ =>
            (with_status st ReactClient.success
               ("✅ File " +:+ String "034" filename +:+
                String "034" " deleted successfully!"),
             [window_confirm; api (delete_person_file personId filename user);
              call_fetchPersons; clear_status_after 3000])
        | ReactClient.thrown =>
            (with_status st ReactClient.error "❌ Failed to delete file",
             [window_confirm; api (delete_person_file personId filename user);
              console_error; clear_status_after 5000])
        end
      else (st, [window_confirm])
  end.

(** handleDeletePerson; the response carries [data.message]. *)
Definition handleDeletePerson (userId : option string) (person : Person)
    (confirmed : bool) (res : ReactClient.Response string)
    (st : ContactsState) : ContactsState * list Effect :=
  match ReactClient.truthy userId with
  | None => (st, [])
  | Some user =>
      if confirmed then
        match res with
        | ReactClient.resolved message =>
            (with_status st ReactClient.success ("✅ " +:+ message),
             [window_confirm; api (delete_person (id person) user);
              call_fetchPersons; clear_status_after 3000])
        | ReactClient.thrown =>
            (with_status st ReactClient.error "❌ Failed to delete contact",
             [window_confirm; api (delete_person (id person) user);
              console_error; clear_status_after 5000])
        end
      else (st, [window_confirm])
  end.

(** The form handleEditPerson fills: every field, a missing one as ['']. *)
Definition form_of (person : Person) : EditForm :=
  {| form_first_name := Some (first_name person);
     form_last_name := Some (last_name person);
     form_email := Some (default "" (email person));
     form_phone := Some (default "" (phone person));
     form_company := Some (default "" (company person));
     form_position := Some (default "" (position person));
     form_url := Some (default "" (url person));
     form_address := Some (default "" (address person));
     form_birthday := Some (default "" (birthday person));
     form_notes := Some (default "" (notes person)) |}.

(** handleEditPerson *)
Definition handleEditPerson (person : Person) (st : ContactsState)
    : ContactsState :=
  {| persons := persons st; searchQuery := searchQuery st;
     editingPerson := Some person; isCreating := false;
     editFormData := form_of person; uploadStatus := uploadStatus st |}.

(** handleCreatePerson *)
Definition handleCreatePerson (st : ContactsState) : ContactsState :=
  {| persons := persons st; searchQuery := searchQuery st;
     editingPerson := None; isCreating := true;
     editFormData := empty_form; uploadStatus := uploadStatus st |}.

(** handleCancelEdit *)
Definition handleCancelEdit (st : ContactsState) : ContactsState :=
  {| persons := persons st; searchQuery := searchQuery st;
     editingPerson := None; isCreating := false;
     editFormData := empty_form; uploadStatus := uploadStatus st |}.

(** [setEditFormData({ ...editFormData, field: value })] of the edit
    modal. *)
Definition edit_field (f : Field) (v : string) (st : ContactsState)
    : ContactsState :=
  {| persons := persons st; searchQuery := searchQuery st;
     editingPerson := editingPerson st; isCreating := isCreating st;
     editFormData := set_field f v (editFormData st);
     uploadStatus := uploadStatus st |}.

(** The request of handleSaveEdit: a POST when creating, else a PUT to the
    person being edited, else none. *)
Definition save_request (user : string) (st : ContactsState) : option Request :=
  if isCreating st then Some (post_person user (editFormData st))
  else match editingPerson st with
       | Some person => Some (put_person (id person) user (editFormData st))
       | None => None
       end.

(** handleSaveEdit, for the way the request ends. *)
Definition handleSaveEdit (userId : option string)
    (res : ReactClient.Response unit) (st : ContactsState)
    : ContactsState * list Effect :=
  match ReactClient.truthy userId with
  | None => (st, [])
  | Some user =>
      match save_request user st with
      | None => (st, [])
      | Some request =>
          match res with
          | ReactClient.resolved _ =>
              ({| persons := persons st; searchQuery := searchQuery st;
                  editingPerson := None; isCreating := false;
                  editFormData := empty_form;
                  uploadStatus :=
                    Some {| ReactClient.type := ReactClient.success;
                            ReactClient.message :=
                              "✅ Contact " +:+
                              (if isCreating st then "created" else "updated")
                              +:+ " successfully!" |} |},
               [api request; call_fetchPersons; clear_status_after 3000])
          | ReactClient.thrown =>
              (with_status st ReactClient.error
                 ("❌ Failed to " +:+
                  (if isCreating st then "create" else "update") +:+ " contact"),
               [api request; console_error; clear_status_after 5000])
          end
      end
  end.

(** The edit modal is on screen: [editingPerson || isCreating]. *)
Definition modal_open (st : ContactsState) : bool :=
  match editingPerson st with
  | Some _ => true
  | None => isCreating st
  end.

(** The events of the hook. *)
Inductive Event :=
  | fetch (res : ReactClient.Response (option (list Person)))
  | upload_files (personId : string) (uploads : option (list string))
      (res : ReactClient.Response unit)
  | delete_file (personId filename : string) (confirmed : bool)
      (res : ReactClient.Response unit)
  | delete (person : Person) (confirmed : bool)
      (res : ReactClient.Response string)
  | edit (person : Person)
  | create
  | cancel_edit
  | type_in (f : Field) (v : string)
  | save (res : ReactClient.Response unit).

Definition step (userId : option string) (ev : Event) (st : ContactsState)
    : ContactsState * list Effect :=
  match ev with
  | fetch res => fetchPersons userId res st
  | upload_files personId uploads res =>
      handlePersonFileUpload userId personId uploads res st
  | delete_file personId filename confirmed res =>
      handlePersonFileDelete userId personId filename confirmed res st
  | delete person confirmed res =>
      handleDeletePerson userId person confirmed res st
  | edit person => (handleEditPerson person st, [])
  | create => (handleCreatePerson st, [])
  | cancel_edit => (handleCancelEdit st, [])
  | type_in f v => (edit_field f v st, [])
  | save res => handleSaveEdit userId res st
  end.

(** Typing in the edit modal needs the modal. *)
Definition possible (st : ContactsState) (ev : Event) : Prop :=
  match ev with
  | type_in _ _ => modal_open st = true
  | _ => True
  end.

Inductive reachable (userId : option string) : ContactsState -> Prop :=
  | reachable_initial : reachable userId initial_state
  | reachable_step st ev :
      reachable userId st -> possible st ev ->
      reachable userId (step userId ev st).1.

(** The requests among the effects of a handler. *)
Definition requests (effects : list Effect) : list Request :=
  omap (fun e => match e with api r => Some r | _ => None end) effects.

(** A request that deletes on the server. *)
Definition deletes (r : Request) : bool :=
  match r with
  | delete_person_file _ _ _ | delete_person _ _ => true
  | _ => false
  end.

End Contacts.

(* ===================================================================== *)
(** ** The contact search of the sidebar *)
(* ===================================================================== *)

Module ContactSearch.
Import Contacts.

(** The chain of tests for one token against one contact: the score the
    token adds, or nothing when no test passes. *)
Definition token_score (p : Person) (token : JsStr.jsstr) : option nat :=
  let firstName := JsStr.toLowerCase (JsStr.text (first_name p)) in
  let lastName := JsStr.toLowerCase (JsStr.text (last_name p)) in
  let fullName := firstName ++ JsStr.space :: lastName in
  let email := JsStr.toLowerCase (JsStr.text (default "" (email p))) in
  let company := JsStr.toLowerCase (JsStr.text (default "" (company p))) in
  let position := JsStr.toLowerCase (JsStr.text (default "" (position p))) in
  if JsStr.eqb firstName token then Some 100
  else if JsStr.eqb lastName token then Some 100
  else if JsStr.startsWith firstName token then Some 50
  else if JsStr.startsWith lastName token then Some 50
  else if JsStr.includes firstName token then Some 30
  else if JsStr.includes lastName token then Some 30
  else if JsStr.includes fullName token then Some 20
  else if JsStr.includes position token then Some 15
  else if JsStr.includes company token then Some 10
  else if JsStr.includes email token then Some 5
  else None.

(** [score] after the loop over the tokens. *)
Definition score (searchTokens : list JsStr.jsstr) (p : Person) : nat :=
  foldl (fun acc token => acc + default 0 (token_score p token)) 0 searchTokens.

(** [matchedTokens] after the loop over the tokens. *)
Definition matchedTokens (searchTokens : list JsStr.jsstr) (p : Person)
    : nat :=
  foldl (fun acc token =>
           match token_score p token with
           | Some _ => S acc
           | None => acc
           end) 0 searchTokens.

Definition matchedAll (searchTokens : list JsStr.jsstr) (p : Person)
    : bool :=
  matchedTokens searchTokens p =? length searchTokens.

(** One step of a stable sort by descending score: the item goes before the
    first item of a lower or an equal score. *)
Fixpoint insert_by_score (searchTokens : list JsStr.jsstr) (p : Person)
    (sorted : list Person) : list Person :=
  match sorted with
  | [] => [p]
  | q :: rest =>
      if score searchTokens q <=? score searchTokens p then p :: q :: rest
      else q :: insert_by_score searchTokens p rest
  end.

(** [.sort((a, b) => b.score - a.score)], which is stable. *)
Definition sort_by_score (searchTokens : list JsStr.jsstr) (l : list Person)
    : list Person :=
  foldr (insert_by_score searchTokens) [] l.

(** [filteredPersons] *)
Definition filteredPersons (persons : list Person) (searchQuery : string)
    : list Person :=
  if String.eqb searchQuery "" then persons
  else
    let query := JsStr.trim (JsStr.toLowerCase (JsStr.text searchQuery)) in
    if JsStr.eqb query [] then persons
    else
      let searchTokens := JsStr.words query in
      sort_by_score searchTokens
        (List.filter (fun p => matchedAll searchTokens p &&
                               (0 <? score searchTokens p)) persons).

End ContactSearch.

(* ===================================================================== *)
(** ** The upload area of the Flutter client *)
(* ===================================================================== *)

Module FlutterUpload.

(** [UploadResponse] of models/upload_response.dart. *)
Record UploadResponse := {
  message : string;
  count : nat;
  columns : list string
}.

(** How an awaited call ends; an exception carries its text. *)
Inductive Outcome (A : Type) :=
  | returned (data : A)
  | threw (e : string).
Arguments returned {A} data.
Arguments threw {A} e.

Inductive Request :=
  | enrichFromVcf (paths : list string) (user : string)
  | processDocuments (paths : list string) (user : string).

Inductive Effect :=
  | send (r : Request)
  | show_dialog
  | show_snack_bar (text : string)
  | clear_status_later.

(** The providers the upload area reads and writes. *)
Record UploadState := {
  userId : option string;
  isUploading : bool;
  uploadStatus : option string;
  stats : option UploadResponse;
  vcfMatchReport : option FlutterClient.Report;
  vcfTempDir : option string
}.

(** [f.path.toLowerCase().endsWith('.vcf')]; no character outside [A]-[Z]
    has one of the four characters of the suffix in its lower case. *)
Definition is_vcf (path : string) : bool :=
  JsStr.endsWith (JsStr.toLowerCase (JsStr.text path)) (JsStr.text ".vcf").

(** An effect under [if (context.mounted)]. *)
Definition when_mounted (mounted : bool) (e : Effect) : list Effect :=
  if mounted then [e] else [].

(** pickAndUpload, for what the file picker returns ([None] when the user
    dismisses it), for whether the widget is still mounted when the awaited
    call is over, and for the way the request ends. The providers are
    written whether the widget is mounted or not; the dialog and the snack
    bars are shown only when it is. The status is cleared by a timer whose
    callback makes its own test later. *)
Definition pickAndUpload (picked : option (list string)) (mounted : bool)
    (enriched : Outcome FlutterClient.Report)
    (processed : Outcome UploadResponse) (st : UploadState)
    : UploadState * list Effect :=
  match picked with
  | None => (st, [])
  | Some paths =>
      match userId st with
      | None =>
          (st, when_mounted mounted
                 (show_snack_bar "User ID not found. Please log in first."))
      | Some user =>
          match List.filter is_vcf paths with
          | vcf :: vcfs =>
              match enriched with
              | returned report =>
                  ({| userId := userId st; isUploading := isUploading st;
                      uploadStatus := Some "Processing VCF...";
                      stats := stats st;
                      vcfMatchReport := Some report;
                      vcfTempDir := FlutterClient.temp_dir report |},
                   send (enrichFromVcf (vcf :: vcfs) user)
                   :: when_mounted mounted show_dialog
                   ++ [clear_status_later])
              | threw e =>
                  ({| userId := userId st; isUploading := isUploading st;
                      uploadStatus := Some ("VCF Error: " +:+ e);
                      stats := stats st;
                      vcfMatchReport := vcfMatchReport st;
                      vcfTempDir := vcfTempDir st |},
                   send (enrichFromVcf (vcf :: vcfs) user)
                   :: when_mounted mounted
                        (show_snack_bar ("Error processing VCF: " +:+ e))
                   ++ [clear_status_later])
              end
          | [] =>
              match processed with
              | returned response =>
                  ({| userId := userId st; isUploading := false;
                      uploadStatus := Some "Upload successful!";
                      stats := Some response;
                      vcfMatchReport := vcfMatchReport st;
                      vcfTempDir := vcfTempDir st |},
                   send (processDocuments paths user)
                   :: when_mounted mounted
                        (show_snack_bar
                           ("Success! Loaded " +:+ pretty (count response) +:+
                            " connections."))
                   ++ [clear_status_later])
              | threw e =>
                  ({| userId := userId st; isUploading := false;
                      uploadStatus := Some ("Error: " +:+ e);
                      stats := stats st;
                      vcfMatchReport := vcfMatchReport st;
                      vcfTempDir := vcfTempDir st |},
                   send (processDocuments paths user)
                   :: when_mounted mounted
                        (show_snack_bar ("Error uploading file: " +:+ e))
                   ++ [clear_status_later])
              end
          end
      end
  end.

(** The paths a request carries. *)
Definition sent_paths (r : Request) : list string :=
  match r with
  | enrichFromVcf paths _ | processDocuments paths _ => paths
  end.

Definition requests (effects : list Effect) : list Request :=
  omap (fun e => match e with send r => Some r | _ => None end) effects.

End FlutterUpload.

(* ===================================================================== *)
(** ** Sample contacts and picks *)
(* ===================================================================== *)

Module Samples.

Definition ada : Contacts.Person :=
  {| Contacts.id := "p1"; Contacts.first_name := "Ada";
     Contacts.last_name := "Lovelace";
     Contacts.email := Some "ada@engines.org"; Contacts.phone := None;
     Contacts.company := Some "Analytical Engines";
     Contacts.position := Some "Mathematician";
     Contacts.description := None; Contacts.files := None;
     Contacts.address := None; Contacts.birthday := None;
     Contacts.notes := None; Contacts.url := None |}.

Definition alan : Contacts.Person :=
  {| Contacts.id := "p2"; Contacts.first_name := "Alan";
     Contacts.last_name := "Turing";
     Contacts.email := Some "alan@bletchley.uk"; Contacts.phone := None;
     Contacts.company := Some "Bletchley Park";
     Contacts.position := Some "Cryptanalyst";
     Contacts.description := None; Contacts.files := None;
     Contacts.address := None; Contacts.birthday := None;
     Contacts.notes := None; Contacts.url := None |}.

Definition adam : Contacts.Person :=
  {| Contacts.id := "p3"; Contacts.first_name := "Adam";
     Contacts.last_name := "Ada";
     Contacts.email := None; Contacts.phone := None;
     Contacts.company := None; Contacts.position := None;
     Contacts.description := None; Contacts.files := None;
     Contacts.address := None; Contacts.birthday := None;
     Contacts.notes := None; Contacts.url := None |}.

(** The hook with a signed-in user editing a contact. *)
Definition editing_ada : Contacts.ContactsState :=
  Contacts.handleEditPerson ada
    (Contacts.fetchPersons (Some "user@gmail.com")
       (ReactClient.resolved (Some [ada; alan])) Contacts.initial_state).1.

(** The Flutter upload area with a signed-in user. *)
Definition signed_in : FlutterUpload.UploadState :=
  {| FlutterUpload.userId := Some "user@gmail.com";
     FlutterUpload.isUploading := false;
     FlutterUpload.uploadStatus := None;
     FlutterUpload.stats := None;
     FlutterUpload.vcfMatchReport := None;
     FlutterUpload.vcfTempDir := None |}.

End Samples.

(* ===================================================================== *)
(** ** Facts about the string operations *)
(* ===================================================================== *)

Module UnicodeFacts.
Import Unicode.
Local Open Scope N_scope.

Lemma text_eqb_eq a b : eqb a b = true <-> a = b.
Proof.
  revert b. induction a as [|x a IH]; intros [|y b]; simpl;
    try (split; (reflexivity || discriminate)).
  rewrite andb_true_iff, N.eqb_eq, IH. split.
  - intros [-> ->]. reflexivity.
  - intros [= -> ->]. auto.
Qed.

Lemma text_eqb_refl a : eqb a a = true.
Proof. apply text_eqb_eq. reflexivity. Qed.

Lemma text_eqb_neq a b : eqb a b = false <-> a <> b.
Proof.
  split.
  - intros H E. apply text_eqb_eq in E. congruence.
  - intros H. destruct (eqb a b) eqn:E; [|reflexivity].
    apply text_eqb_eq in E. contradiction.
Qed.

(** *** Checking a property of every code point *)

Lemma below_forall (n : nat) (P : N -> bool) :
  forallb P (List.map N.of_nat (seq 0 n)) = true ->
  forall c, c < N.of_nat n -> P c = true.
Proof.
  intros H c Hc. rewrite forallb_forall in H. apply H.
  apply in_map_iff. exists (N.to_nat c). split; [apply N2Nat.id|].
  apply in_seq. lia.
Qed.

(** A property of the lower case of every code point follows from three
    checks: below 192 one by one, on the entries of the table, and on the
    code points that are their own lower case. *)
Lemma to_lower_cases (Q : N -> list N -> bool) :
  forallb (fun c => Q c (to_lower c)) (List.map N.of_nat (seq 0 192)) = true ->
  forallb (fun e => Q e.1 e.2) lower_map = true ->
  (forall c, to_lower c = [c] -> Q c [c] = true) ->
  forall c, Q c (to_lower c) = true.
Proof.
  intros Hlow Hmap Hid c. destruct (c <? 192) eqn:E.
  - apply N.ltb_lt in E.
    exact (below_forall 192 (fun c => Q c (to_lower c)) Hlow c E).
  - assert (Hc : to_lower c = [c] \/ exists e, In e lower_map /\ e.1 = c /\
                                               to_lower c = e.2).
    { unfold to_lower. rewrite E.
      destruct (List.find (fun e => e.1 =? c) lower_map) as [e|] eqn:F; [|auto].
      apply List.find_some in F as [Hin Hk]. apply N.eqb_eq in Hk. eauto. }
    destruct Hc as [Hc | (e & Hin & <- & ->)].
    + rewrite Hc. apply Hid, Hc.
    + rewrite forallb_forall in Hmap. exact (Hmap e Hin).
Qed.

Lemma to_lower_sigma : to_lower capital_sigma = [small_sigma].
Proof. vm_compute. reflexivity. Qed.

(** The lower case of a code point is made of stable code points. *)
Lemma to_lower_stable c : forallb stable (to_lower c) = true.
Proof.
  apply (to_lower_cases (fun _ v => forallb stable v)).
  - vm_compute. reflexivity.
  - vm_compute. reflexivity.
  - intros d Hd. simpl. unfold stable. rewrite Hd, text_eqb_refl.
    destruct (d =? capital_sigma) eqn:E; [|reflexivity].
    apply N.eqb_eq in E. subst d. rewrite to_lower_sigma in Hd. discriminate Hd.
Qed.

Lemma to_lower_not_nil c : to_lower c <> [].
Proof.
  pose proof (to_lower_cases (fun _ v => negb (eqb v [])) eq_refl eq_refl
                (fun _ _ => eq_refl) c) as H.
  intros E. rewrite E in H. discriminate H.
Qed.

Lemma stable_to_lower c : stable c = true -> to_lower c = [c].
Proof. unfold stable. intros [_ H]%andb_true_iff. apply text_eqb_eq, H. Qed.

Lemma stable_not_sigma c : stable c = true -> (c =? capital_sigma) = false.
Proof. unfold stable. intros [H _]%andb_true_iff. apply negb_true_iff, H. Qed.

(** *** Lower case where a code point stands *)

Lemma lower_at_stable before c after :
  forallb stable (lower_at before c after) = true.
Proof.
  unfold lower_at. destruct (c =? capital_sigma); [|apply to_lower_stable].
  destruct (in_final_position before after); vm_compute; reflexivity.
Qed.

Lemma lower_at_not_nil before c after : lower_at before c after <> [].
Proof.
  unfold lower_at. destruct (c =? capital_sigma); [discriminate|].
  apply to_lower_not_nil.
Qed.

Lemma lower_at_fixed before c after :
  stable c = true -> lower_at before c after = [c].
Proof.
  intros H. unfold lower_at. rewrite (stable_not_sigma c H).
  apply stable_to_lower, H.
Qed.

(** *** Lower case of a text *)

Lemma lower_go_fixed s : forall before,
  forallb stable s = true -> lower_go before s = s.
Proof.
  induction s as [|c s IH]; intros before H; [reflexivity|].
  simpl in *. apply andb_true_iff in H as [Hc Hs].
  rewrite (lower_at_fixed _ _ _ Hc), (IH _ Hs). reflexivity.
Qed.

Lemma lower_go_stable s : forall before,
  forallb stable (lower_go before s) = true.
Proof.
  induction s as [|c s IH]; intros before; [reflexivity|].
  simpl. rewrite forallb_app, lower_at_stable, IH. reflexivity.
Qed.

Lemma lower_stable s : forallb stable (lower s) = true.
Proof. apply lower_go_stable. Qed.

Lemma lower_text_fixed s : forallb stable s = true -> lower s = s.
Proof. apply lower_go_fixed. Qed.

Lemma lower_text_idem s : lower (lower s) = lower s.
Proof. apply lower_text_fixed, lower_stable. Qed.

Lemma lower_text_eq_nil s : lower s = [] <-> s = [].
Proof.
  split; [|intros ->; reflexivity].
  destruct s as [|c s]; [reflexivity|]. unfold lower. simpl.
  intros [H _]%app_eq_nil. destruct (lower_at_not_nil _ _ _ H).
Qed.

(** *** White space *)

Section Spaces.

(** A set of white space code points: each is its own lower case, is
    neither capital sigma nor the image of a code point that is no white
    space. *)
Variable spaces : list N.

Local Abbreviation space := (member spaces).

Hypothesis kept :
  forallb (fun c => eqb (to_lower c) [c] && negb (c =? capital_sigma)) spaces
  = true.

Hypothesis sigmas_apart :
  space small_sigma || space final_sigma = false.

Hypothesis not_made_low :
  forallb (fun c => space c || forallb (fun d => negb (space d)) (to_lower c))
    (List.map N.of_nat (seq 0 192)) = true.

Hypothesis not_made :
  forallb (fun e => forallb (fun d => negb (space d)) e.2) lower_map = true.

Lemma space_elem c : space c = true -> In c spaces.
Proof.
  unfold member. intros (d & Hd & E)%existsb_exists.
  apply N.eqb_eq in E. subst d. exact Hd.
Qed.

Lemma space_lower_at before c after :
  space c = true -> lower_at before c after = [c].
Proof.
  intros Hc. apply space_elem in Hc.
  rewrite forallb_forall in kept.
  apply kept, andb_true_iff in Hc as [H1 H2].
  unfold lower_at. apply negb_true_iff in H2. rewrite H2. apply text_eqb_eq, H1.
Qed.

Lemma no_space_to_lower c :
  space c = false -> forallb (fun d => negb (space d)) (to_lower c) = true.
Proof.
  intros Hc.
  pose proof (to_lower_cases
                (fun c v => space c || forallb (fun d => negb (space d)) v)
                not_made_low) as H.
  assert (Hmap : forallb (fun e => member spaces e.1 ||
                                   forallb (fun d => negb (member spaces d)) e.2)
                   lower_map = true).
  { apply forallb_forall. intros e He.
    rewrite (proj1 (forallb_forall _ _) not_made e He).
    apply orb_true_r. }
  specialize (H Hmap).
  specialize (H ltac:(intros d _; simpl; destruct (space d); reflexivity) c).
  simpl in H. rewrite Hc in H. exact H.
Qed.

Lemma no_space_lower_at before c after :
  space c = false ->
  forallb (fun d => negb (space d)) (lower_at before c after) = true.
Proof.
  intros Hc. unfold lower_at. destruct (c =? capital_sigma) eqn:E;
    [|apply no_space_to_lower, Hc].
  apply orb_false_iff in sigmas_apart as [H1 H2].
  destruct (in_final_position before after); simpl; [rewrite H2 | rewrite H1];
    reflexivity.
Qed.

Lemma lower_go_no_space s : forall before,
  forallb (fun d => negb (space d)) s = true ->
  forallb (fun d => negb (space d)) (lower_go before s) = true.
Proof.
  induction s as [|c s IH]; intros before H; [reflexivity|].
  simpl in *. apply andb_true_iff in H as [Hc Hs]. apply negb_true_iff in Hc.
  rewrite forallb_app, (no_space_lower_at _ _ _ Hc), (IH _ Hs). reflexivity.
Qed.

Lemma lower_go_all_space s : forall before,
  forallb space s = true -> lower_go before s = s.
Proof.
  induction s as [|c s IH]; intros before H; [reflexivity|].
  simpl in *. apply andb_true_iff in H as [Hc Hs].
  rewrite (space_lower_at _ _ _ Hc), (IH _ Hs). reflexivity.
Qed.

(** *** White space that breaks the context of a capital sigma *)

Hypothesis breaks :
  forallb (fun c => negb (cased c) && negb (case_ignorable c)) spaces = true.

Lemma space_breaks w :
  space w = true -> cased w = false /\ case_ignorable w = false.
Proof.
  intros Hw. apply space_elem in Hw. rewrite forallb_forall in breaks.
  apply breaks, andb_true_iff in Hw as [H1 H2].
  split; apply negb_true_iff; assumption.
Qed.

Lemma cased_next_space l w r :
  space w = true -> cased_next (l ++ w :: r) = cased_next l.
Proof.
  intros Hw. destruct (space_breaks w Hw) as [Hc Hi]. unfold cased_next.
  induction l as [|c l IH]; simpl.
  - rewrite Hi, Hc. reflexivity.
  - destruct (case_ignorable c); [exact IH | reflexivity].
Qed.

Lemma lower_at_space_before l w r c after :
  space w = true -> lower_at (l ++ w :: r) c after = lower_at l c after.
Proof.
  intros Hw. unfold lower_at, in_final_position.
  rewrite (cased_next_space l w r Hw). reflexivity.
Qed.

Lemma lower_at_space_after before c l w r :
  space w = true -> lower_at before c (l ++ w :: r) = lower_at before c l.
Proof.
  intros Hw. unfold lower_at, in_final_position.
  rewrite (cased_next_space l w r Hw). reflexivity.
Qed.

Lemma lower_go_space_before s : forall l w r,
  space w = true -> lower_go (l ++ w :: r) s = lower_go l s.
Proof.
  induction s as [|c s IH]; intros l w r Hw; [reflexivity|].
  simpl. rewrite (lower_at_space_before l w r c s Hw).
  rewrite (app_comm_cons l (w :: r) c), (IH (c :: l) w r Hw). reflexivity.
Qed.

Lemma lower_go_app_space a : forall before w b,
  space w = true ->
  lower_go before (a ++ w :: b) = lower_go before a ++ w :: lower_go [] b.
Proof.
  induction a as [|c a IH]; intros before w b Hw; simpl.
  - rewrite (space_lower_at before w b Hw). simpl. f_equal.
    apply (lower_go_space_before b [] w before Hw).
  - rewrite (lower_at_space_after before c a w b Hw), (IH _ w b Hw).
    rewrite <- app_assoc. reflexivity.
Qed.

(** Lower-casing goes through a white space character: what is before it
    and what is after it are lower-cased each on its own. *)
Lemma lower_through_space a w b :
  space w = true -> lower (a ++ w :: b) = lower a ++ w :: lower b.
Proof. apply lower_go_app_space. Qed.

End Spaces.

End UnicodeFacts.

(* ===================================================================== *)
(** ** Facts about the Python string operations *)
(* ===================================================================== *)

Module PyStrFacts.
Import PyStr.

Example lower_letters_only :
  lower (text "Hello, WORLD [@`{]") = text "hello, world [@`{]".
Proof. vm_compute. reflexivity. Qed.

Example lower_accented : lower (text "JOSÉ GARCÍA") = text "josé garcía".
Proof. vm_compute. reflexivity. Qed.

Example lower_final_sigma : lower (text "ΟΔΥΣΣΕΥΣ Σ") = text "οδυσσευς σ".
Proof. vm_compute. reflexivity. Qed.

Example split_words :
  split (text (String "009" " a  b" +:+ String "010" "c ")) = text <$> ["a"; "b"; "c"].
Proof. vm_compute. reflexivity. Qed.

(** U+00A0, the no-break space (bytes 194 160), is white space. *)
Example split_no_break_space :
  split (text ("Ana" +:+ String "194" (String "160" "María")))
  = text <$> ["Ana"; "María"].
Proof. vm_compute. reflexivity. Qed.

Example strip_both_ends : strip (text "  a  b ") = text "a  b".
Proof. vm_compute. reflexivity. Qed.

Lemma eqb_eq (a b : pystr) : eqb a b = true <-> a = b.
Proof. apply UnicodeFacts.text_eqb_eq. Qed.

Lemma eqb_neq (a b : pystr) : eqb a b = false <-> a <> b.
Proof. apply UnicodeFacts.text_eqb_neq. Qed.

Lemma eqb_refl (a : pystr) : eqb a a = true.
Proof. apply UnicodeFacts.text_eqb_refl. Qed.

Lemma app_cons c (a b : pystr) : (c :: a) ++ b = c :: (a ++ b).
Proof. reflexivity. Qed.

Lemma app_nil_l (a : pystr) : [] ++ a = a.
Proof. reflexivity. Qed.

Lemma app_nil_r (a : pystr) : a ++ [] = a.
Proof. apply List.app_nil_r. Qed.

Lemma app_assoc (a b c : pystr) : (a ++ b) ++ c = a ++ (b ++ c).
Proof. symmetry. apply List.app_assoc. Qed.

Lemma app_snoc (a b : pystr) c : (a ++ [c]) ++ b = a ++ c :: b.
Proof. rewrite app_assoc. reflexivity. Qed.

Lemma app_eq_nil (a b : pystr) : a ++ b = [] -> a = [] /\ b = [].
Proof. destruct a; [auto | discriminate]. Qed.

Lemma snoc_not_nil (a : pystr) c : a ++ [c] <> [].
Proof. intros [_ H]%app_eq_nil. discriminate H. Qed.

(** *** White space and lower case *)

Lemma space_is_space : is_space space = true.
Proof. reflexivity. Qed.

Lemma py_spaces_kept :
  forallb (fun c => Unicode.eqb (Unicode.to_lower c) [c] &&
                    negb (c =? Unicode.capital_sigma)%N) Unicode.py_spaces = true.
Proof. vm_compute. reflexivity. Qed.

Lemma py_sigmas_no_space :
  is_space Unicode.small_sigma || is_space Unicode.final_sigma = false.
Proof. vm_compute. reflexivity. Qed.

Lemma py_spaces_not_made_low :
  forallb (fun c => is_space c ||
                    forallb (fun d => negb (is_space d)) (Unicode.to_lower c))
    (List.map N.of_nat (seq 0 192)) = true.
Proof. vm_compute. reflexivity. Qed.

Lemma py_spaces_not_made :
  forallb (fun e => forallb (fun d => negb (is_space d)) e.2) Unicode.lower_map
  = true.
Proof. vm_compute. reflexivity. Qed.

Lemma py_spaces_break :
  forallb (fun c => negb (Unicode.cased c) && negb (Unicode.case_ignorable c))
    Unicode.py_spaces = true.
Proof. vm_compute. reflexivity. Qed.

Lemma no_space_forallb s :
  no_space s = forallb (fun d => negb (is_space d)) s.
Proof. induction s as [|c s IH]; simpl; [|rewrite IH]; reflexivity. Qed.

Lemma all_lower_forallb s : all_lower s = forallb Unicode.stable s.
Proof. induction s as [|c s IH]; simpl; [|rewrite IH]; reflexivity. Qed.

(** *** lower *)

(** Lower-casing goes through a white space character. *)
Lemma lower_app_space (a : pystr) w (b : pystr) :
  is_space w = true -> lower (a ++ w :: b) = lower a ++ w :: lower b.
Proof.
  apply (UnicodeFacts.lower_through_space Unicode.py_spaces py_spaces_kept py_spaces_break).
Qed.

Lemma lower_idem s : lower (lower s) = lower s.
Proof. apply UnicodeFacts.lower_text_idem. Qed.

Lemma lower_eq_nil s : lower s = [] <-> s = [].
Proof. apply UnicodeFacts.lower_text_eq_nil. Qed.

Lemma all_lower_lower s : all_lower (lower s) = true.
Proof. rewrite all_lower_forallb. apply UnicodeFacts.lower_stable. Qed.

Lemma lower_fixed s : all_lower s = true -> lower s = s.
Proof. rewrite all_lower_forallb. apply UnicodeFacts.lower_text_fixed. Qed.

Lemma lower_no_space s : no_space s = true -> no_space (lower s) = true.
Proof.
  rewrite !no_space_forallb.
  apply (UnicodeFacts.lower_go_no_space Unicode.py_spaces py_sigmas_no_space
           py_spaces_not_made_low py_spaces_not_made).
Qed.

Lemma lower_token t : token t -> token (lower t).
Proof.
  intros [Hne Hns]. split; [|apply lower_no_space, Hns].
  intros H. apply (proj1 (lower_eq_nil _)) in H. contradiction.
Qed.

Lemma all_lower_app (a b : pystr) :
  all_lower (a ++ b) = all_lower a && all_lower b.
Proof.
  induction a as [|c a IH]; [reflexivity|].
  simpl. rewrite IH, andb_assoc. reflexivity.
Qed.

Lemma flush_lower cur : flush (lower cur) = lower <$> flush cur.
Proof.
  destruct cur as [|c cur]; [reflexivity|]. simpl.
  destruct (lower (c :: cur)) eqn:E; [|reflexivity].
  apply (proj1 (lower_eq_nil _)) in E. discriminate E.
Qed.

(** *** Tokens *)

Lemma no_space_app (a b : pystr) :
  no_space (a ++ b) = no_space a && no_space b.
Proof.
  induction a as [|c a IH]; [reflexivity|].
  simpl. rewrite IH, andb_assoc. reflexivity.
Qed.

Lemma flush_tokens cur : no_space cur = true -> Forall token (flush cur).
Proof.
  destruct cur as [|c cur]; simpl; intros H; constructor; [|constructor].
  split; [discriminate | exact H].
Qed.

Lemma split_go_tokens s : forall cur,
  no_space cur = true -> Forall token (split_go cur s).
Proof.
  induction s as [|c s IH]; intros cur Hcur; simpl.
  - apply flush_tokens, Hcur.
  - destruct (is_space c) eqn:Hc.
    + apply Forall_app. split; [apply flush_tokens, Hcur | apply IH; reflexivity].
    + apply IH. rewrite no_space_app, Hcur. simpl. rewrite Hc. reflexivity.
Qed.

Lemma split_tokens s : Forall token (split s).
Proof. apply split_go_tokens. reflexivity. Qed.

Lemma split_go_word t : forall cur s,
  no_space t = true -> split_go cur (t ++ s) = split_go (cur ++ t) s.
Proof.
  induction t as [|c t IH]; intros cur s Ht.
  - rewrite app_nil_l, app_nil_r. reflexivity.
  - simpl in Ht. apply andb_true_iff in Ht as [Hc Ht]. apply negb_true_iff in Hc.
    rewrite app_cons. simpl. rewrite Hc, (IH _ _ Ht), app_snoc. reflexivity.
Qed.

Lemma split_go_word_nil t cur :
  no_space t = true -> split_go cur t = flush (cur ++ t).
Proof.
  intros Ht. pose proof (split_go_word t cur [] Ht) as H.
  rewrite app_nil_r in H. exact H.
Qed.

Lemma flush_token t : token t -> flush t = [t].
Proof. intros [Hne _]. destruct t; [contradiction | reflexivity]. Qed.

(** The words of a text whose first white space character is [w]. *)
Lemma split_first_space t w s :
  no_space t = true -> is_space w = true ->
  split (t ++ w :: s) = flush t ++ split s.
Proof.
  intros Ht Hw. unfold split. rewrite split_go_word by exact Ht.
  simpl. rewrite Hw. reflexivity.
Qed.

Lemma split_no_space t : no_space t = true -> split t = flush t.
Proof. intros Ht. unfold split. rewrite split_go_word_nil by exact Ht. reflexivity. Qed.

(** A text holds no white space, or has a first white space character. *)
Lemma first_space s :
  no_space s = true \/
  exists t w s', s = t ++ w :: s' /\ no_space t = true /\ is_space w = true.
Proof.
  induction s as [|c s IH]; [left; reflexivity|].
  destruct (is_space c) eqn:Hc.
  - right. exists [], c, s. auto.
  - destruct IH as [Hs | (t & w & s' & -> & Ht & Hw)].
    + left. simpl. rewrite Hc, Hs. reflexivity.
    + right. exists (c :: t), w, s'. simpl. rewrite Hc, Ht. auto.
Qed.

Lemma split_lower s : split (lower s) = lower <$> split s.
Proof.
  remember (length s) as n eqn:Hn. revert s Hn.
  induction n as [n IH] using lt_wf_ind. intros s Hn.
  destruct (first_space s) as [Hs | (t & w & s' & -> & Ht & Hw)].
  - rewrite (split_no_space s Hs), (split_no_space _ (lower_no_space s Hs)).
    apply flush_lower.
  - rewrite (lower_app_space t w s' Hw).
    rewrite (split_first_space (lower t) w (lower s') (lower_no_space t Ht) Hw).
    rewrite (split_first_space t w s' Ht Hw), fmap_app, flush_lower.
    f_equal. apply (IH (length s')); [|reflexivity].
    subst n. rewrite length_app. simpl. lia.
Qed.

Lemma join_cons2 t t' ts : join (t :: t' :: ts) = t ++ space :: join (t' :: ts).
Proof. reflexivity. Qed.

Lemma lower_join ts : lower (join ts) = join (lower <$> ts).
Proof.
  induction ts as [|t ts IH]; [reflexivity|].
  destruct ts as [|t' ts]; [reflexivity|].
  rewrite join_cons2, (lower_app_space t space _ space_is_space), IH.
  reflexivity.
Qed.

Lemma split_join ts : Forall token ts -> split (join ts) = ts.
Proof.
  induction 1 as [|t ts Ht Hts IH]; [reflexivity|].
  destruct ts as [|t' ts].
  - simpl. rewrite split_no_space by apply Ht. apply flush_token, Ht.
  - rewrite join_cons2, split_first_space by (apply Ht || reflexivity).
    rewrite (flush_token _ Ht). simpl. f_equal. apply IH.
Qed.

Lemma split_go_all_lower s : forall cur,
  all_lower cur = true -> all_lower s = true ->
  Forall (fun t => all_lower t = true) (split_go cur s).
Proof.
  induction s as [|c s IH]; intros cur Hcur Hs; simpl.
  - destruct cur; simpl; repeat constructor. exact Hcur.
  - simpl in Hs. apply andb_true_iff in Hs as [Hc Hs].
    destruct (is_space c).
    + apply Forall_app. split; [|apply IH; [reflexivity | exact Hs]].
      destruct cur; simpl; repeat constructor. exact Hcur.
    + apply IH; [|exact Hs]. rewrite all_lower_app, Hcur. simpl. rewrite Hc. reflexivity.
Qed.

Lemma all_lower_join ts :
  Forall (fun t => all_lower t = true) ts -> all_lower (join ts) = true.
Proof.
  induction 1 as [|t ts Ht Hts IH]; [reflexivity|].
  destruct ts as [|t' ts]; [exact Ht|].
  rewrite join_cons2, all_lower_app, Ht. simpl. exact IH.
Qed.

(** *** The shape of a joined list of tokens *)

Lemma starts_with_space_app (a b : pystr) :
  a <> [] -> starts_with_space (a ++ b) = starts_with_space a.
Proof. destruct a; [contradiction | reflexivity]. Qed.

Lemma token_starts t : token t -> starts_with_space t = false.
Proof.
  intros [Hne Hns]. destruct t as [|c t]; [contradiction|].
  simpl in *. apply andb_true_iff in Hns as [Hc _]. apply negb_true_iff, Hc.
Qed.

Lemma join_starts ts : Forall token ts -> starts_with_space (join ts) = false.
Proof.
  destruct 1 as [|t ts Ht Hts]; [reflexivity|].
  destruct ts as [|t' ts]; [apply token_starts, Ht|].
  rewrite join_cons2, starts_with_space_app by apply Ht. apply token_starts, Ht.
Qed.

Lemma join_not_nil t ts : token t -> join (t :: ts) <> [].
Proof.
  intros [Hne _]. destruct ts as [|t' ts]; [exact Hne|].
  rewrite join_cons2. intros [H _]%app_eq_nil. contradiction.
Qed.

Lemma ends_with_space_app (a b : pystr) :
  b <> [] -> ends_with_space (a ++ b) = ends_with_space b.
Proof.
  intros Hb. induction a as [|c a IH]; [reflexivity|].
  rewrite app_cons. simpl. rewrite IH.
  destruct (a ++ b) eqn:E; [|reflexivity].
  apply app_eq_nil in E as [_ E]. contradiction.
Qed.

Lemma token_ends t : no_space t = true -> ends_with_space t = false.
Proof.
  induction t as [|c t IH]; [reflexivity|].
  simpl. intros [Hc Ht]%andb_true_iff. apply negb_true_iff in Hc.
  destruct t; [exact Hc | apply IH, Ht].
Qed.

Lemma join_ends ts : Forall token ts -> ends_with_space (join ts) = false.
Proof.
  induction 1 as [|t ts Ht Hts IH]; [reflexivity|].
  destruct ts as [|t' ts]; [apply token_ends, Ht|].
  rewrite join_cons2.
  change (t ++ space :: join (t' :: ts))
    with (t ++ ([space] ++ join (t' :: ts))).
  rewrite !ends_with_space_app; [exact IH | |].
  - apply join_not_nil. inversion Hts; assumption.
  - discriminate.
Qed.

Lemma single_spaced_word t (s : pystr) :
  no_space t = true -> single_spaced (t ++ s) = single_spaced s.
Proof.
  induction t as [|c t IH]; [reflexivity|].
  intros H. simpl in H. apply andb_true_iff in H as [Hc Ht].
  apply negb_true_iff in Hc.
  rewrite app_cons. simpl. rewrite Hc, (IH Ht). reflexivity.
Qed.

Lemma single_spaced_space (s : pystr) :
  s <> [] -> starts_with_space s = false ->
  single_spaced (space :: s) = single_spaced s.
Proof. destruct s; [contradiction|]. simpl. intros _ ->. reflexivity. Qed.

Lemma join_single_spaced ts : Forall token ts -> single_spaced (join ts) = true.
Proof.
  induction 1 as [|t ts Ht Hts IH]; [reflexivity|].
  destruct ts as [|t' ts].
  - simpl. pose proof (single_spaced_word t [] (proj2 Ht)) as H.
    rewrite app_nil_r in H. exact H.
  - rewrite join_cons2, single_spaced_word by apply Ht.
    rewrite single_spaced_space; [exact IH | | apply join_starts, Hts].
    apply join_not_nil. inversion Hts; assumption.
Qed.

(** *** Splitting and joining against collapsing and trimming *)

Lemma rstrip_word_char c (s : pystr) :
  is_space c = false -> rstrip (c :: s) = c :: rstrip s.
Proof. intros Hc. simpl. rewrite Hc. destruct (rstrip s); reflexivity. Qed.

Lemma split_go_not_nil s : forall cur, cur <> [] -> split_go cur s <> [].
Proof.
  induction s as [|c s IH]; intros cur Hcur; simpl.
  - destruct cur; [contradiction | discriminate].
  - destruct (is_space c).
    + destruct cur; [contradiction | discriminate].
    + apply IH, snoc_not_nil.
Qed.

Lemma join_cons t ts :
  join (t :: ts) = t ++ match ts with [] => [] | _ => space :: join ts end.
Proof. destruct ts; [symmetry; apply app_nil_r | reflexivity]. Qed.

Lemma collapse_runs_cons c d (s : pystr) :
  collapse_runs (c :: d :: s)
  = if is_space c
    then if is_space d then collapse_runs (d :: s)
         else space :: collapse_runs (d :: s)
    else c :: collapse_runs (d :: s).
Proof. reflexivity. Qed.

Lemma rstrip_space_cons (r : pystr) :
  rstrip (space :: r)
  = match rstrip r with
    | [] => []
    | r' => space :: r'
    end.
Proof. reflexivity. Qed.

(** What follows the word being read, and what follows a white space
    character, in the collapsed string trimmed at its right end. *)
Lemma collapse_tails s :
  (forall cur, cur <> [] ->
     join (split_go cur s) = cur ++ rstrip (collapse_runs s)) /\
  (forall c, is_space c = true ->
     rstrip (collapse_runs (c :: s))
     = match split s with [] => [] | ts => space :: join ts end).
Proof.
  induction s as [|d s [IHword IHspace]]; split.
  - intros cur Hcur. simpl. destruct cur; [contradiction|].
    simpl. rewrite app_nil_r. reflexivity.
  - intros c Hc. simpl. rewrite Hc. reflexivity.
  - intros cur Hcur. destruct (is_space d) eqn:Hd.
    + rewrite (IHspace d Hd). simpl split_go. rewrite Hd.
      destruct cur as [|x cur]; [contradiction|].
      change (flush (x :: cur) ++ split_go [] s) with ((x :: cur) :: split s).
      rewrite join_cons. destruct (split s); reflexivity.
    + simpl split_go. rewrite Hd. rewrite IHword by apply snoc_not_nil.
      simpl collapse_runs. rewrite Hd, rstrip_word_char by exact Hd.
      apply app_snoc.
  - intros c Hc. destruct (is_space d) eqn:Hd.
    + rewrite collapse_runs_cons, Hc, Hd, (IHspace d Hd).
      unfold split. simpl split_go. rewrite Hd. reflexivity.
    + rewrite collapse_runs_cons, Hc, Hd. simpl collapse_runs. rewrite Hd.
      assert (Hr : rstrip (d :: collapse_runs s) = d :: rstrip (collapse_runs s))
        by (apply rstrip_word_char, Hd).
      rewrite rstrip_space_cons, Hr. unfold split. simpl split_go.
      rewrite Hd.
      pose proof (split_go_not_nil s [d] ltac:(discriminate)) as Hne.
      pose proof (IHword [d] ltac:(discriminate)) as Hw.
      destruct (split_go [d] s) as [|t ts]; [contradiction|].
      rewrite Hw. reflexivity.
Qed.

Lemma lstrip_fixed (s : pystr) : starts_with_space s = false -> lstrip s = s.
Proof. destruct s; simpl; [reflexivity|]. intros ->. reflexivity. Qed.

Lemma join_split_collapse s : join (split s) = strip (collapse_runs s).
Proof.
  unfold strip. destruct s as [|c s]; [reflexivity|].
  destruct (is_space c) eqn:Hc.
  - rewrite (proj2 (collapse_tails s) c Hc).
    unfold split at 1. simpl split_go. rewrite Hc.
    fold (split s).
    pose proof (split_tokens s) as Htok.
    destruct (split s) as [|t ts] eqn:E; [reflexivity|].
    change (lstrip (space :: join (t :: ts))) with (lstrip (join (t :: ts))).
    symmetry. apply lstrip_fixed, join_starts, Htok.
  - unfold split. simpl split_go. rewrite Hc.
    rewrite (proj1 (collapse_tails s)) by discriminate.
    simpl collapse_runs. rewrite Hc, rstrip_word_char by exact Hc.
    simpl. rewrite Hc. reflexivity.
Qed.

(** Collapsing and trimming go through lower-casing. *)
Lemma lower_strip_collapse s :
  lower (strip (collapse_runs s)) = strip (collapse_runs (lower s)).
Proof.
  rewrite <- !join_split_collapse, split_lower. apply lower_join.
Qed.

End PyStrFacts.

(* ===================================================================== *)
(** ** The name normalizer *)
(* ===================================================================== *)

Module NormalizerFacts.
Import PyStr Matcher PyStrFacts.

Lemma normalize_name_tokens a :
  exists ts, normalize_name a = join ts /\ Forall token ts /\
             Forall (fun t => all_lower t = true) ts /\ ts = split (lower a).
Proof.
  exists (split (lower a)). repeat split.
  - apply split_tokens.
  - apply split_go_all_lower; [reflexivity | apply all_lower_lower].
Qed.

Lemma normalize_name_as_spec a : normalize_name a = Normalize_spec a.
Proof.
  unfold normalize_name, Normalize_spec.
  rewrite split_lower, <- lower_join, join_split_collapse. reflexivity.
Qed.

Lemma normalize_name_idem a : normalize_name (normalize_name a) = normalize_name a.
Proof.
  destruct (normalize_name_tokens a) as (ts & -> & Htok & Hlow & _).
  unfold normalize_name.
  rewrite (lower_fixed (join ts)) by (apply all_lower_join, Hlow).
  rewrite split_join by exact Htok. reflexivity.
Qed.

(** The normal form of a normalized name. *)
Lemma normalize_name_shape a :
  all_lower (normalize_name a) = true /\
  starts_with_space (normalize_name a) = false /\
  ends_with_space (normalize_name a) = false /\
  single_spaced (normalize_name a) = true /\
  split (normalize_name a) = split (lower a).
Proof.
  destruct (normalize_name_tokens a) as (ts & E & Htok & Hlow & Hts).
  rewrite E. repeat split.
  - apply all_lower_join, Hlow.
  - apply join_starts, Htok.
  - apply join_ends, Htok.
  - apply join_single_spaced, Htok.
  - rewrite split_join by exact Htok. exact Hts.
Qed.

(** C8. The name normalizer [' '.join(name.lower().split())], on every
    Python string, whatever its characters: it is a total function that
    does what the specification words say (it equals the composition:
    collapse the runs of white space to one space, trim both ends,
    lower-case, where white space is what [str.isspace] accepts and lower
    case is that of [str.lower]); it maps the empty string to the empty
    string; it is idempotent. Every character of its result is its own
    lower case, there is no white space at either end and none but single
    spaces between words, and its words are the lower-cased words of the
    input. *)
Theorem normalize_name_normal_form (a : pystr) :
  normalize_name a = Normalize_spec a /\
  normalize_name [] = [] /\
  normalize_name (normalize_name a) = normalize_name a /\
  all_lower (normalize_name a) = true /\
  starts_with_space (normalize_name a) = false /\
  ends_with_space (normalize_name a) = false /\
  single_spaced (normalize_name a) = true /\
  split (normalize_name a) = split (lower a) /\
  split (normalize_name a) = lower <$> split a.
Proof.
  split; [apply normalize_name_as_spec|].
  split; [reflexivity|].
  split; [apply normalize_name_idem|].
  destruct (normalize_name_shape a) as (H1 & H2 & H3 & H4 & H5).
  repeat split; try assumption.
  rewrite H5. apply split_lower.
Qed.

Example normalize_shiva :
  normalize_name (text "D  SHIVA  KUMAR") = text "d shiva kumar".
Proof. vm_compute. reflexivity. Qed.

(** Accented capitals, a no-break space (bytes 194 160) and an ideographic
    space (bytes 227 128 128) between the words. *)
Example normalize_accented :
  normalize_name
    (text ("  JOSÉ" +:+ String "194" (String "160" "MARÍA") +:+
           String "227" (String "128" (String "128" "GARCÍA "))))
  = text "josé maría garcía".
Proof. vm_compute. reflexivity. Qed.

End NormalizerFacts.

(* ===================================================================== *)
(** ** The match classifier *)
(* ===================================================================== *)

Module MatcherFacts.
Import PyStr Matcher PyStrFacts NormalizerFacts.

(** A loop that returns at its first hit returns the first contact that
    passes the test. *)
Lemma first_hit_first test (existing : list ExistingContact) e :
  e ∈ existing -> test e = true ->
  exists before m after,
    existing = before ++ m :: after /\ test m = true /\
    Forall (fun c => test c = false) before /\
    first_hit test existing = Some m.
Proof.
  unfold first_hit. induction existing as [|c l IH]; intros Hin He.
  - inversion Hin.
  - destruct (test c) eqn:Hc.
    + exists [], c, l. simpl. rewrite Hc. auto.
    + apply elem_of_cons in Hin as [-> | Hin]; [congruence|].
      destruct (IH Hin He) as (before & m & after & -> & Hm & Hb & Hf).
      exists (c :: before), m, after. simpl. rewrite Hc. auto.
Qed.

Lemma first_hit_none test (existing : list ExistingContact) :
  Forall (fun c => test c = false) existing -> first_hit test existing = None.
Proof.
  unfold first_hit. induction 1 as [|c l Hc Hl IH]; simpl; [reflexivity|].
  rewrite Hc. exact IH.
Qed.

Lemma rstrip_fixed (s : pystr) : ends_with_space s = false -> rstrip s = s.
Proof.
  induction s as [|c s IH]; [reflexivity|].
  simpl. destruct s as [|d s].
  - intros ->. reflexivity.
  - intros H. rewrite (IH H). reflexivity.
Qed.

(** For a contact whose first and last name are one word each, the
    lower-cased and trimmed full name is the normalized full name. *)
Lemma contact_full_words (c : ExistingContact) :
  token (text (first_name c)) -> token (text (last_name c)) ->
  contact_full c
  = normalize_name (text (first_name c) ++ space :: text (last_name c)).
Proof.
  intros Hf Hl. unfold contact_full, normalize_name.
  rewrite (lower_app_space _ space _ space_is_space).
  pose proof (lower_token _ Hf) as Hf'. pose proof (lower_token _ Hl) as Hl'.
  change (lower (text (first_name c)) ++ space :: lower (text (last_name c)))
    with (join [lower (text (first_name c)); lower (text (last_name c))]).
  assert (Hts : Forall token [lower (text (first_name c));
                              lower (text (last_name c))])
    by (constructor; [exact Hf' | constructor; [exact Hl' | constructor]]).
  rewrite split_join by exact Hts.
  unfold strip. rewrite rstrip_fixed by (apply join_ends, Hts).
  apply lstrip_fixed, join_starts, Hts.
Qed.

(** *** The classifier on dicts *)

Lemma first_hit_dicts (test : ExistingContact -> bool)
    (test' : Dicts.ContactDict -> Dicts.PyError + bool)
    (existing : list ExistingContact) :
  (forall c, test' (Dicts.dict_of c) = inr (test c)) ->
  Dicts.first_hit test' (Dicts.dict_of <$> existing)
  = inr (Dicts.dict_of <$> first_hit test existing).
Proof.
  intros Htest. unfold first_hit.
  induction existing as [|c l IH]; [reflexivity|].
  simpl. rewrite Htest. destruct (test c); [reflexivity | exact IH].
Qed.

Lemma first_hit_full_name vcf_name (existing : list ExistingContact) :
  Dicts.first_hit (Dicts.full_name_test vcf_name) (Dicts.dict_of <$> existing)
  = inr (Dicts.dict_of
           <$> first_hit (fun contact => eqb vcf_name (contact_full contact))
                 existing).
Proof. apply first_hit_dicts. reflexivity. Qed.

Lemma first_hit_components test (existing : list ExistingContact) :
  Dicts.first_hit (Dicts.components_test test) (Dicts.dict_of <$> existing)
  = inr (Dicts.dict_of
           <$> first_hit (fun contact => test (c_first contact) (c_last contact))
                 existing).
Proof. apply first_hit_dicts. reflexivity. Qed.

(** On dicts whose names are strings the classifier raises nothing and
    returns what it returns on the contacts. *)
Lemma dicts_agree (i : IncomingContact) (existing : list ExistingContact) :
  Dicts.match_vcf_to_contact (Dicts.py_str (full_name i))
    (Dicts.dict_of <$> existing)
  = inr (Dicts.result_of (match_vcf_to_contact i existing)).
Proof.
  unfold Dicts.match_vcf_to_contact, match_vcf_to_contact.
  cbn [Dicts.lowered]. cbv beta iota.
  fold (normalize_name (text (full_name i))).
  set (vcf_name := normalize_name (text (full_name i))).
  rewrite first_hit_full_name, !first_hit_components.
  unfold strategy1, strategy2, strategy3.
  repeat match goal with
         | |- context [first_hit ?f existing] => destruct (first_hit f existing)
         end;
    destruct (2 <=? length (split vcf_name));
    destruct (length (split vcf_name) =? 1); reflexivity.
Qed.

(** With a name of at least one word that no formatted full name equals,
    the first contact whose first or last name is [None] ends the
    classification with AttributeError. *)
Lemma none_name_raises (n : string) (c : Dicts.ContactDict)
    (rest : list Dicts.ContactDict) :
  split (lower (text n)) <> [] ->
  Dicts.first_hit
    (Dicts.full_name_test (normalize_name (text n))) (c :: rest) = inr None ->
  Dicts.dict_first_name c = Dicts.py_none \/
  (exists f, Dicts.dict_first_name c = Dicts.py_str f) /\
  Dicts.dict_last_name c = Dicts.py_none ->
  Dicts.match_vcf_to_contact (Dicts.py_str n) (c :: rest)
  = inl Dicts.AttributeError.
Proof.
  intros Hwords Hmiss Hnone. unfold Dicts.match_vcf_to_contact.
  cbn [Dicts.lowered]. cbv beta iota.
  fold (normalize_name (text n)). rewrite Hmiss.
  unfold Dicts.returning at 1.
  assert (Hparts : split (normalize_name (text n)) = split (lower (text n)))
    by apply normalize_name_shape.
  rewrite Hparts.
  assert (Hraise : forall test,
            Dicts.first_hit (Dicts.components_test test) (c :: rest)
            = inl Dicts.AttributeError).
  { intros test. simpl. unfold Dicts.components_test.
    destruct Hnone as [-> | [[f ->] ->]]; reflexivity. }
  destruct (split (lower (text n))) as [|w [|w' ws]] eqn:E; [contradiction| |].
  - rewrite !Hraise. reflexivity.
  - rewrite !Hraise. reflexivity.
Qed.

(** C4, as amended. On contacts whose names are strings the classifier is
    total: run on their dicts it raises nothing and returns the result
    stated here. When the normalized full name of the uploaded contact
    equals the lower-cased, trimmed "first last" of some existing contact,
    the classification is exact and the matched contact is the first
    contact of the enumeration with that full name. That full name is the
    normalized "first last" when first and last name are one word each. An
    uploaded contact with the empty name is classified none when no
    existing contact has a blank full name. A [full_name] that is [None]
    makes the classifier raise AttributeError, and so does a contact with a
    [None] name that the second or third strategy reaches. *)
Theorem exact_match_is_first_full_name :
  (forall (i : IncomingContact) (existing : list ExistingContact),
     Dicts.match_vcf_to_contact (Dicts.py_str (full_name i))
       (Dicts.dict_of <$> existing)
     = inr (Dicts.result_of (match_vcf_to_contact i existing))) /\
  (forall (i : IncomingContact) (existing : list ExistingContact) e,
     e ∈ existing ->
     normalize_name (text (full_name i)) = contact_full e ->
     exists before m after,
       existing = before ++ m :: after /\
       contact_full m = normalize_name (text (full_name i)) /\
       Forall (fun c => contact_full c <> normalize_name (text (full_name i)))
         before /\
       match_vcf_to_contact i existing = found exact m) /\
  (forall c : ExistingContact,
     token (text (first_name c)) -> token (text (last_name c)) ->
     contact_full c
     = normalize_name (text (first_name c) ++ space :: text (last_name c))) /\
  (forall (i : IncomingContact) (existing : list ExistingContact),
     full_name i = "" ->
     Forall (fun c => contact_full c <> []) existing ->
     match_vcf_to_contact i existing = not_found) /\
  (forall existing : list Dicts.ContactDict,
     Dicts.match_vcf_to_contact Dicts.py_none existing
     = inl Dicts.AttributeError) /\
  (forall (n : string) (c : Dicts.ContactDict) (rest : list Dicts.ContactDict),
     split (lower (text n)) <> [] ->
     Dicts.first_hit
       (Dicts.full_name_test (normalize_name (text n))) (c :: rest) = inr None ->
     Dicts.dict_first_name c = Dicts.py_none \/
     (exists f, Dicts.dict_first_name c = Dicts.py_str f) /\
     Dicts.dict_last_name c = Dicts.py_none ->
     Dicts.match_vcf_to_contact (Dicts.py_str n) (c :: rest)
     = inl Dicts.AttributeError).
Proof.
  split; [exact dicts_agree|]. split; [|split; [|split; [|split]]].
  - intros i existing e Hin Heq.
    destruct (first_hit_first
                (fun c => eqb (normalize_name (text (full_name i))) (contact_full c))
                existing e Hin) as (before & m & after & -> & Hm & Hb & Hf).
    { apply eqb_eq, Heq. }
    exists before, m, after. repeat split.
    + symmetry. apply eqb_eq, Hm.
    + eapply Forall_impl; [exact Hb|]. intros c Hc Habs.
      apply eqb_neq in Hc. congruence.
    + unfold match_vcf_to_contact, strategy1. rewrite Hf. reflexivity.
  - apply contact_full_words.
  - intros i existing Hi Hall. unfold match_vcf_to_contact, strategy1.
    rewrite Hi. change (normalize_name (text "")) with (@nil N).
    rewrite first_hit_none; [reflexivity|].
    eapply Forall_impl; [exact Hall|]. intros c Hc.
    apply eqb_neq. congruence.
  - reflexivity.
  - exact none_name_raises.
Qed.

Lemma exact_match_is_first_full_name_witness :
  exists before m after,
    [person 1 "Jane" "Roe"; person 2 "José" "García"; person 3 "josé" "GARCÍA"]
    = before ++ m :: after /\
    contact_full m = normalize_name (text (full_name (named "  JOSÉ   garcía "))) /\
    Forall (fun c => contact_full c
                     <> normalize_name (text (full_name (named "  JOSÉ   garcía "))))
      before /\
    match_vcf_to_contact (named "  JOSÉ   garcía ")
      [person 1 "Jane" "Roe"; person 2 "José" "García"; person 3 "josé" "GARCÍA"]
    = found exact m.
Proof.
  apply (proj1 (proj2 exact_match_is_first_full_name) (named "  JOSÉ   garcía ")
           [person 1 "Jane" "Roe"; person 2 "José" "García"; person 3 "josé" "GARCÍA"]
           (person 3 "josé" "GARCÍA")).
  - do 3 constructor.
  - vm_compute. reflexivity.
Defined.

(** Inputs on which the classifier does not follow equality of the
    normalized names, or is not total: a second contact of the same name is
    not the match; a stored first name that ends in a space makes the match
    partial; the empty name against a contact with blank names is an exact
    match; a [full_name] that is [None] raises AttributeError, and so does
    a stored first name that is [None] when the second strategy reads it,
    while the first strategy reads it as the text None. *)
Lemma classifier_against_normalized_equality :
  (person 2 "John" "Doe" ∈ [person 1 "John" "Doe"; person 2 "John" "Doe"] /\
   normalize_name (text (full_name (named "John Doe")))
   = normalize_name (text (first_name (person 2 "John" "Doe")) ++
                     space :: text (last_name (person 2 "John" "Doe"))) /\
   matched_id (match_vcf_to_contact (named "John Doe")
                 [person 1 "John" "Doe"; person 2 "John" "Doe"]) = Some 1 /\
   id (person 2 "John" "Doe") = 2) /\
  (normalize_name (text (full_name (named "John Doe")))
   = normalize_name (text (first_name (person 1 "John " "Doe")) ++
                     space :: text (last_name (person 1 "John " "Doe"))) /\
   match_type (match_vcf_to_contact (named "John Doe") [person 1 "John " "Doe"])
   = partial) /\
  (normalize_name (text (full_name (named "")))
   = normalize_name (text (first_name (person 1 "" "")) ++
                     space :: text (last_name (person 1 "" ""))) /\
   match_vcf_to_contact (named "") [person 1 "" ""]
   = found exact (person 1 "" "")) /\
  (Dicts.match_vcf_to_contact Dicts.py_none
     [Dicts.dict_of (person 1 "John" "Doe")] = inl Dicts.AttributeError /\
   Dicts.match_vcf_to_contact (Dicts.py_str "John Doe")
     [ {| Dicts.dict_id := 1; Dicts.dict_first_name := Dicts.py_none;
          Dicts.dict_last_name := Dicts.py_str "Doe" |} ]
   = inl Dicts.AttributeError /\
   Dicts.match_vcf_to_contact (Dicts.py_str "None Doe")
     [ {| Dicts.dict_id := 1; Dicts.dict_first_name := Dicts.py_none;
          Dicts.dict_last_name := Dicts.py_str "Doe" |} ]
   = inr {| Dicts.match_type := exact;
            Dicts.contact :=
              Some {| Dicts.dict_id := 1;
                      Dicts.dict_first_name := Dicts.py_none;
                      Dicts.dict_last_name := Dicts.py_str "Doe" |} |}).
Proof.
  split; [|split; [|split]].
  - split; [do 2 constructor|]. repeat split; vm_compute; reflexivity.
  - split; vm_compute; reflexivity.
  - split; vm_compute; reflexivity.
  - repeat split; vm_compute; reflexivity.
Qed.

Example match_john_doe :
  match_vcf_to_contact (named "John Doe") [person 1 "John" "Doe"]
  = found exact (person 1 "John" "Doe").
Proof. vm_compute. reflexivity. Qed.

Example match_middle_name :
  match_type (match_vcf_to_contact (named "John Middle Doe") [person 1 "John" "Doe"])
  = exact.
Proof. vm_compute. reflexivity. Qed.

Example match_mike_smith :
  match_vcf_to_contact (named "Mike Smith") [person 2 "John" "Smith"]
  = found partial (person 2 "John" "Smith").
Proof. vm_compute. reflexivity. Qed.

Example match_single_word :
  match_type (match_vcf_to_contact (named "John") [person 1 "John" "Doe"]) = partial.
Proof. vm_compute. reflexivity. Qed.

Example match_alice :
  match_vcf_to_contact (named "Alice") [person 1 "John" "Doe"] = not_found.
Proof. vm_compute. reflexivity. Qed.

(** Capitals with accents match their lower case, and a no-break space
    (bytes 194 160) separates the words of a name. *)
Example match_accented :
  match_vcf_to_contact (named "JOSÉ GARCÍA") [person 1 "José" "García"]
  = found exact (person 1 "José" "García") /\
  match_type
    (match_vcf_to_contact (named ("Ana" +:+ String "194" (String "160" "Pérez")))
       [person 1 "Ana" "Pérez"]) = exact.
Proof. split; vm_compute; reflexivity. Qed.

End MatcherFacts.

(* ===================================================================== *)
(** ** The match report *)
(* ===================================================================== *)

Module ReportFacts.
Import PyStr Matcher.

Lemma first_hit_elem test (existing : list ExistingContact) c :
  first_hit test existing = Some c -> c ∈ existing /\ test c = true.
Proof.
  unfold first_hit. intros [Hin Ht]%List.find_some.
  split; [apply list_elem_of_In, Hin | exact Ht].
Qed.

(** The classifier names a contact exactly when the classification is not
    none, and the contact is one of the existing ones. *)
Ltac case_hit H :=
  match goal with
  | |- context [first_hit ?f ?l] => destruct (first_hit f l) as [?c|] eqn:H
  end.

Ltac hit_found mt H :=
  right; eexists mt, _; apply first_hit_elem in H as [? _];
  split; [reflexivity | split; [discriminate | assumption]].

Lemma match_result_cases (i : IncomingContact) (existing : list ExistingContact) :
  (match_vcf_to_contact i existing = not_found) \/
  (exists mt c, match_vcf_to_contact i existing = found mt c /\
                mt <> none /\ c ∈ existing).
Proof.
  unfold match_vcf_to_contact, strategy1.
  case_hit H1; [hit_found exact H1|]. simpl.
  unfold strategy2.
  destruct (2 <=? length (split (normalize_name (text (full_name i))))).
  - case_hit H2; [hit_found exact H2|].
    case_hit H3; [hit_found partial H3|]. simpl.
    unfold strategy3.
    destruct (length (split (normalize_name (text (full_name i)))) =? 1).
    + case_hit H4; [hit_found partial H4 | left; reflexivity].
    + left. reflexivity.
  - unfold strategy3.
    destruct (length (split (normalize_name (text (full_name i)))) =? 1).
    + case_hit H4; [hit_found partial H4 | left; reflexivity].
    + left. reflexivity.
Qed.

(** C7. Every record of a built report has the shape a review screen
    depends on. Its index is its 0-based position in the batch, and it is
    stable: whatever the store holds and wherever the files are staged, the
    record at that position carries the same index, name, email and phone.
    Its match type is the classification of the uploaded contact at that
    position, a value of the type with the three variants exact, partial
    and none. Its matched contact id is null exactly when the match type is
    none and is otherwise the id of an existing contact. Its name is the
    normalized name of the uploaded contact, that is, its full name with the
    runs of white space collapsed, both ends trimmed and every character
    lower-cased, a fixed point of the normalizer; its email and phone are
    those of the uploaded contact. *)
Theorem report_record_shape (batch : list IncomingContact)
    (existing : list ExistingContact) (dir : string) (k : nat)
    (r : Report.MatchRecord) :
  Report.all_contacts (Report.build_report batch existing dir) !! k = Some r ->
  Report.index r = k /\
  (Report.matched_contact_id r = None <-> Report.match_type r = none) /\
  (forall n, Report.matched_contact_id r = Some n ->
             Report.match_type r <> none /\
             exists e, e ∈ existing /\ id e = n) /\
  (exists i, batch !! k = Some i /\
             Report.incoming r = i /\
             Report.vcf_name r
             = lower (strip (collapse_runs (text (full_name i)))) /\
             normalize_name (Report.vcf_name r) = Report.vcf_name r /\
             all_lower (Report.vcf_name r) = true /\
             single_spaced (Report.vcf_name r) = true /\
             Report.vcf_email r = inc_email i /\
             Report.vcf_phone r = inc_phone i /\
             Report.match_type r = match_type (match_vcf_to_contact i existing) /\
             Report.matched_contact_id r
             = matched_id (match_vcf_to_contact i existing)) /\
  (forall existing' dir',
     exists r',
       Report.all_contacts (Report.build_report batch existing' dir') !! k
       = Some r' /\
       Report.index r' = Report.index r /\
       Report.vcf_name r' = Report.vcf_name r /\
       Report.vcf_email r' = Report.vcf_email r /\
       Report.vcf_phone r' = Report.vcf_phone r).
Proof.
  intros Hr. unfold Report.build_report in Hr. cbn [Report.all_contacts] in Hr.
  rewrite list_lookup_imap in Hr.
  destruct (batch !! k) as [i|] eqn:Hi; simpl in Hr; [|discriminate].
  injection Hr as <-.
  change (Report.vcf_name (Report.build_record existing k i))
    with (normalize_name (text (full_name i))).
  change (Report.match_type (Report.build_record existing k i))
    with (match_type (match_vcf_to_contact i existing)).
  change (Report.matched_contact_id (Report.build_record existing k i))
    with (matched_id (match_vcf_to_contact i existing)).
  split; [reflexivity|].
  split; [|split; [|split]].
  - destruct (match_result_cases i existing) as [E | (mt & c & E & Hmt & Hin)];
      rewrite E; simpl; [tauto | split; [discriminate | contradiction]].
  - destruct (match_result_cases i existing) as [E | (mt & c & E & Hmt & Hin)];
      rewrite E; simpl; [discriminate|].
    intros n [= <-]. eauto.
  - exists i.
    destruct (NormalizerFacts.normalize_name_shape (text (full_name i)))
      as (Hlow & _ & _ & Hsingle & _).
    split; [reflexivity|]. split; [reflexivity|].
    split; [apply NormalizerFacts.normalize_name_as_spec|].
    split; [apply NormalizerFacts.normalize_name_idem|].
    split; [exact Hlow|]. split; [exact Hsingle|].
    repeat split.
  - intros existing' dir'. exists (Report.build_record existing' k i).
    split; [|repeat split].
    unfold Report.build_report. cbn [Report.all_contacts].
    rewrite list_lookup_imap, Hi. reflexivity.
Qed.

Lemma report_record_shape_witness :
  Report.index
    (Report.build_record [person 1 "John" "Doe"; person 2 "John" "Smith"] 1
       (named " Mike   SMITH ")) = 1 /\
  (Report.matched_contact_id
     (Report.build_record [person 1 "John" "Doe"; person 2 "John" "Smith"] 1
        (named " Mike   SMITH ")) = None <->
   Report.match_type
     (Report.build_record [person 1 "John" "Doe"; person 2 "John" "Smith"] 1
        (named " Mike   SMITH ")) = none) /\
  Report.vcf_name
    (Report.build_record [person 1 "John" "Doe"; person 2 "John" "Smith"] 1
       (named " Mike   SMITH ")) = text "mike smith".
Proof.
  destruct (report_record_shape
              [named "John Doe"; named " Mike   SMITH "; named "Alice Wonderland"]
              [person 1 "John" "Doe"; person 2 "John" "Smith"] "staged" 1
              (Report.build_record
                 [person 1 "John" "Doe"; person 2 "John" "Smith"] 1
                 (named " Mike   SMITH ")) eq_refl)
    as (Hindex & Hnull & _ & (i & Hi & _ & Hname & _) & _).
  split; [exact Hindex|]. split; [exact Hnull|].
  rewrite Hname. injection Hi as <-. vm_compute. reflexivity.
Defined.

(** The counts of the specification's end-to-end scenario. *)
Example report_counts :
  let r := Report.build_report
             [named "John Doe"; named "Mike Smith"; named "Alice Wonderland"]
             [person 1 "John" "Doe"; person 2 "John" "Smith"] "staged" in
  (Report.total_vcf_contacts r, Report.exact_matches r,
   Report.partial_matches r, Report.no_matches r) = (3, 1, 1, 1).
Proof. vm_compute. reflexivity. Qed.

(** The name of a record is the normalized name, not the name as
    uploaded. *)
Example report_name_normalized :
  Report.vcf_name
    (Report.build_record [person 1 "John" "Doe"] 0 (named "  JOHN   Doe "))
  = text "john doe".
Proof. vm_compute. reflexivity. Qed.

End ReportFacts.

(* ===================================================================== *)
(** ** The committer *)
(* ===================================================================== *)

Module CommitterFacts.
Import Matcher Committer.

Section StoreLayer.

Variable violates : gmap nat ExistingContact -> ExistingContact -> option string.
Variable overwrite : bool.
Variable attachments : list string.

Local Abbreviation apply_item := (apply_item violates overwrite attachments).
Local Abbreviation apply_items := (apply_items violates overwrite attachments).
Local Abbreviation Commit := (Commit violates overwrite attachments).

(** A refused write leaves both stores as they were. *)
Lemma failed_item_keeps_stores s r a reason :
  (apply_item s r a).2 = Failed reason -> (apply_item s r a).1 = s.
Proof.
  unfold Committer.apply_item. destruct a.
  - destruct (Report.matched_contact_id r) as [k|]; [|reflexivity].
    destruct (contacts s !! k) as [e|]; [|reflexivity].
    destruct (violates _ _); [reflexivity | discriminate].
  - destruct (violates _ _); [reflexivity | discriminate].
  - discriminate.
Qed.

Lemma record_item_add o idx res :
  record_item o idx res = add_outcome o (record_item no_outcome idx res).
Proof.
  destruct o as [m c k f]. destruct res; unfold record_item, add_outcome; simpl;
    f_equal; try lia; rewrite ?app_nil_r; reflexivity.
Qed.

Lemma add_outcome_assoc a b c :
  add_outcome (add_outcome a b) c = add_outcome a (add_outcome b c).
Proof.
  unfold add_outcome; simpl. f_equal; try lia. symmetry. apply app_assoc.
Qed.

Lemma add_no_outcome o : add_outcome o no_outcome = o.
Proof.
  destruct o. unfold add_outcome; simpl. f_equal; try lia. apply app_nil_r.
Qed.

(** The outcome counted so far does not steer the items to come. *)
Lemma apply_items_outcome items : forall s o,
  apply_items s o items
  = ((apply_items s no_outcome items).1,
     add_outcome o (apply_items s no_outcome items).2).
Proof.
  induction items as [|[r a] rest IH]; intros s o; simpl.
  - rewrite add_no_outcome. reflexivity.
  - destruct (apply_item s r a) as [s' res].
    rewrite (IH s' (record_item o _ res)), (IH s' (record_item no_outcome _ res)).
    simpl. rewrite record_item_add, add_outcome_assoc. reflexivity.
Qed.

Lemma apply_items_app l1 l2 : forall s o,
  apply_items s o (l1 ++ l2)
  = apply_items (apply_items s o l1).1 (apply_items s o l1).2 l2.
Proof.
  induction l1 as [|[r a] l1 IH]; intros s o; simpl; [reflexivity|].
  destruct (apply_item s r a) as [s' res]. apply IH.
Qed.

Lemma processed_add o d : processed (add_outcome o d) = processed o + processed d.
Proof. unfold processed, add_outcome; simpl. rewrite length_app. lia. Qed.

Lemma processed_record_item idx res : processed (record_item no_outcome idx res) = 1.
Proof. destruct res; reflexivity. Qed.

(** Every item is accounted for, whatever failed. *)
Lemma apply_items_processed items : forall s,
  processed (apply_items s no_outcome items).2 = length items.
Proof.
  induction items as [|[r a] rest IH]; intros s; simpl; [reflexivity|].
  destruct (apply_item s r a) as [s' res].
  rewrite apply_items_outcome. simpl.
  rewrite processed_add, processed_record_item, IH. reflexivity.
Qed.

Lemma merge_name_kept ow old new : old <> "" -> merge_name ow old new <> "".
Proof.
  unfold merge_name. intros Hold.
  destruct (String.eqb_spec new ""); [exact Hold|].
  destruct ow; [assumption|].
  destruct (String.eqb_spec old ""); assumption.
Qed.

Lemma blank_false_eqb (x : string) : x <> "" -> String.eqb x "" = false.
Proof. apply String.eqb_neq. Qed.

(** C1. A merge on a matched contact writes the merged contact over the
    matched one and obeys the overwrite flag. With overwrite, every field of
    the uploaded contact that is not empty replaces the existing value.
    Without it, a field that is not empty on the existing contact keeps its
    value, and an empty one is filled from the uploaded contact. A name that
    is not empty is never replaced by the empty name. *)
Theorem merge_obeys_overwrite_flag (s : Stores) (r : Report.MatchRecord)
    (k : nat) (e : ExistingContact) :
  Report.matched_contact_id r = Some k ->
  contacts s !! k = Some e ->
  violates (delete k (contacts s))
    (merge_contact overwrite e (Report.incoming r)) = None ->
  let i := Report.incoming r in
  let m := merge_contact overwrite e i in
  apply_item s r merge
  = ({| contacts := <[k := m]> (contacts s);
        vector_index := vector_index s |}, Merged) /\
  (overwrite = true ->
     (blank (inc_email i) = false -> email m = inc_email i) /\
     (blank (inc_phone i) = false -> phone m = inc_phone i) /\
     (inc_first_name i <> "" -> first_name m = inc_first_name i) /\
     (inc_last_name i <> "" -> last_name m = inc_last_name i)) /\
  (overwrite = false ->
     (blank (email e) = false -> email m = email e) /\
     (blank (phone e) = false -> phone m = phone e) /\
     (first_name e <> "" -> first_name m = first_name e) /\
     (last_name e <> "" -> last_name m = last_name e) /\
     (blank (email e) = true -> blank (inc_email i) = false ->
      email m = inc_email i) /\
     (blank (phone e) = true -> blank (inc_phone i) = false ->
      phone m = inc_phone i) /\
     (first_name e = "" -> first_name m = inc_first_name i) /\
     (last_name e = "" -> last_name m = inc_last_name i)) /\
  (first_name e <> "" -> first_name m <> "") /\
  (last_name e <> "" -> last_name m <> "").
Proof.
  intros Hk He Hv i m. split; [|split; [|split; [|split]]].
  - unfold Committer.apply_item. rewrite Hk, He. fold i. fold m.
    unfold m, i. rewrite Hv. reflexivity.
  - intros ->. subst m. simpl. unfold merge_field, merge_name.
    repeat split.
    + intros ->. reflexivity.
    + intros ->. reflexivity.
    + intros H. rewrite (blank_false_eqb _ H). reflexivity.
    + intros H. rewrite (blank_false_eqb _ H). reflexivity.
  - intros ->. subst m. simpl. unfold merge_field, merge_name.
    repeat split.
    + intros ->. destruct (blank (inc_email i)); reflexivity.
    + intros ->. destruct (blank (inc_phone i)); reflexivity.
    + intros H. rewrite (blank_false_eqb _ H).
      destruct (String.eqb (inc_first_name i) ""); reflexivity.
    + intros H. rewrite (blank_false_eqb _ H).
      destruct (String.eqb (inc_last_name i) ""); reflexivity.
    + intros -> ->. reflexivity.
    + intros -> ->. reflexivity.
    + intros ->. destruct (String.eqb_spec (inc_first_name i) "");
        [congruence | reflexivity].
    + intros ->. destruct (String.eqb_spec (inc_last_name i) "");
        [congruence | reflexivity].
  - apply merge_name_kept.
  - apply merge_name_kept.
Qed.

Lemma Commit_resolved report actions w items :
  resolve report actions = inr items ->
  Commit report actions w
  = (inr (apply_items (stores w) no_outcome items).2,
     {| stores := (apply_items (stores w) no_outcome items).1;
        staged := staged w ∖ {[ Report.temp_dir report ]} |}).
Proof.
  intros H. unfold Committer.Commit. rewrite H.
  destruct (apply_items (stores w) no_outcome items). reflexivity.
Qed.

(** C2. When the action map holds merge at the index of a record
    classified none, Commit fails with InvalidActionError, the index it
    names is one where merge stands against none, and neither store is
    changed. *)
Theorem invalid_merge_fails_fast (report : Report.MatchReport)
    (actions : gmap nat ContactAction) (w : World) (r : Report.MatchRecord) :
  r ∈ Report.all_contacts report ->
  Report.match_type r = none ->
  actions !! Report.index r = Some merge ->
  exists r',
    (Commit report actions w).1 = inl (InvalidActionError (Report.index r')) /\
    r' ∈ Report.all_contacts report /\
    Report.match_type r' = none /\
    actions !! Report.index r' = Some merge /\
    stores (Commit report actions w).2 = stores w.
Proof.
  intros Hin Hnone Hmerge.
  assert (Hbad : invalid_at actions r = true).
  { unfold invalid_at, resolve_action. rewrite Hmerge, Hnone. reflexivity. }
  unfold Committer.Commit, resolve.
  destruct (List.find (invalid_at actions) (Report.all_contacts report))
    as [r'|] eqn:Hfind.
  - apply List.find_some in Hfind as [Hin' Hbad'].
    exists r'. simpl. split; [reflexivity|].
    split; [apply list_elem_of_In, Hin'|].
    unfold invalid_at, resolve_action in Hbad'.
    apply andb_true_iff in Hbad' as [Hm Hn].
    destruct (actions !! Report.index r') as [[]|]; try discriminate Hm.
    destruct (Report.match_type r'); try discriminate Hn.
    auto.
  - apply list_elem_of_In in Hin.
    pose proof (List.find_none _ _ Hfind _ Hin) as Habs. congruence.
Qed.

(** C3. An item that fails at the store layer does not stop the others:
    the stores end as they would with the failing item left out of the
    batch, the counts of merged, created and skipped are those of the other
    items, the failure list holds the failing item's index with its reason
    in its place, and every item of the batch is accounted for in the
    outcome. When no other item fails, the failure list is that one index
    with its reason and the counts add up to the other N-1 items. *)
Theorem one_failure_does_not_stop_the_rest (report : Report.MatchReport)
    (actions : gmap nat ContactAction) (w : World)
    (before after : list (Report.MatchRecord * ContactAction))
    (r : Report.MatchRecord) (a : ContactAction) (reason : string) :
  resolve report actions = inr (before ++ (r, a) :: after) ->
  (apply_item (apply_items (stores w) no_outcome before).1 r a).2
  = Failed reason ->
  let without := apply_items (stores w) no_outcome (before ++ after) in
  let s1 := (apply_items (stores w) no_outcome before).1 in
  exists o,
    (Commit report actions w).1 = inr o /\
    stores (Commit report actions w).2 = without.1 /\
    merged o = merged without.2 /\
    created o = created without.2 /\
    skipped o = skipped without.2 /\
    failures o
    = failures (apply_items (stores w) no_outcome before).2
      ++ (Report.index r, reason)
      :: failures (apply_items s1 no_outcome after).2 /\
    failures without.2
    = failures (apply_items (stores w) no_outcome before).2
      ++ failures (apply_items s1 no_outcome after).2 /\
    processed o = length before + 1 + length after /\
    (failures without.2 = [] ->
     failures o = [(Report.index r, reason)] /\
     merged o + created o + skipped o = length before + length after).
Proof.
  intros Hres Hfail without s1.
  rewrite (Commit_resolved _ _ _ _ Hres). simpl.
  eexists. split; [reflexivity|].
  pose proof (failed_item_keeps_stores _ _ _ _ Hfail) as Hsame.
  assert (Hwhole :
    apply_items (stores w) no_outcome (before ++ (r, a) :: after)
    = ((apply_items s1 no_outcome after).1,
       add_outcome (apply_items (stores w) no_outcome before).2
         (add_outcome (record_item no_outcome (Report.index r) (Failed reason))
            (apply_items s1 no_outcome after).2))).
  { rewrite apply_items_app. simpl. fold s1. fold s1 in Hfail, Hsame.
    destruct (apply_item s1 r a) as [s' res] eqn:E. simpl in Hfail, Hsame.
    rewrite Hsame, Hfail, apply_items_outcome.
    rewrite record_item_add, add_outcome_assoc. reflexivity. }
  assert (Hwithout :
    without = ((apply_items s1 no_outcome after).1,
               add_outcome (apply_items (stores w) no_outcome before).2
                 (apply_items s1 no_outcome after).2)).
  { unfold without. rewrite apply_items_app. fold s1.
    rewrite apply_items_outcome. reflexivity. }
  rewrite Hwhole, Hwithout. simpl.
  assert (Hall :
    processed
      (add_outcome (apply_items (stores w) no_outcome before).2
         (add_outcome (record_item no_outcome (Report.index r) (Failed reason))
            (apply_items s1 no_outcome after).2))
    = length before + 1 + length after).
  { rewrite !processed_add, !apply_items_processed, processed_record_item. lia. }
  split; [reflexivity|]. split; [reflexivity|]. split; [reflexivity|].
  split; [reflexivity|]. split; [reflexivity|]. split; [reflexivity|].
  split; [exact Hall|].
  intros Hnone. apply app_eq_nil in Hnone as [Hb Ha].
  rewrite Hb, Ha. split; [reflexivity|].
  unfold processed in Hall. simpl in Hall. rewrite Hb, Ha in Hall.
  simpl in Hall. lia.
Qed.

End StoreLayer.

End CommitterFacts.

Module ScenarioFacts.
Import Matcher Committer Scenario CommitterFacts.

Lemma merge_obeys_overwrite_flag_witness :
  email (merge_contact false existing_john incoming_john) = Some "existing@y.com".
Proof.
  destruct (merge_obeys_overwrite_flag accepts_all false [] john_store
              john_record 1 existing_john eq_refl eq_refl eq_refl)
    as (_ & _ & Hfill & _).
  destruct (Hfill eq_refl) as (Hemail & _).
  exact (Hemail eq_refl).
Defined.

Example merge_without_overwrite :
  (apply_item accepts_all false [] john_store john_record merge).1.(contacts) !! 1
  = Some (merge_contact false existing_john incoming_john) /\
  email (merge_contact false existing_john incoming_john) = Some "existing@y.com".
Proof. split; vm_compute; reflexivity. Qed.

Example merge_with_overwrite :
  email (merge_contact true existing_john incoming_john) = Some "a@x.com".
Proof. reflexivity. Qed.

Lemma invalid_merge_fails_fast_witness :
  exists r',
    (Commit accepts_all false [] three_report {[ 2 := merge ]} two_world).1
    = inl (InvalidActionError (Report.index r')) /\
    r' ∈ Report.all_contacts three_report /\
    Report.match_type r' = none /\
    ({[ 2 := merge ]} : gmap nat ContactAction) !! Report.index r' = Some merge /\
    stores (Commit accepts_all false [] three_report {[ 2 := merge ]} two_world).2
    = stores two_world.
Proof.
  apply (invalid_merge_fails_fast accepts_all false [] three_report
           {[ 2 := merge ]} two_world
           (Report.build_record two_existing 2
              (incoming_person "Alice" "Wonderland" None))).
  - do 3 constructor.
  - reflexivity.
  - reflexivity.
Defined.

Example invalid_merge_names_index :
  (Commit accepts_all false [] three_report {[ 2 := merge ]} two_world).1
  = inl (InvalidActionError 2).
Proof. vm_compute. reflexivity. Qed.

Lemma one_failure_does_not_stop_the_rest_witness :
  exists o,
    (Commit needs_a_name false [] nameless_report create_all empty_world).1
    = inr o /\
    created o = 2 /\
    failures o = [(1, "NOT NULL constraint failed: persons.name")].
Proof.
  destruct (one_failure_does_not_stop_the_rest needs_a_name false []
              nameless_report create_all empty_world
              [(Report.build_record [] 0 (incoming_person "Ann" "Lee" None), create)]
              [(Report.build_record [] 2 (incoming_person "Bob" "Ray" None), create)]
              (Report.build_record [] 1 (named "")) create
              "NOT NULL constraint failed: persons.name" eq_refl eq_refl)
    as (o & Ho & _ & _ & Hcreated & _ & Hfailures & _).
  exists o. split; [exact Ho|].
  split; [rewrite Hcreated | rewrite Hfailures]; reflexivity.
Defined.

(** Section 8, end to end: the proposed defaults and what committing them
    yields. *)
Example end_to_end :
  default_actions three_report = {[ 0 := merge; 1 := skip; 2 := skip ]} /\
  (Commit accepts_all false [] three_report (default_actions three_report)
     two_world).1
  = inr {| merged := 1; created := 0; skipped := 2; failures := [] |}.
Proof. split; vm_compute; reflexivity. Qed.

(** Committing the same creates twice inserts the contacts twice. *)
Example commit_is_not_idempotent :
  let once := (Commit accepts_all false [] nameless_report create_all empty_world).2 in
  let twice := (Commit accepts_all false [] nameless_report create_all once).2 in
  size (contacts (stores once)) = 3 /\ size (contacts (stores twice)) = 6.
Proof. vm_compute. split; reflexivity. Qed.

End ScenarioFacts.

(* ===================================================================== *)
(** ** Action maps built by a loop of insertions *)
(* ===================================================================== *)

Module ActionMapFacts.

Section Loop.

Context {A V : Type}.
Variable key : A -> string.
Variable val : A -> V.

Local Abbreviation loop := (foldl (fun acc c => <[key c := val c]> acc)).

Lemma loop_lookup_other (l : list A) : forall (acc : gmap string V) k,
  k ∉ key <$> l -> loop acc l !! k = acc !! k.
Proof.
  induction l as [|c l IH]; intros acc k Hk; simpl; [reflexivity|].
  rewrite fmap_cons in Hk. apply not_elem_of_cons in Hk as [Hne Hk].
  rewrite (IH _ _ Hk). apply lookup_insert_ne. congruence.
Qed.

(** With keys that differ, each element's entry is its own. *)
Lemma loop_lookup_elem (l : list A) : forall (acc : gmap string V) c,
  NoDup (key <$> l) -> c ∈ l -> loop acc l !! key c = Some (val c).
Proof.
  induction l as [|d l IH]; intros acc c Hnd Hin; [inversion Hin|].
  rewrite fmap_cons in Hnd. apply NoDup_cons in Hnd as [Hd Hnd].
  apply elem_of_cons in Hin as [-> | Hin]; simpl.
  - rewrite (loop_lookup_other _ _ _ Hd). apply lookup_insert_eq.
  - apply IH; assumption.
Qed.

(** Every entry comes from the initial map or from an element. *)
Lemma loop_lookup_source (l : list A) : forall (acc : gmap string V) k v,
  loop acc l !! k = Some v ->
  acc !! k = Some v \/ exists c, c ∈ l /\ key c = k /\ val c = v.
Proof.
  induction l as [|d l IH]; intros acc k v H; simpl in H; [left; exact H|].
  apply IH in H as [H | (c & Hc & Hk & Hv)].
  - destruct (decide (key d = k)) as [E | E].
    + rewrite <- E, lookup_insert_eq in H. injection H as <-.
      right. exists d. split; [left | auto].
    + rewrite lookup_insert_ne in H by exact E. left. exact H.
  - right. exists c. split; [right; exact Hc | auto].
Qed.

(** Every element has an entry. *)
Lemma loop_lookup_some (l : list A) : forall (acc : gmap string V) c,
  c ∈ l -> is_Some (loop acc l !! key c).
Proof.
  induction l as [|d l IH]; intros acc c Hin; [inversion Hin|].
  apply elem_of_cons in Hin as [-> | Hin]; simpl; [|apply IH, Hin].
  destruct (decide (key d ∈ key <$> l)) as [Hd | Hd].
  - apply list_elem_of_fmap in Hd as (c' & Hk & Hc').
    rewrite Hk. apply IH, Hc'.
  - rewrite (loop_lookup_other _ _ _ Hd), lookup_insert_eq. eauto.
Qed.

End Loop.

End ActionMapFacts.

(* ===================================================================== *)
(** ** The React client *)
(* ===================================================================== *)

Module ReactFacts.
Import ReactClient ActionMapFacts Scenario.

Lemma initial_action_merge c : initial_action c = merge <-> match_type c = "exact".
Proof.
  unfold initial_action. destruct (String.eqb_spec (match_type c) "exact").
  - tauto.
  - split; [discriminate | contradiction].
Qed.

Lemma initial_action_skip c : initial_action c = skip <-> match_type c <> "exact".
Proof.
  unfold initial_action. destruct (String.eqb_spec (match_type c) "exact").
  - split; [discriminate | contradiction].
  - tauto.
Qed.

(** The selector offers merge only against a match. *)
Lemma merge_offered c : merge ∈ offered c <-> match_type c <> "none".
Proof.
  unfold offered. destruct (String.eqb_spec (match_type c) "none") as [E | E].
  - split; [|contradiction]. simpl. intros H.
    apply elem_of_cons in H as [H | H]; [discriminate H|].
    apply list_elem_of_singleton in H. discriminate H.
  - split; [auto|]. intros _. left.
Qed.

(** The state after a confirm request that failed. *)
Lemma failed_confirm_state userId st dir :
  truthy (vcfTempDir st) = Some dir ->
  (handleConfirmVcfEnrichment userId thrown st).1
  = {| showVcfModal := false;
       vcfMatchReport := vcfMatchReport st;
       vcfTempDir := vcfTempDir st;
       vcfOverwriteMode := vcfOverwriteMode st;
       vcfContactActions := vcfContactActions st;
       vcfMatchFilter := vcfMatchFilter st;
       vcfSearchQuery := vcfSearchQuery st;
       uploadStatus :=
         Some {| type := error; message := "❌ Enrichment failed" |} |}.
Proof. unfold handleConfirmVcfEnrichment. intros ->. reflexivity. Qed.

Lemma step_clears userId ev st :
  ~ cleared st -> cleared (step userId ev st).1 ->
  (exists data, ev = confirm (resolved data)) \/ ev = cancel.
Proof.
  intros Hnot Hclr. destruct ev as [files res | res | | c a].
  - exfalso. simpl in Hclr. unfold handleVcfUpload in Hclr.
    destruct files; [exact (Hnot Hclr)|].
    destruct res; [|exact (Hnot Hclr)].
    destruct Hclr as [H _]. discriminate H.
  - destruct res as [data|]; [eauto|].
    exfalso. simpl in Hclr. unfold handleConfirmVcfEnrichment in Hclr.
    destruct (truthy (vcfTempDir st)); exact (Hnot Hclr).
  - auto.
  - exfalso. destruct Hclr as (_ & _ & H). simpl in H.
    exact (insert_non_empty _ _ _ H).
Qed.

Lemma step_drops_report userId ev st :
  vcfMatchReport st <> None -> vcfMatchReport (step userId ev st).1 = None ->
  (exists data, ev = confirm (resolved data)) \/ ev = cancel.
Proof.
  intros Hsome Hnone. destruct ev as [files res | res | | c a].
  - exfalso. simpl in Hnone. unfold handleVcfUpload in Hnone.
    destruct files; [exact (Hsome Hnone)|].
    destruct res; [discriminate Hnone | exact (Hsome Hnone)].
  - destruct res as [data|]; [eauto|].
    exfalso. simpl in Hnone. unfold handleConfirmVcfEnrichment in Hnone.
    destruct (truthy (vcfTempDir st)); exact (Hsome Hnone).
  - auto.
  - exfalso. exact (Hsome Hnone).
Qed.

(** C10, as amended. When the confirm request throws, the report, the
    staged-file reference and the action map keep their values, and so do
    the overwrite mode, the filter and the search text: the status message
    becomes the error message and the flag [showVcfModal] of the hook
    becomes false, nothing else changes. Nothing that renders reads that
    flag: the review modal is rendered while a report is held, so it is on
    screen after the failure as it was before. The three are cleared by a
    confirm request that succeeded and by a cancel, and by no other event
    of the hook; no other event drops the report. *)
Theorem failed_confirm_keeps_reconciliation (userId : string) :
  (forall st dir,
     truthy (vcfTempDir st) = Some dir ->
     let st' := (handleConfirmVcfEnrichment userId thrown st).1 in
     vcfMatchReport st' = vcfMatchReport st /\
     vcfTempDir st' = vcfTempDir st /\
     vcfContactActions st' = vcfContactActions st /\
     vcfOverwriteMode st' = vcfOverwriteMode st /\
     vcfMatchFilter st' = vcfMatchFilter st /\
     vcfSearchQuery st' = vcfSearchQuery st /\
     uploadStatus st'
     = Some {| type := error; message := "❌ Enrichment failed" |} /\
     showVcfModal st' = false /\
     ReviewList.modal_rendered st' = ReviewList.modal_rendered st) /\
  (forall st res,
     truthy (vcfTempDir st) = None ->
     handleConfirmVcfEnrichment userId res st = (st, [])) /\
  (forall st dir data,
     truthy (vcfTempDir st) = Some dir ->
     cleared (handleConfirmVcfEnrichment userId (resolved data) st).1) /\
  (forall st, cleared (handleCancelVcfEnrichment st).1) /\
  (forall ev st,
     ~ cleared st -> cleared (step userId ev st).1 ->
     (exists data, ev = confirm (resolved data)) \/ ev = cancel) /\
  (forall ev st,
     vcfMatchReport st <> None ->
     vcfMatchReport (step userId ev st).1 = None ->
     (exists data, ev = confirm (resolved data)) \/ ev = cancel).
Proof.
  split; [|split; [|split; [|split; [|split]]]].
  - intros st dir Hdir st'. subst st'.
    rewrite (failed_confirm_state _ _ _ Hdir). simpl. repeat split; reflexivity.
  - intros st res Hnone. unfold handleConfirmVcfEnrichment. rewrite Hnone.
    reflexivity.
  - intros st dir data Hdir. unfold handleConfirmVcfEnrichment. rewrite Hdir.
    repeat split; reflexivity.
  - intros st. repeat split; reflexivity.
  - apply step_clears.
  - apply step_drops_report.
Qed.

Lemma failed_confirm_keeps_reconciliation_witness :
  vcfMatchReport (handleConfirmVcfEnrichment "user@gmail.com" thrown reviewing).1
  = vcfMatchReport reviewing.
Proof.
  destruct (proj1 (failed_confirm_keeps_reconciliation "user@gmail.com")
              reviewing "tmp_vcf_1" eq_refl) as (H & _).
  exact H.
Defined.

(** The confirm request that fails changes more than the status message:
    the flag [showVcfModal] goes from true to false, while the review modal
    is rendered before and after. *)
Lemma failed_confirm_changes_flag :
  showVcfModal reviewing = true /\
  truthy (vcfTempDir reviewing) = Some "tmp_vcf_1" /\
  showVcfModal (handleConfirmVcfEnrichment "user@gmail.com" thrown reviewing).1
  = false /\
  uploadStatus (handleConfirmVcfEnrichment "user@gmail.com" thrown reviewing).1
  = Some {| type := error; message := "❌ Enrichment failed" |} /\
  ReviewList.modal_rendered reviewing = true /\
  ReviewList.modal_rendered
    (handleConfirmVcfEnrichment "user@gmail.com" thrown reviewing).1 = true.
Proof. repeat split; reflexivity. Qed.

Section Server.

Variable ServerState : Type.
Variable serve : ServerState -> Request -> ServerState.

(** The cancel handler sends nothing, so the server is as it was. *)
Lemma react_cancel_run (w : VcfState * ServerState) :
  (run ServerState serve handleCancelVcfEnrichment w).2 = w.2 /\
  cleared (run ServerState serve handleCancelVcfEnrichment w).1.
Proof. destruct w as [st srv]. split; [reflexivity|]. repeat split; reflexivity. Qed.

End Server.

End ReactFacts.

(* ===================================================================== *)
(** ** The Flutter client *)
(* ===================================================================== *)

Module FlutterFacts.
Import FlutterClient ActionMapFacts Scenario.

Lemma build_actions_loop (cs : list Contact) : forall acc : gmap string string,
  foldl (fun actions c =>
           if String.eqb (match_type c) "exact"
           then <[index c := "merge"]> actions
           else <[index c := "create"]> actions) acc cs
  = foldl (fun actions c => <[index c := action_for c]> actions) acc cs.
Proof.
  induction cs as [|c cs IH]; intros acc; simpl; [reflexivity|].
  rewrite <- IH. unfold action_for.
  destruct (String.eqb (match_type c) "exact"); reflexivity.
Qed.

Lemma action_for_cases c :
  (action_for c = "merge" \/ action_for c = "create") /\ action_for c <> "skip".
Proof.
  unfold action_for. destruct (String.eqb (match_type c) "exact");
    (split; [auto | discriminate]).
Qed.

(** The confirm request of the handler, when it sends one, carries the map
    built from the report and the modal's overwrite flag. *)
Lemma confirm_request_fields confirmed fetched st f :
  f ∈ confirm_requests (_confirmEnrichment confirmed fetched st).2 ->
  exists report,
    vcfMatchReport st = Some report /\
    contact_actions f = build_actions (all_contacts report) /\
    overwrite f = _overwrite st.
Proof.
  unfold _confirmEnrichment.
  destruct (vcfMatchReport st) as [report|]; [|intros H; inversion H].
  destruct (userId st) as [user|], (vcfTempDir st) as [dir|];
    try (intros H; inversion H; fail).
  intros H. exists report. split; [reflexivity|].
  destruct confirmed as [msg|]; [destruct fetched as [ps|]|];
    simpl in H; apply list_elem_of_singleton in H; subst f; auto.
Qed.

(** C9. The action map a confirm of the Flutter client submits gives every
    contact of the report an action, merge where the match type is exact
    and create otherwise (the indices of a report differ), and holds no
    skip, whatever the overwrite flag is. *)
Theorem flutter_commit_never_skips (confirmed : Response string)
    (fetched : Response (list string)) (st : ModalState) (f : ConfirmFields) :
  f ∈ confirm_requests (_confirmEnrichment confirmed fetched st).2 ->
  exists report,
    vcfMatchReport st = Some report /\
    overwrite f = _overwrite st /\
    (forall k a, contact_actions f !! k = Some a ->
                 (a = "merge" \/ a = "create") /\ a <> "skip") /\
    (forall c, c ∈ all_contacts report ->
               is_Some (contact_actions f !! index c)) /\
    (NoDup (index <$> all_contacts report) ->
     forall c, c ∈ all_contacts report ->
               contact_actions f !! index c
               = Some (if String.eqb (match_type c) "exact"
                       then "merge" else "create")).
Proof.
  intros Hf. apply confirm_request_fields in Hf as (report & Hr & Ha & Ho).
  exists report. split; [exact Hr|]. split; [exact Ho|].
  rewrite Ha. unfold build_actions. rewrite build_actions_loop.
  split; [|split].
  - intros k a Hk. apply loop_lookup_source in Hk as [Hk | (c & _ & _ & <-)].
    + rewrite lookup_empty in Hk. discriminate Hk.
    + apply action_for_cases.
  - intros c Hc. apply (loop_lookup_some index action_for), Hc.
  - intros Hnd c Hc. apply (loop_lookup_elem index action_for); assumption.
Qed.

Lemma flutter_commit_never_skips_witness :
  exists report,
    vcfMatchReport flutter_reviewing = Some report /\
    overwrite
      {| user_id := "user@gmail.com"; form_temp_dir := "tmp_vcf_1";
         overwrite := true;
         contact_actions := build_actions (all_contacts flutter_report) |}
    = _overwrite flutter_reviewing /\
    (forall k a,
       build_actions (all_contacts flutter_report) !! k = Some a ->
       (a = "merge" \/ a = "create") /\ a <> "skip") /\
    (forall c, c ∈ all_contacts report ->
               is_Some (build_actions (all_contacts flutter_report) !! index c)) /\
    (NoDup (index <$> all_contacts report) ->
     forall c, c ∈ all_contacts report ->
               build_actions (all_contacts flutter_report) !! index c
               = Some (if String.eqb (match_type c) "exact"
                       then "merge" else "create")).
Proof.
  apply (flutter_commit_never_skips (returned "ok") (returned []) flutter_reviewing
           {| user_id := "user@gmail.com"; form_temp_dir := "tmp_vcf_1";
              overwrite := true;
              contact_actions := build_actions (all_contacts flutter_report) |}).
  simpl. apply list_elem_of_singleton. reflexivity.
Defined.

Example flutter_actions_of_report :
  build_actions (all_contacts flutter_report)
  = {[ "0" := "merge"; "1" := "create"; "2" := "create" ]}.
Proof. vm_compute. reflexivity. Qed.

Section Server.

Variable ServerState : Type.
Variable serve : ServerState -> Request -> ServerState.

(** The Cancel button sends nothing, so the server is as it was. *)
Lemma flutter_cancel_run (w : ModalState * ServerState) :
  (run ServerState serve cancel_pressed w).2 = w.2 /\
  vcfMatchReport (run ServerState serve cancel_pressed w).1 = None /\
  vcfTempDir (run ServerState serve cancel_pressed w).1 = None /\
  persons (run ServerState serve cancel_pressed w).1 = persons w.1.
Proof. destruct w as [st srv]. repeat split; reflexivity. Qed.

End Server.

End FlutterFacts.

(* ===================================================================== *)
(** ** Default actions *)
(* ===================================================================== *)

Module ResolverFacts.
Import Matcher ActionMapFacts.

Lemma resolved_items_skip report (actions : gmap nat Committer.ContactAction)
    items r :
  Committer.resolve report actions = inr items ->
  r ∈ Report.all_contacts report ->
  actions !! Report.index r = None ->
  (r, Committer.skip) ∈ items.
Proof.
  unfold Committer.resolve. intros H Hin Hnone.
  destruct (List.find _ _); [discriminate H|]. injection H as <-.
  apply list_elem_of_fmap. exists r. split; [|exact Hin].
  unfold Committer.resolve_action. rewrite Hnone. reflexivity.
Qed.

Lemma default_actions_lookup report r :
  NoDup (Report.index <$> Report.all_contacts report) ->
  r ∈ Report.all_contacts report ->
  Committer.default_actions report !! Report.index r
  = Some (Committer.default_action (Report.match_type r)).
Proof.
  intros Hnd Hin. unfold Committer.default_actions.
  apply elem_of_list_to_map_1.
  - rewrite <- list_fmap_compose. exact Hnd.
  - apply list_elem_of_fmap. exists r. auto.
Qed.

(** C5. An index with no entry in the action map resolves to skip: in the
    resolver, whose resolved list holds skip for every record the map does
    not mention, and in the selector of the React review screen. The
    proposed default is merge exactly for an exact match and skip for a
    partial match or none: in the proposal by classification, and in the
    initial action map the React client builds from the report on upload. *)
Theorem unlisted_index_resolves_to_skip :
  (forall (actions : gmap nat Committer.ContactAction) idx,
     actions !! idx = None ->
     Committer.resolve_action actions idx = Committer.skip) /\
  (forall report (actions : gmap nat Committer.ContactAction) items r,
     Committer.resolve report actions = inr items ->
     r ∈ Report.all_contacts report ->
     actions !! Report.index r = None ->
     (r, Committer.skip) ∈ items) /\
  (forall t, Committer.default_action t = Committer.merge <-> t = exact) /\
  (forall t, Committer.default_action t = Committer.skip
             <-> t = partial \/ t = none) /\
  (forall report r,
     NoDup (Report.index <$> Report.all_contacts report) ->
     r ∈ Report.all_contacts report ->
     Committer.default_actions report !! Report.index r
     = Some (Committer.default_action (Report.match_type r))) /\
  (forall (actions : gmap string ReactClient.ContactAction) c,
     actions !! ReactClient.index c = None ->
     ReactClient.selected_action actions c = ReactClient.skip) /\
  (forall cs c,
     NoDup (ReactClient.index <$> cs) -> c ∈ cs ->
     ReactClient.initialActions (Some cs) !! ReactClient.index c
     = Some (ReactClient.initial_action c)) /\
  (forall c, ReactClient.initial_action c = ReactClient.merge
             <-> ReactClient.match_type c = "exact") /\
  (forall c, ReactClient.initial_action c = ReactClient.skip
             <-> ReactClient.match_type c <> "exact") /\
  (forall userId file files data st,
     ReactClient.vcfContactActions
       (ReactClient.handleVcfUpload userId (file :: files)
          (ReactClient.resolved data) st).1
     = ReactClient.initialActions (ReactClient.all_contacts data)).
Proof.
  repeat apply conj.
  - intros actions idx H. unfold Committer.resolve_action. rewrite H. reflexivity.
  - apply resolved_items_skip.
  - intros []; simpl; split; (reflexivity || discriminate).
  - intros []; simpl; split; try (intros [H | H]; discriminate H);
      try discriminate; auto.
  - apply default_actions_lookup.
  - intros actions c H. unfold ReactClient.selected_action. rewrite H. reflexivity.
  - intros cs c Hnd Hin.
    apply (loop_lookup_elem ReactClient.index ReactClient.initial_action);
      assumption.
  - apply ReactFacts.initial_action_merge.
  - apply ReactFacts.initial_action_skip.
  - reflexivity.
Qed.

Lemma unlisted_index_resolves_to_skip_witness :
  Committer.resolve_action {[ 0 := Committer.merge ]} 1 = Committer.skip /\
  Committer.default_actions Scenario.three_report !! 1 = Some Committer.skip.
Proof.
  destruct unlisted_index_resolves_to_skip as (Hskip & _ & _ & _ & Hdefault & _).
  split.
  - apply Hskip. reflexivity.
  - apply (Hdefault Scenario.three_report
             (Report.build_record Scenario.two_existing 1
                (incoming_person "Mike" "Smith" None))).
    + apply (bool_decide_unpack _). vm_compute. exact I.
    + do 2 constructor.
Defined.

Example react_initial_actions :
  ReactClient.vcfContactActions Scenario.reviewing
  = {[ "0" := ReactClient.merge; "1" := ReactClient.skip; "2" := ReactClient.skip ]}.
Proof. vm_compute. reflexivity. Qed.

End ResolverFacts.

(* ===================================================================== *)
(** ** Cancel *)
(* ===================================================================== *)

Module CancelFacts.
Import Scenario.

(** C6, as amended. Cancel changes nothing on the server, whatever the
    server is: neither client sends a request on its cancel path, so no
    existing contact is touched in either store. It always clears the
    client's reference to the staged files, together with the report (and,
    in the React client, the action map). The staged files themselves are
    not deleted by it. *)
Theorem cancel_sends_no_request :
  (forall (ServerState : Type)
          (serve : ServerState -> ReactClient.Request -> ServerState)
          (w : ReactClient.VcfState * ServerState),
     let w' := ReactClient.run ServerState serve
                 ReactClient.handleCancelVcfEnrichment w in
     w'.2 = w.2 /\
     ReactClient.vcfTempDir w'.1 = None /\
     ReactClient.vcfMatchReport w'.1 = None /\
     ReactClient.vcfContactActions w'.1 = ∅) /\
  (forall (ServerState : Type)
          (serve : ServerState -> FlutterClient.Request -> ServerState)
          (w : FlutterClient.ModalState * ServerState),
     let w' := FlutterClient.run ServerState serve
                 FlutterClient.cancel_pressed w in
     w'.2 = w.2 /\
     FlutterClient.vcfTempDir w'.1 = None /\
     FlutterClient.vcfMatchReport w'.1 = None /\
     FlutterClient.persons w'.1 = FlutterClient.persons w.1).
Proof.
  split.
  - intros S serve w w'. subst w'.
    destruct (ReactFacts.react_cancel_run S serve w) as (Hsrv & Hr & Hd & Ha).
    auto.
  - intros S serve w w'. subst w'.
    destruct (FlutterFacts.flutter_cancel_run S serve w) as (Hsrv & Hr & Hd & Hp).
    auto.
Qed.

(** After a cancel, in either client, the staged directory of the upload is
    still on the server, and the client no longer refers to it; the confirm
    path, on the same state, removes it. *)
Lemma cancel_leaves_staged_files :
  (ReactClient.vcfTempDir reviewing = Some "tmp_vcf_1" /\
   "tmp_vcf_1" ∈ Staging.staged staging_server /\
   "tmp_vcf_1" ∈
     Staging.staged
       (ReactClient.run Staging.Server Staging.serve_react
          ReactClient.handleCancelVcfEnrichment (reviewing, staging_server)).2 /\
   ReactClient.vcfTempDir
     (ReactClient.run Staging.Server Staging.serve_react
        ReactClient.handleCancelVcfEnrichment (reviewing, staging_server)).1
   = None) /\
  (FlutterClient.vcfTempDir flutter_reviewing = Some "tmp_vcf_1" /\
   "tmp_vcf_1" ∈
     Staging.staged
       (FlutterClient.run Staging.Server Staging.serve_flutter
          FlutterClient.cancel_pressed (flutter_reviewing, staging_server)).2 /\
   FlutterClient.vcfTempDir
     (FlutterClient.run Staging.Server Staging.serve_flutter
        FlutterClient.cancel_pressed (flutter_reviewing, staging_server)).1
   = None) /\
  "tmp_vcf_1" ∉
    Staging.staged
      (ReactClient.run Staging.Server Staging.serve_react
         (ReactClient.handleConfirmVcfEnrichment "user@gmail.com"
            (ReactClient.resolved
               {| ReactClient.enriched_count := 1;
                  ReactClient.created_count := 0 |}))
         (reviewing, staging_server)).2.
Proof.
  split; [|split].
  - split; [reflexivity|]. split; [|split; [|reflexivity]];
      apply (bool_decide_unpack _); vm_compute; exact I.
  - split; [reflexivity|]. split; [|reflexivity].
    apply (bool_decide_unpack _). vm_compute. exact I.
  - apply (bool_decide_unpack _). vm_compute. exact I.
Qed.

End CancelFacts.

(* ===================================================================== *)
(** ** The match classifier: what a classification means *)
(* ===================================================================== *)

Module ClassifierFacts.
Import PyStr Matcher.

Lemma first_hit_none_iff test (existing : list ExistingContact) :
  first_hit test existing = None <-> forall c, c ∈ existing -> test c = false.
Proof.
  unfold first_hit. split.
  - intros H c Hc. apply (List.find_none _ _ H). apply list_elem_of_In, Hc.
  - intros H. induction existing as [|d l IH]; simpl; [reflexivity|].
    rewrite (H d) by left. apply IH. intros c Hc. apply H. right. exact Hc.
Qed.

Lemma found_inj mt c mt' c' : found mt c = found mt' c' -> mt = mt' /\ c = c'.
Proof. intros H. injection H. auto. Qed.

Ltac hit H :=
  match goal with
  | |- context [first_hit ?f ?l] => destruct (first_hit f l) as [?c|] eqn:H
  end.

Ltac use_hit H := apply ReportFacts.first_hit_elem in H as [? H].

(** On contacts whose names are strings, a classification other than none
    names a contact of the list that passes the test of the rule that fired: for exact, equal full names, or,
    for a name of two words or more, equal first and last words; for
    partial, a name of two words or more whose last word is the contact's
    last name while the first word is not its first name, or a name of one
    word that is the contact's first or last name. *)
Theorem classification_sound (i : IncomingContact)
    (existing : list ExistingContact) (mt : MatchType) (c : ExistingContact) :
  match_vcf_to_contact i existing = found mt c ->
  let name := normalize_name (text (full_name i)) in
  let parts := split name in
  c ∈ existing /\
  match mt with
  | exact =>
      name = contact_full c \/
      (2 <= length parts /\ List.hd [] parts = c_first c /\
       last_part parts = c_last c)
  | partial =>
      (2 <= length parts /\ last_part parts = c_last c /\
       List.hd [] parts <> c_first c) \/
      (length parts = 1 /\
       (List.hd [] parts = c_first c \/ List.hd [] parts = c_last c))
  | none => False
  end.
Proof.
  intros H name parts. revert H.
  unfold match_vcf_to_contact, strategy1. fold name. fold parts.
  hit H1; simpl.
  { intros H. apply found_inj in H as [<- <-]. use_hit H1.
    split; [assumption|]. left. apply PyStrFacts.eqb_eq, H1. }
  unfold strategy2, strategy3.
  destruct (2 <=? length parts) eqn:Hlen.
  - apply Nat.leb_le in Hlen. hit H2.
    { intros H. apply found_inj in H as [<- <-]. use_hit H2.
      split; [assumption|]. right.
      apply andb_true_iff in H2 as [Hf Hl].
      apply PyStrFacts.eqb_eq in Hf, Hl. auto. }
    hit H3; simpl.
    { intros H. apply found_inj in H as [<- <-]. use_hit H3.
      split; [assumption|]. left.
      apply andb_true_iff in H3 as [Hl Hf].
      apply PyStrFacts.eqb_eq in Hl. apply negb_true_iff, PyStrFacts.eqb_neq in Hf. auto. }
    destruct (length parts =? 1) eqn:H1len.
    + apply Nat.eqb_eq in H1len. lia.
    + discriminate.
  - destruct (length parts =? 1) eqn:H1len.
    + apply Nat.eqb_eq in H1len. hit H4; simpl; [|discriminate].
      intros H. apply found_inj in H as [<- <-]. use_hit H4.
      split; [assumption|]. right. split; [exact H1len|].
      apply orb_true_iff in H4 as [Hw | Hw]; apply PyStrFacts.eqb_eq in Hw; auto.
    + discriminate.
Qed.

Lemma classification_sound_witness :
  person 2 "John" "Smith" ∈ [person 1 "Jane" "Roe"; person 2 "John" "Smith"] /\
  ((2 <= length (split (normalize_name (text "Mike  SMITH"))) /\
    last_part (split (normalize_name (text "Mike  SMITH")))
    = c_last (person 2 "John" "Smith") /\
    List.hd [] (split (normalize_name (text "Mike  SMITH")))
    <> c_first (person 2 "John" "Smith")) \/
   (length (split (normalize_name (text "Mike  SMITH"))) = 1 /\
    (List.hd [] (split (normalize_name (text "Mike  SMITH")))
     = c_first (person 2 "John" "Smith") \/
     List.hd [] (split (normalize_name (text "Mike  SMITH")))
     = c_last (person 2 "John" "Smith")))).
Proof.
  apply (classification_sound (named "Mike  SMITH")
           [person 1 "Jane" "Roe"; person 2 "John" "Smith"] partial
           (person 2 "John" "Smith")).
  vm_compute. reflexivity.
Defined.

(** On contacts whose names are strings, an uploaded contact is classified
    none exactly when no full name of the list equals its normalized name and, for a name of two words or more, no
    last name of the list is its last word, and, for a name of one word, no
    first or last name of the list is that word. A name without words needs
    the first condition only. *)
Theorem unmatched_iff (i : IncomingContact) (existing : list ExistingContact) :
  let name := normalize_name (text (full_name i)) in
  let parts := split name in
  match_vcf_to_contact i existing = not_found <->
  (forall c, c ∈ existing -> contact_full c <> name) /\
  (2 <= length parts ->
   forall c, c ∈ existing -> c_last c <> last_part parts) /\
  (length parts = 1 ->
   forall c, c ∈ existing ->
     c_first c <> List.hd [] parts /\ c_last c <> List.hd [] parts).
Proof.
  intros name parts. unfold match_vcf_to_contact, strategy1.
  fold name. fold parts. split.
  - hit H1; simpl; [discriminate|].
    pose proof (proj1 (first_hit_none_iff _ _) H1) as N1.
    intros H. split.
    { intros c Hc E. specialize (N1 c Hc). apply PyStrFacts.eqb_neq in N1. auto. }
    revert H. unfold strategy2, strategy3.
    destruct (2 <=? length parts) eqn:Hlen.
    + apply Nat.leb_le in Hlen.
      hit H2; [discriminate|]. hit H3; simpl; [discriminate|].
      pose proof (proj1 (first_hit_none_iff _ _) H2) as N2.
      pose proof (proj1 (first_hit_none_iff _ _) H3) as N3.
      intros _. split; [|lia].
      intros _ c Hc E. specialize (N2 c Hc). specialize (N3 c Hc).
      simpl in N2, N3. rewrite E, PyStrFacts.eqb_refl in N2, N3.
      rewrite andb_true_r in N2. simpl in N3. rewrite N2 in N3. discriminate N3.
    + apply Nat.leb_gt in Hlen. split; [lia|].
      intros H1len. rewrite H1len in H. simpl in H. revert H.
      hit H4; simpl; [discriminate|].
      pose proof (proj1 (first_hit_none_iff _ _) H4) as N4.
      intros _ c Hc. specialize (N4 c Hc). simpl in N4.
      apply orb_false_iff in N4 as [Nf Nl].
      apply PyStrFacts.eqb_neq in Nf, Nl. auto.
  - intros (N1 & N2 & N3).
    rewrite (proj2 (first_hit_none_iff _ _)); simpl.
    2:{ intros c Hc. apply PyStrFacts.eqb_neq. intros E. exact (N1 c Hc (eq_sym E)). }
    unfold strategy2, strategy3.
    destruct (2 <=? length parts) eqn:Hlen.
    + apply Nat.leb_le in Hlen.
      rewrite (proj2 (first_hit_none_iff _ _)).
      2:{ intros c Hc. simpl. apply andb_false_iff. right.
          apply PyStrFacts.eqb_neq. intros E. exact (N2 Hlen c Hc (eq_sym E)). }
      rewrite (proj2 (first_hit_none_iff _ _)); simpl.
      2:{ intros c Hc. apply andb_false_iff. left.
          apply PyStrFacts.eqb_neq. intros E. exact (N2 Hlen c Hc (eq_sym E)). }
      destruct (length parts =? 1) eqn:H1len; [|reflexivity].
      apply Nat.eqb_eq in H1len. lia.
    + destruct (length parts =? 1) eqn:H1len; [|reflexivity].
      apply Nat.eqb_eq in H1len.
      rewrite (proj2 (first_hit_none_iff _ _)); [reflexivity|].
      intros c Hc. simpl. destruct (N3 H1len c Hc) as [Nf Nl].
      apply orb_false_iff. split; apply PyStrFacts.eqb_neq; congruence.
Qed.

(** On contacts whose names are strings and for a name of two words or
    more, a contact anywhere in the list whose lower-cased first and last
    name are the first and last word of the normalized name makes the
    classification exact: the words between do not count, and a contact
    earlier in the list that shares the last name only does not make it
    partial. *)
Theorem components_exact_wins (i : IncomingContact)
    (existing : list ExistingContact) (e : ExistingContact) :
  let parts := split (normalize_name (text (full_name i))) in
  e ∈ existing ->
  2 <= length parts ->
  List.hd [] parts = c_first e ->
  last_part parts = c_last e ->
  match_type (match_vcf_to_contact i existing) = exact.
Proof.
  intros parts Hin Hlen Hf Hl. unfold match_vcf_to_contact, strategy1.
  hit H1; simpl; [reflexivity|].
  unfold strategy2. fold parts.
  apply Nat.leb_le in Hlen. rewrite Hlen.
  destruct (MatcherFacts.first_hit_first
              (fun contact =>
                 eqb (List.hd [] parts) (c_first contact) &&
                 eqb (last_part parts) (c_last contact))
              existing e Hin) as (before & m & after & _ & _ & _ & Hhit).
  { rewrite Hf, Hl, !PyStrFacts.eqb_refl. reflexivity. }
  rewrite Hhit. reflexivity.
Qed.

Lemma components_exact_wins_witness :
  match_type
    (match_vcf_to_contact (named "john Quincy Adams SMITH")
       [person 1 "Mike" "Smith"; person 2 "John" "Smith"]) = exact.
Proof.
  apply (components_exact_wins (named "john Quincy Adams SMITH")
           [person 1 "Mike" "Smith"; person 2 "John" "Smith"]
           (person 2 "John" "Smith")).
  - do 2 constructor.
  - vm_compute. lia.
  - vm_compute. reflexivity.
  - vm_compute. reflexivity.
Defined.

End ClassifierFacts.

(* ===================================================================== *)
(** ** Facts about the JavaScript string operations *)
(* ===================================================================== *)

Module JsStrFacts.
Import JsStr.

Example js_white_space :
  trim (text (String "194" (String "160" " a b") +:+
              String "239" (String "187" (String "191" (String "009" "")))))
  = text "a b".
Proof. vm_compute. reflexivity. Qed.

Example toLowerCase_accented : toLowerCase (text "ÉMILE Zola") = text "émile zola".
Proof. vm_compute. reflexivity. Qed.

Lemma js_eqb_eq (a b : jsstr) : eqb a b = true <-> a = b.
Proof. apply UnicodeFacts.text_eqb_eq. Qed.

Lemma js_eqb_neq (a b : jsstr) : eqb a b = false <-> a <> b.
Proof. apply UnicodeFacts.text_eqb_neq. Qed.

Lemma js_eqb_refl (a : jsstr) : eqb a a = true.
Proof. apply UnicodeFacts.text_eqb_refl. Qed.

Lemma js_snoc_not_nil (a : jsstr) c : a ++ [c] <> [].
Proof. destruct a; discriminate. Qed.

(** *** White space and lower case *)

Lemma js_spaces_kept :
  forallb (fun c => Unicode.eqb (Unicode.to_lower c) [c] &&
                    negb (c =? Unicode.capital_sigma)%N) Unicode.js_spaces = true.
Proof. vm_compute. reflexivity. Qed.

Lemma js_sigmas_no_space :
  is_space Unicode.small_sigma || is_space Unicode.final_sigma = false.
Proof. vm_compute. reflexivity. Qed.

Lemma js_spaces_not_made_low :
  forallb (fun c => is_space c ||
                    forallb (fun d => negb (is_space d)) (Unicode.to_lower c))
    (List.map N.of_nat (seq 0 192)) = true.
Proof. vm_compute. reflexivity. Qed.

Lemma js_spaces_not_made :
  forallb (fun e => forallb (fun d => negb (is_space d)) e.2) Unicode.lower_map
  = true.
Proof. vm_compute. reflexivity. Qed.

Lemma toLowerCase_idem s : toLowerCase (toLowerCase s) = toLowerCase s.
Proof. apply UnicodeFacts.lower_text_idem. Qed.

(** Every character is white space. *)
Local Abbreviation blank := (forallb is_space).

(** A white space character is lower-cased to itself, any other character
    to characters that are no white space. *)
Lemma blank_lower_at before c after :
  blank (Unicode.lower_at before c after) = is_space c.
Proof.
  destruct (is_space c) eqn:Hc.
  - rewrite (UnicodeFacts.space_lower_at Unicode.js_spaces js_spaces_kept
               before c after Hc).
    simpl. rewrite Hc. reflexivity.
  - pose proof (UnicodeFacts.no_space_lower_at Unicode.js_spaces
                  js_sigmas_no_space js_spaces_not_made_low js_spaces_not_made
                  before c after Hc) as Hno.
    pose proof (UnicodeFacts.lower_at_not_nil before c after) as Hne.
    destruct (Unicode.lower_at before c after) as [|d l]; [contradiction|].
    simpl in Hno |- *. apply andb_true_iff in Hno as [Hd _].
    apply negb_true_iff in Hd. change (is_space d = false) in Hd.
    rewrite Hd. reflexivity.
Qed.

Lemma blank_lower_go s : forall before,
  blank (Unicode.lower_go before s) = blank s.
Proof.
  induction s as [|c s IH]; intros before; [reflexivity|].
  simpl. rewrite forallb_app, blank_lower_at, IH. reflexivity.
Qed.

Lemma blank_lower s : blank (toLowerCase s) = blank s.
Proof. apply blank_lower_go. Qed.

Lemma trimStart_nil s : trimStart s = [] <-> blank s = true.
Proof.
  induction s as [|c s IH]; simpl; [tauto|].
  destruct (is_space c); simpl; [exact IH|].
  split; discriminate.
Qed.

Lemma trimEnd_nil s : trimEnd s = [] <-> blank s = true.
Proof.
  induction s as [|c s IH]; simpl; [tauto|].
  destruct (trimEnd s) as [|d r].
  - destruct (is_space c); simpl.
    + split; [intros _; apply IH; reflexivity | reflexivity].
    + split; discriminate.
  - split; [discriminate|]. intros [_ H]%andb_true_iff.
    apply IH in H. discriminate H.
Qed.

Lemma trimEnd_blank s : blank (trimEnd s) = true -> trimEnd s = [].
Proof.
  induction s as [|c s IH]; simpl; [reflexivity|].
  destruct (trimEnd s) as [|d r].
  - destruct (is_space c) eqn:Hc; simpl; [reflexivity|].
    rewrite Hc. discriminate.
  - intros [_ H]%andb_true_iff. specialize (IH H). discriminate IH.
Qed.

Lemma trim_nil s : trim s = [] <-> blank s = true.
Proof.
  unfold trim. rewrite trimStart_nil. split.
  - intros H. apply trimEnd_nil, trimEnd_blank, H.
  - intros H. apply trimEnd_nil in H. rewrite H. reflexivity.
Qed.

(** Lower-casing a text does not change whether it is white space only. *)
Lemma trim_lower_nil q :
  eqb (trim (toLowerCase q)) [] = eqb (trim q) [].
Proof.
  destruct (eqb (trim q) []) eqn:E.
  - apply js_eqb_eq. apply js_eqb_eq, trim_nil in E. apply trim_nil.
    rewrite blank_lower. exact E.
  - apply js_eqb_neq. apply js_eqb_neq in E. intros H. apply E.
    apply trim_nil in H. rewrite blank_lower in H. apply trim_nil, H.
Qed.

End JsStrFacts.

(* ===================================================================== *)
(** ** The review screen of the React client *)
(* ===================================================================== *)

Module ReviewFacts.
Import ReactClient ReviewList ActionMapFacts.

(** *** The list *)

Lemma listed_contacts_elem st c :
  c ∈ listed_contacts st <->
  exists report cs,
    vcfMatchReport st = Some report /\ all_contacts report = Some cs /\
    c ∈ cs /\
    listed (vcfMatchFilter st) (JsStr.text (vcfSearchQuery st)) c = true.
Proof.
  unfold listed_contacts. split.
  - destruct (vcfMatchReport st) as [report|]; [|intros H; inversion H].
    destruct (all_contacts report) as [cs|] eqn:E; [|intros H; inversion H].
    intros H. apply list_elem_of_In, List.filter_In in H as [Hin Hl].
    exists report, cs. repeat split; try assumption. apply list_elem_of_In, Hin.
  - intros (report & cs & -> & -> & Hin & Hl).
    apply list_elem_of_In, List.filter_In. split; [apply list_elem_of_In, Hin | exact Hl].
Qed.

(** The list of the review screen shows contacts of the report only. Under
    a match type filter every contact shown has that match type. With the
    filter on all and a search text that is empty or white space only, every
    contact of the report is shown, in the report's order. When the search
    text holds more than white space, a contact shown has the lower-cased
    search text in its lower-cased name, email, phone or matched contact
    name. *)
Theorem review_list_shows (st : VcfState) :
  (forall c, c ∈ listed_contacts st ->
     (exists report cs,
        vcfMatchReport st = Some report /\ all_contacts report = Some cs /\
        c ∈ cs) /\
     match vcfMatchFilter st with
     | all => True
     | only_exact => match_type c = "exact"
     | only_partial => match_type c = "partial"
     | only_none => match_type c = "none"
     end /\
     (JsStr.trim (JsStr.text (vcfSearchQuery st)) <> [] ->
      exists field,
        field ∈ [Some (vcf_name c); vcf_email c; vcf_phone c;
                  matched_contact_name c] /\
        field_includes field
          (JsStr.toLowerCase (JsStr.text (vcfSearchQuery st))) = true)) /\
  (forall report cs,
     vcfMatchReport st = Some report -> all_contacts report = Some cs ->
     vcfMatchFilter st = all ->
     JsStr.trim (JsStr.text (vcfSearchQuery st)) = [] ->
     listed_contacts st = cs).
Proof.
  split.
  - intros c Hc. apply listed_contacts_elem in Hc as (report & cs & Hr & Hcs & Hin & Hl).
    split; [eauto|].
    unfold listed in Hl. apply andb_true_iff in Hl as [Hf Hs]. split.
    + unfold passes_filter in Hf.
      destruct (vcfMatchFilter st); [exact I | | |]; apply String.eqb_eq, Hf.
    + intros Hq. unfold passes_search in Hs.
      apply JsStrFacts.js_eqb_neq in Hq. rewrite Hq in Hs.
      apply orb_true_iff in Hs as [Hs | Hs];
        [apply orb_true_iff in Hs as [Hs | Hs];
         [apply orb_true_iff in Hs as [Hs | Hs]|]|];
        eexists; (split; [|exact Hs]).
      * left.
      * right; left.
      * do 2 right; left.
      * do 3 right; left.
  - intros report cs Hr Hcs Hf Hq. unfold listed_contacts. rewrite Hr, Hcs, Hf.
    unfold listed, passes_search. rewrite Hq. simpl. clear Hcs.
    induction cs as [|c cs IH]; [reflexivity|]. simpl. f_equal. exact IH.
Qed.

Lemma review_list_shows_witness :
  listed_contacts
    (ui_step "user@gmail.com" (setVcfSearchQuery "  ") Scenario.reviewing).1
  = [ {| index := "0"; vcf_name := "john doe"; vcf_email := None;
         vcf_phone := None; match_type := "exact";
         matched_contact_name := Some "John Doe";
         matched_contact_company := None |};
      {| index := "1"; vcf_name := "mike smith"; vcf_email := None;
         vcf_phone := None; match_type := "partial";
         matched_contact_name := Some "John Smith";
         matched_contact_company := None |};
      {| index := "2"; vcf_name := "alice wonderland"; vcf_email := None;
         vcf_phone := None; match_type := "none";
         matched_contact_name := None;
         matched_contact_company := None |} ].
Proof.
  apply (proj2 (review_list_shows
                  (ui_step "user@gmail.com" (setVcfSearchQuery "  ")
                     Scenario.reviewing).1) Scenario.review_report);
    vm_compute; reflexivity.
Defined.

(** The search of the review list does not depend on the case of the search
    text. *)
Theorem review_search_ignores_case (f : MatchFilter) (q : JsStr.jsstr)
    (c : VcfContact) :
  listed f (JsStr.toLowerCase q) c = listed f q c.
Proof.
  unfold listed, passes_search.
  rewrite JsStrFacts.trim_lower_nil, JsStrFacts.toLowerCase_idem. reflexivity.
Qed.

(** *** The action summary *)

Lemma count_partition (l : list ContactAction) :
  length (List.filter (fun x => action_eqb x merge) l) +
  length (List.filter (fun x => action_eqb x create) l) +
  length (List.filter (fun x => action_eqb x skip) l) = length l.
Proof.
  induction l as [|a l IH]; [reflexivity|].
  destruct a; simpl; lia.
Qed.

Lemma loop_dom {A V} (key : A -> string) (val : A -> V) (l : list A) :
  forall acc : gmap string V,
    dom (foldl (fun acc c => <[key c := val c]> acc) acc l)
    = dom acc ∪ list_to_set (key <$> l).
Proof.
  induction l as [|c l IH]; intros acc; simpl.
  - symmetry. apply union_empty_r_L.
  - rewrite IH, dom_insert_L. apply set_eq. intros x.
    rewrite !elem_of_union, elem_of_singleton. tauto.
Qed.

Lemma initialActions_dom cs :
  dom (initialActions (Some cs)) = list_to_set (index <$> cs).
Proof.
  unfold initialActions. rewrite loop_dom, dom_empty_L. apply union_empty_l_L.
Qed.

(** The three counts of the action summary add up to the number of entries
    of the action map; after an upload that resolved with a report whose
    indices differ, to the number of contacts of the report. *)
Theorem summary_counts_every_entry :
  (forall actions : gmap string ContactAction,
     count_action merge actions + count_action create actions +
     count_action skip actions = size actions) /\
  (forall userId file files data cs st,
     all_contacts data = Some cs -> NoDup (index <$> cs) ->
     let actions :=
       vcfContactActions
         (handleVcfUpload userId (file :: files) (resolved data) st).1 in
     count_action merge actions + count_action create actions +
     count_action skip actions = length cs).
Proof.
  assert (Hsum : forall actions : gmap string ContactAction,
            count_action merge actions + count_action create actions +
            count_action skip actions = size actions).
  { intros actions. unfold count_action. rewrite count_partition.
    rewrite length_fmap. apply length_map_to_list. }
  split; [exact Hsum|].
  intros userId file files data cs st Hcs Hnd actions. rewrite Hsum.
  subst actions. simpl. rewrite Hcs.
  rewrite <- size_dom, initialActions_dom, size_list_to_set by exact Hnd.
  apply length_fmap.
Qed.

Lemma summary_counts_every_entry_witness :
  count_action merge (vcfContactActions Scenario.reviewing) +
  count_action create (vcfContactActions Scenario.reviewing) +
  count_action skip (vcfContactActions Scenario.reviewing) = 3.
Proof.
  apply (proj2 summary_counts_every_entry "user@gmail.com" "contacts.vcf" []
           Scenario.review_report _ initial_state eq_refl).
  apply (bool_decide_unpack _). vm_compute. exact I.
Defined.

End ReviewFacts.

(* ===================================================================== *)
(** ** What the React client holds and what it submits *)
(* ===================================================================== *)

Module SubmitFacts.
Import ReactClient ReviewList ActionMapFacts.

Lemma fmap_eq_inj {A} (f : A -> string) (l : list A) x y :
  NoDup (f <$> l) -> x ∈ l -> y ∈ l -> f x = f y -> x = y.
Proof.
  induction l as [|z l IH]; intros Hnd Hx Hy E; [inversion Hx|].
  rewrite fmap_cons in Hnd. apply NoDup_cons in Hnd as [Hz Hnd].
  apply elem_of_cons in Hx as [-> | Hx]; apply elem_of_cons in Hy as [-> | Hy].
  - reflexivity.
  - exfalso. apply Hz. rewrite E. apply list_elem_of_fmap. eauto.
  - exfalso. apply Hz. rewrite <- E. apply list_elem_of_fmap. eauto.
  - apply IH; assumption.
Qed.

Lemma upload_resolved_state userId file files data st :
  (handleVcfUpload userId (file :: files) (resolved data) st).1
  = {| showVcfModal := true;
       vcfMatchReport := Some data;
       vcfTempDir := temp_dir data;
       vcfOverwriteMode := vcfOverwriteMode st;
       vcfContactActions := initialActions (all_contacts data);
       vcfMatchFilter := all;
       vcfSearchQuery := "";
       uploadStatus := None |}.
Proof. reflexivity. Qed.

Lemma initialActions_indices data :
  dom (initialActions (all_contacts data)) = list_to_set (indices data).
Proof.
  unfold indices. destruct (all_contacts data) as [cs|].
  - apply ReviewFacts.initialActions_dom.
  - simpl. apply dom_empty_L.
Qed.

(** The two properties hold in every state the screen reaches. *)
Lemma reachable_invariants userId st :
  reachable userId st -> consistent st /\ merge_only_on_match st.
Proof.
  induction 1 as [|st e Hreach [Hcons Hmerge] Hposs].
  - split; [split; reflexivity|]. intros report cs c H. discriminate H.
  - destruct e as [[files res | res | | c a] | checked | f | q]; simpl.
    + (* upload *)
      destruct files as [|file files]; [split; assumption|].
      destruct res as [data|]; [|split; assumption].
      rewrite upload_resolved_state. simpl in Hposs. split.
      * unfold consistent. simpl. split; [reflexivity|].
        split; [apply initialActions_indices | exact Hposs].
      * intros report cs c Hr Hcs Hc Hm. simpl in Hr, Hm. injection Hr as <-.
        rewrite Hcs in Hm. unfold indices in Hposs. rewrite Hcs in Hposs.
        pose proof (loop_lookup_elem index initial_action cs ∅ c Hposs Hc) as Hl.
        unfold initialActions in Hm. rewrite Hl in Hm.
        injection Hm as Hm. apply ReactFacts.initial_action_merge in Hm.
        rewrite Hm. discriminate.
    + (* confirm *)
      unfold handleConfirmVcfEnrichment.
      destruct (truthy (vcfTempDir st)); [|split; assumption].
      destruct res as [data|]; [|split; assumption].
      split; [split; reflexivity|]. intros report cs c H. discriminate H.
    + (* cancel *)
      split; [split; reflexivity|]. intros report cs c H. discriminate H.
    + (* choose *)
      simpl in Hposs. destruct Hposs as [Hlisted Hoffered].
      apply ReviewFacts.listed_contacts_elem in Hlisted
        as (report & cs & Hr & Hcs & Hc & _).
      unfold consistent in *. simpl. rewrite Hr in *.
      destruct Hcons as (Hdir & Hdom & Hnd). split.
      * split; [exact Hdir|]. split; [|exact Hnd].
        rewrite dom_insert_L, Hdom. apply subseteq_union_1_L.
        apply singleton_subseteq_l, elem_of_list_to_set.
        unfold indices. rewrite Hcs. apply list_elem_of_fmap. eauto.
      * intros report' cs' c' Hr' Hcs' Hc' Hm. simpl in Hr', Hm.
        rewrite Hr in Hr'. injection Hr' as <-.
        rewrite Hcs in Hcs'. injection Hcs' as <-.
        destruct (decide (index c = index c')) as [E | E].
        -- rewrite E, lookup_insert_eq in Hm. injection Hm as ->.
           unfold indices in Hnd. rewrite Hcs in Hnd.
           assert (c = c') as <- by (eapply fmap_eq_inj; eassumption).
           apply ReactFacts.merge_offered, Hoffered.
        -- rewrite lookup_insert_ne in Hm by exact E.
           eapply Hmerge; eassumption.
    + split; assumption.
    + split; assumption.
    + split; assumption.
Qed.

(** In every state the review screen reaches, the report, the staged-file
    reference and the action map are held together or not at all, and the
    action map has an entry for the index of every contact of the held
    report and for nothing else; so every confirm form that is sent names
    the directory the held report came with and gives an action to exactly
    the indices of that report. *)
Theorem submitted_form_covers_report (userId : string) (st : VcfState) :
  reachable userId st ->
  consistent st /\
  forall res f,
    f ∈ confirm_forms (handleConfirmVcfEnrichment userId res st).2 ->
    exists report,
      vcfMatchReport st = Some report /\
      temp_dir report = Some (form_temp_dir f) /\
      overwrite f = vcfOverwriteMode st /\
      dom (contact_actions f) = list_to_set (indices report).
Proof.
  intros Hreach. destruct (reachable_invariants _ _ Hreach) as [Hcons _].
  split; [exact Hcons|]. intros res f Hf.
  unfold handleConfirmVcfEnrichment in Hf.
  destruct (truthy (vcfTempDir st)) as [dir|] eqn:Hdir; [|inversion Hf].
  assert (Hd : vcfTempDir st = Some dir).
  { unfold truthy in Hdir. destruct (vcfTempDir st) as [s|]; [|discriminate].
    destruct (String.eqb s ""); [discriminate | congruence]. }
  unfold consistent in Hcons.
  destruct (vcfMatchReport st) as [report|].
  - destruct Hcons as (Ht & Hdom & _). exists report.
    destruct res; simpl in Hf; apply list_elem_of_singleton in Hf; subst f; simpl;
      (split; [reflexivity|]; split; [congruence|]; split; [reflexivity | exact Hdom]).
  - destruct Hcons as [Ht _]. congruence.
Qed.

Lemma submitted_form_covers_report_witness :
  consistent Scenario.reviewing.
Proof.
  apply (submitted_form_covers_report "user@gmail.com" Scenario.reviewing).
  apply (reachable_step "user@gmail.com" initial_state
           (handler (upload ["contacts.vcf"] (resolved Scenario.review_report)))).
  - apply reachable_initial.
  - simpl. apply (bool_decide_unpack _). vm_compute. exact I.
Defined.

(** In every state the review screen reaches, no contact whose match type
    is ['none'] has merge as its action, so no confirm form carries merge
    for such a contact: the initial actions give merge to exact matches
    only, and the selector offers merge only against a match. *)
Theorem never_merge_against_none (userId : string) (st : VcfState) :
  reachable userId st ->
  forall res f report cs c,
    f ∈ confirm_forms (handleConfirmVcfEnrichment userId res st).2 ->
    vcfMatchReport st = Some report -> all_contacts report = Some cs ->
    c ∈ cs -> match_type c = "none" ->
    contact_actions f !! index c <> Some merge.
Proof.
  intros Hreach res f report cs c Hf Hr Hcs Hc Hnone Hm.
  destruct (reachable_invariants _ _ Hreach) as [_ Hmerge].
  apply (Hmerge report cs c Hr Hcs Hc); [|exact Hnone].
  unfold handleConfirmVcfEnrichment in Hf.
  destruct (truthy (vcfTempDir st)); [|inversion Hf].
  destruct res; simpl in Hf; apply list_elem_of_singleton in Hf; subst f;
    exact Hm.
Qed.

Lemma reviewing_reachable : reachable "user@gmail.com" Scenario.reviewing.
Proof.
  apply (reachable_step "user@gmail.com" initial_state
           (handler (upload ["contacts.vcf"] (resolved Scenario.review_report)))).
  - apply reachable_initial.
  - simpl. apply (bool_decide_unpack _). vm_compute. exact I.
Defined.

Lemma never_merge_against_none_witness :
  vcfContactActions Scenario.reviewing !! "2" = Some skip /\
  vcfContactActions Scenario.reviewing !! "2" <> Some merge.
Proof.
  split; [vm_compute; reflexivity|].
  apply (never_merge_against_none "user@gmail.com" Scenario.reviewing
           reviewing_reachable thrown
           {| user_id := "user@gmail.com"; form_temp_dir := "tmp_vcf_1";
              overwrite := false;
              contact_actions := vcfContactActions Scenario.reviewing |}
           Scenario.review_report
           (default [] (all_contacts Scenario.review_report))
           {| index := "2"; vcf_name := "alice wonderland"; vcf_email := None;
              vcf_phone := None; match_type := "none";
              matched_contact_name := None;
              matched_contact_company := None |}).
  - simpl. apply list_elem_of_singleton. reflexivity.
  - reflexivity.
  - reflexivity.
  - do 3 constructor.
  - reflexivity.
Defined.

(** The action the user picks for a contact is the one the selector then
    shows for it and the one the next confirm submits for its index; the
    selectors of contacts with another index show what they showed. *)
Theorem chosen_action_is_submitted (userId : string) (c : VcfContact)
    (a : ContactAction) (st : VcfState) (dir : string)
    (res : Response ConfirmData) :
  truthy (vcfTempDir st) = Some dir ->
  let st' := (step userId (choose c a) st).1 in
  selected_action (vcfContactActions st') c = a /\
  (forall c', index c' <> index c ->
     selected_action (vcfContactActions st') c'
     = selected_action (vcfContactActions st) c') /\
  confirm_forms (handleConfirmVcfEnrichment userId res st').2
  = [ {| user_id := userId; form_temp_dir := dir;
         overwrite := vcfOverwriteMode st;
         contact_actions := <[index c := a]> (vcfContactActions st) |} ].
Proof.
  intros Hdir st'. subst st'. simpl. split; [|split].
  - unfold selected_action. rewrite lookup_insert_eq. reflexivity.
  - intros c' Hne. unfold selected_action.
    rewrite lookup_insert_ne by congruence. reflexivity.
  - unfold handleConfirmVcfEnrichment. simpl. rewrite Hdir.
    destruct res; reflexivity.
Qed.

Lemma chosen_action_is_submitted_witness :
  selected_action
    (vcfContactActions
       (step "user@gmail.com"
          (choose {| index := "1"; vcf_name := "mike smith"; vcf_email := None;
                     vcf_phone := None; match_type := "partial";
                     matched_contact_name := Some "John Smith";
                     matched_contact_company := None |} create)
          Scenario.reviewing).1)
    {| index := "1"; vcf_name := "mike smith"; vcf_email := None;
       vcf_phone := None; match_type := "partial";
       matched_contact_name := Some "John Smith";
       matched_contact_company := None |} = create.
Proof.
  apply (chosen_action_is_submitted "user@gmail.com" _ create Scenario.reviewing
           "tmp_vcf_1" thrown eq_refl).
Defined.

(** After a confirm request that failed the review modal is still on the
    screen, although the hook's own flag says hidden, and a second confirm
    sends the form the first one sent. After a confirm that succeeded, and
    after a cancel, the modal is gone and a further confirm does nothing and
    sends nothing. *)
Theorem confirm_again (userId : string) (st : VcfState) (dir : string) :
  reachable userId st ->
  truthy (vcfTempDir st) = Some dir ->
  (forall res res',
     let failed := (handleConfirmVcfEnrichment userId thrown st).1 in
     modal_rendered failed = true /\
     showVcfModal failed = false /\
     requests (handleConfirmVcfEnrichment userId res failed).2
     = requests (handleConfirmVcfEnrichment userId res' st).2 /\
     length (requests (handleConfirmVcfEnrichment userId res failed).2) = 1) /\
  (forall data res,
     let done := (handleConfirmVcfEnrichment userId (resolved data) st).1 in
     modal_rendered done = false /\
     handleConfirmVcfEnrichment userId res done = (done, [])) /\
  (forall res,
     let gone := (handleCancelVcfEnrichment st).1 in
     modal_rendered gone = false /\
     handleConfirmVcfEnrichment userId res gone = (gone, [])).
Proof.
  intros Hreach Hdir. destruct (reachable_invariants _ _ Hreach) as [Hcons _].
  assert (Hd : vcfTempDir st = Some dir).
  { unfold truthy in Hdir. destruct (vcfTempDir st) as [s|]; [|discriminate].
    destruct (String.eqb s ""); [discriminate | congruence]. }
  split; [|split].
  - intros res res' failed. subst failed.
    rewrite (ReactFacts.failed_confirm_state userId st dir Hdir).
    split; [|split; [reflexivity|]].
    + unfold modal_rendered. simpl. unfold consistent in Hcons.
      destruct (vcfMatchReport st); [reflexivity|].
      destruct Hcons as [Hnone _]. congruence.
    + unfold handleConfirmVcfEnrichment. simpl. rewrite Hdir.
      destruct res, res'; split; reflexivity.
  - intros data res done. subst done.
    assert (Hdone : (handleConfirmVcfEnrichment userId (resolved data) st).1
                    = {| showVcfModal := false; vcfMatchReport := None;
                         vcfTempDir := None;
                         vcfOverwriteMode := vcfOverwriteMode st;
                         vcfContactActions := ∅;
                         vcfMatchFilter := vcfMatchFilter st;
                         vcfSearchQuery := vcfSearchQuery st;
                         uploadStatus :=
                           Some {| type := success;
                                   message := enriched_message data |} |}).
    { unfold handleConfirmVcfEnrichment. rewrite Hdir. reflexivity. }
    rewrite Hdone. split; reflexivity.
  - intros res. split; reflexivity.
Qed.

Lemma confirm_again_witness :
  modal_rendered
    (handleConfirmVcfEnrichment "user@gmail.com" thrown Scenario.reviewing).1
  = true /\
  showVcfModal
    (handleConfirmVcfEnrichment "user@gmail.com" thrown Scenario.reviewing).1
  = false.
Proof.
  destruct (confirm_again "user@gmail.com" Scenario.reviewing "tmp_vcf_1"
              reviewing_reachable eq_refl) as (Hfailed & _ & _).
  destruct (Hfailed thrown thrown) as (Hmodal & Hflag & _).
  split; [exact Hmodal | exact Hflag].
Defined.

(** No handler of the hook and no other control of the modal changes the
    overwrite mode: only its checkbox does. An upload that resolves sets
    the filter back to all and empties the search text, and keeps the
    overwrite mode of the import before. *)
Theorem overwrite_mode_outlives_import (userId : string) :
  (forall e st,
     (forall checked, e <> setVcfOverwriteMode checked) ->
     vcfOverwriteMode (ui_step userId e st).1 = vcfOverwriteMode st) /\
  (forall file files data st,
     let st' := (handleVcfUpload userId (file :: files) (resolved data) st).1 in
     vcfMatchFilter st' = all /\ vcfSearchQuery st' = "" /\
     vcfOverwriteMode st' = vcfOverwriteMode st).
Proof.
  split.
  - intros e st Hne.
    destruct e as [[files res | res | | c a] | checked | f | q]; simpl;
      try reflexivity.
    + unfold handleVcfUpload. destruct files; [reflexivity|].
      destruct res; reflexivity.
    + unfold handleConfirmVcfEnrichment.
      destruct (truthy (vcfTempDir st)); [|reflexivity].
      destruct res; reflexivity.
    + exfalso. exact (Hne checked eq_refl).
  - intros file files data st st'. subst st'. repeat split; reflexivity.
Qed.

Lemma overwrite_mode_outlives_import_witness :
  vcfOverwriteMode
    (ui_step "user@gmail.com" (handler cancel)
       (ui_step "user@gmail.com" (setVcfOverwriteMode true)
          Scenario.reviewing).1).1 = true.
Proof.
  apply (proj1 (overwrite_mode_outlives_import "user@gmail.com")
           (handler cancel)
           (ui_step "user@gmail.com" (setVcfOverwriteMode true)
              Scenario.reviewing).1).
  intros checked. discriminate.
Defined.

End SubmitFacts.

(* ===================================================================== *)
(** ** The contacts hook *)
(* ===================================================================== *)

Module ContactsFacts.
Import Contacts.

Ltac each_event ev :=
  destruct ev as [res | personId uploads res | personId filename confirmed res
                 | person confirmed res | person | | | f v | res].

(** Every handler but the four of the edit modal leaves the edit state as
    it is. *)
Lemma step_keeps_edit_state userId ev st :
  (forall person, ev <> edit person) -> ev <> create -> ev <> cancel_edit ->
  (forall f v, ev <> type_in f v) -> (forall res, ev <> save res) ->
  editingPerson (step userId ev st).1 = editingPerson st /\
  isCreating (step userId ev st).1 = isCreating st /\
  editFormData (step userId ev st).1 = editFormData st.
Proof.
  intros He Hc Hx Ht Hs. each_event ev; simpl;
    try (exfalso; first [exact (He _ eq_refl) | exact (Hc eq_refl)
                        | exact (Hx eq_refl) | exact (Ht _ _ eq_refl)
                        | exact (Hs _ eq_refl)]).
  - unfold fetchPersons. destruct (ReactClient.truthy userId); [|auto].
    destruct res; auto.
  - unfold handlePersonFileUpload.
    destruct uploads as [[|file rest]|]; auto;
      destruct (ReactClient.truthy userId); auto; destruct res; auto.
  - unfold handlePersonFileDelete. destruct (ReactClient.truthy userId); [|auto].
    destruct confirmed; [|auto]. destruct res; auto.
  - unfold handleDeletePerson. destruct (ReactClient.truthy userId); [|auto].
    destruct confirmed; [|auto]. destruct res; auto.
Qed.

Lemma set_field_same f v d : get_field f (set_field f v d) = Some v.
Proof. destruct f; reflexivity. Qed.

Lemma set_field_other f v d f' :
  f' <> f -> get_field f' (set_field f v d) = get_field f' d.
Proof. intros H. destruct f, f'; try reflexivity; contradiction. Qed.

Lemma set_field_some f v d f' :
  is_Some (get_field f' d) -> is_Some (get_field f' (set_field f v d)).
Proof. destruct f, f'; simpl; eauto. Qed.

Lemma save_state userId st :
  forall res,
    (handleSaveEdit userId res st).1 = st \/
    (exists t m, (handleSaveEdit userId res st).1 = with_status st t m) \/
    (editingPerson (handleSaveEdit userId res st).1 = None /\
     isCreating (handleSaveEdit userId res st).1 = false /\
     editFormData (handleSaveEdit userId res st).1 = empty_form).
Proof.
  intros res. unfold handleSaveEdit.
  destruct (ReactClient.truthy userId); [|auto].
  destruct (save_request _ st); [|auto].
  destruct res; [right; right; auto | right; left; eauto].
Qed.

Local Abbreviation edit_state_ok st :=
  ((isCreating st = true -> editingPerson st = None) /\
   (modal_open st = false -> editFormData st = empty_form) /\
   (forall person f, editingPerson st = Some person ->
                     is_Some (get_field f (editFormData st)))).

(** Every event that can happen keeps the edit state in order. *)
Lemma edit_state_step userId ev st :
  edit_state_ok st -> possible st ev ->
  edit_state_ok (step userId ev st).1.
Proof.
  intros (Hboth & Hclosed & Hfull) Hposs.
  destruct ev as [res | personId uploads res | personId filename confirmed res
                 | person confirmed res | person | | | f v | res];
    try (match type of Hposs with
         | possible _ ?e =>
             destruct (step_keeps_edit_state userId e st) as (E1 & E2 & E3)
         end;
         [discriminate..|];
         unfold step in E1, E2, E3 |- *;
         unfold modal_open in *; rewrite E1, E2, E3;
         split; [|split]; assumption).
  - simpl. repeat split; try discriminate.
    intros p f [= <-]. destruct f; simpl; eauto.
  - simpl. repeat split; try discriminate; try reflexivity.
  - simpl. repeat split; try discriminate; try reflexivity.
  - simpl in *. split; [exact Hboth|]. split.
    + unfold modal_open in *. simpl. intros H. rewrite H in Hposs. discriminate.
    + intros person f' Hp. apply set_field_some. eapply Hfull, Hp.
  - simpl. destruct (save_state userId st res) as [E | [(t & m & E) | (E1 & E2 & E3)]].
    + rewrite E. auto.
    + rewrite E. auto.
    + unfold modal_open. rewrite E1, E2, E3.
      repeat split; try discriminate; reflexivity.
Qed.

(** While a contact is being edited, nothing is being created and the form
    has a value for every input. *)
Lemma editing_form_filled userId st person :
  reachable userId st -> editingPerson st = Some person ->
  isCreating st = false /\
  forall f, is_Some (get_field f (editFormData st)).
Proof.
  intros Hreach Hedit.
  assert (Hok : edit_state_ok st).
  { clear Hedit. induction Hreach as [|st ev Hreach IH Hposs].
    - repeat split; try reflexivity; discriminate.
    - exact (edit_state_step userId ev st IH Hposs). }
  destruct Hok as (Hboth & _ & Hfull). split.
  - destruct (isCreating st); [|reflexivity].
    rewrite Hboth in Hedit by reflexivity. discriminate Hedit.
  - intros f. exact (Hfull person f Hedit).
Qed.

(** In every state the hook reaches, creating and editing are not both on;
    while the edit modal is closed the form is empty; and while a contact is
    being edited the form has a value for every input. *)
Theorem edit_modal_invariant (userId : option string) (st : ContactsState) :
  reachable userId st ->
  (isCreating st = true -> editingPerson st = None) /\
  (modal_open st = false -> editFormData st = empty_form) /\
  (forall person f, editingPerson st = Some person ->
                    is_Some (get_field f (editFormData st))).
Proof.
  induction 1 as [|st ev Hreach IH Hposs].
  - split; [reflexivity|]. split; [reflexivity|].
    intros person f Hedit. discriminate Hedit.
  - apply edit_state_step; assumption.
Qed.

Lemma edit_modal_invariant_witness :
  modal_open Samples.editing_ada = true /\
  is_Some (get_field f_notes (editFormData Samples.editing_ada)).
Proof.
  split; [reflexivity|].
  apply (edit_modal_invariant (Some "user@gmail.com") Samples.editing_ada)
    with (person := Samples.ada); [|reflexivity].
  apply (reachable_step (Some "user@gmail.com") _ (edit Samples.ada)); [|exact I].
  apply (reachable_step (Some "user@gmail.com") initial_state
           (fetch (ReactClient.resolved (Some [Samples.ada; Samples.alan]))));
    [apply reachable_initial | exact I].
Defined.

Lemma save_request_open user st :
  modal_open st = true -> exists request, save_request user st = Some request.
Proof.
  unfold modal_open, save_request. destruct (isCreating st); [eauto|].
  destruct (editingPerson st); [eauto | discriminate].
Qed.

Lemma save_request_closed user st :
  modal_open st = false -> save_request user st = None.
Proof.
  unfold modal_open, save_request. destruct (editingPerson st); [discriminate|].
  intros ->. reflexivity.
Qed.

(** Saving does nothing and sends nothing without a signed-in user or with
    the edit modal closed. Otherwise it sends one request, whatever the
    outcome. When the request fails the edit state and the form stay, and
    saving again sends the same request. When it succeeds the modal closes,
    the form is emptied, the contact list is left for the refetch to
    replace, and saving again does nothing. *)
Theorem save_edit_outcomes (userId : option string) (st : ContactsState) :
  (ReactClient.truthy userId = None \/ modal_open st = false ->
   forall res, handleSaveEdit userId res st = (st, [])) /\
  (forall user,
     ReactClient.truthy userId = Some user -> modal_open st = true ->
     exists request,
       save_request user st = Some request /\
       (forall res, requests (handleSaveEdit userId res st).2 = [request]) /\
       (let failed := (handleSaveEdit userId ReactClient.thrown st).1 in
        editingPerson failed = editingPerson st /\
        isCreating failed = isCreating st /\
        editFormData failed = editFormData st /\
        forall res, requests (handleSaveEdit userId res failed).2 = [request]) /\
       (let saved := (handleSaveEdit userId (ReactClient.resolved tt) st).1 in
        modal_open saved = false /\
        editFormData saved = empty_form /\
        persons saved = persons st /\
        call_fetchPersons
          ∈ (handleSaveEdit userId (ReactClient.resolved tt) st).2 /\
        forall res, handleSaveEdit userId res saved = (saved, []))).
Proof.
  split.
  - intros [Hno | Hclosed] res; unfold handleSaveEdit.
    + rewrite Hno. reflexivity.
    + destruct (ReactClient.truthy userId) as [user|]; [|reflexivity].
      rewrite (save_request_closed user st Hclosed). reflexivity.
  - intros user Huser Hopen.
    destruct (save_request_open user st Hopen) as [request Hreq].
    exists request. split; [exact Hreq|].
    assert (Hsend : forall res, requests (handleSaveEdit userId res st).2 = [request]).
    { intros res. unfold handleSaveEdit. rewrite Huser, Hreq. destruct res; reflexivity. }
    split; [exact Hsend|]. split.
    + intros failed.
      assert (Hfailed : exists t m, failed = with_status st t m).
      { unfold failed, handleSaveEdit. rewrite Huser, Hreq. eauto. }
      destruct Hfailed as (t & m & ->). repeat split.
      intros res. unfold handleSaveEdit. rewrite Huser.
      unfold save_request in *. simpl. rewrite Hreq. destruct res; reflexivity.
    + intros saved.
      assert (Hsaved : editingPerson saved = None /\ isCreating saved = false /\
                       editFormData saved = empty_form /\ persons saved = persons st /\
                       call_fetchPersons
                         ∈ (handleSaveEdit userId (ReactClient.resolved tt) st).2).
      { unfold saved, handleSaveEdit. rewrite Huser, Hreq. simpl.
        repeat split. right; left. }
      destruct Hsaved as (He & Hc & Hf & Hp & Hcall).
      split; [unfold modal_open; rewrite He, Hc; reflexivity|].
      split; [exact Hf|]. split; [exact Hp|]. split; [exact Hcall|].
      intros res. unfold handleSaveEdit, save_request. rewrite Huser, He, Hc.
      reflexivity.
Qed.

Lemma save_edit_outcomes_witness :
  requests
    (handleSaveEdit (Some "user@gmail.com") ReactClient.thrown
       Samples.editing_ada).2
  = [put_person "p1" "user@gmail.com" (form_of Samples.ada)].
Proof.
  destruct (proj2 (save_edit_outcomes (Some "user@gmail.com") Samples.editing_ada)
              "user@gmail.com" eq_refl eq_refl) as (request & Hreq & Hsend & _).
  rewrite (Hsend ReactClient.thrown). injection Hreq as <-. reflexivity.
Defined.

(** Opening a contact for editing makes every input show the contact's own
    value, the empty text for a missing one. Typing into an input changes
    what that input shows and no other. While a contact is being edited,
    saving sends a PUT to the id of that contact whose data has a value for
    every input, the one the input shows: an untouched missing field is
    written back as the empty text. *)
Theorem edit_form_round_trip (userId : option string) :
  (forall person st f,
     shown f (editFormData (handleEditPerson person st)) = person_field f person) /\
  (forall f v st,
     shown f (editFormData (edit_field f v st)) = v /\
     forall f', f' <> f ->
       shown f' (editFormData (edit_field f v st)) = shown f' (editFormData st)) /\
  (forall st user person res,
     reachable userId st -> ReactClient.truthy userId = Some user ->
     editingPerson st = Some person ->
     requests (handleSaveEdit userId res st).2
     = [put_person (id person) user (editFormData st)] /\
     forall f, get_field f (editFormData st) = Some (shown f (editFormData st))).
Proof.
  split; [|split].
  - intros person st f. destruct f; reflexivity.
  - intros f v st. split.
    + unfold shown. simpl. rewrite set_field_same. reflexivity.
    + intros f' Hne. unfold shown. simpl. rewrite set_field_other by exact Hne.
      reflexivity.
  - intros st user person res Hreach Huser Hedit.
    destruct (editing_form_filled userId st person Hreach Hedit) as [Hc Hfull].
    split.
    + unfold handleSaveEdit, save_request. rewrite Huser, Hc, Hedit.
      destruct res; reflexivity.
    + intros f. unfold shown. destruct (Hfull f) as [v ->]. reflexivity.
Qed.

Lemma edit_form_round_trip_witness :
  get_field f_phone (editFormData Samples.editing_ada)
  = Some (shown f_phone (editFormData Samples.editing_ada)).
Proof.
  destruct (proj2 (proj2 (edit_form_round_trip (Some "user@gmail.com")))
              Samples.editing_ada "user@gmail.com" Samples.ada ReactClient.thrown)
    as [_ Hall].
  - apply (reachable_step (Some "user@gmail.com") _ (edit Samples.ada)); [|exact I].
    apply (reachable_step (Some "user@gmail.com") initial_state
             (fetch (ReactClient.resolved (Some [Samples.ada; Samples.alan]))));
      [apply reachable_initial | exact I].
  - reflexivity.
  - reflexivity.
  - exact (Hall f_phone).
Defined.

(** A request that deletes a contact or a file of a contact is sent only by
    the delete handler of that contact or file, with a signed-in user and
    after the confirmation dialog was accepted. *)
Theorem delete_needs_confirmation (userId : option string) (ev : Event)
    (st : ContactsState) (r : Request) :
  r ∈ requests (step userId ev st).2 -> deletes r = true ->
  exists user,
    ReactClient.truthy userId = Some user /\
    ((exists person res,
        ev = delete person true res /\ r = delete_person (id person) user) \/
     (exists personId filename res,
        ev = delete_file personId filename true res /\
        r = delete_person_file personId filename user)).
Proof.
  intros Hr Hdel. each_event ev; simpl in Hr.
  - unfold fetchPersons in Hr. destruct (ReactClient.truthy userId); [|inversion Hr].
    destruct res; simpl in Hr; apply list_elem_of_singleton in Hr; subst r;
      discriminate Hdel.
  - unfold handlePersonFileUpload in Hr.
    destruct uploads as [[|file rest]|]; try (inversion Hr; fail);
      destruct (ReactClient.truthy userId); try (inversion Hr; fail).
    destruct res; simpl in Hr; apply list_elem_of_singleton in Hr; subst r;
      discriminate Hdel.
  - unfold handlePersonFileDelete in Hr.
    destruct (ReactClient.truthy userId) as [user|]; [|inversion Hr].
    destruct confirmed; [|inversion Hr].
    exists user. split; [reflexivity|]. right.
    destruct res; simpl in Hr; apply list_elem_of_singleton in Hr; subst r; eauto.
  - unfold handleDeletePerson in Hr.
    destruct (ReactClient.truthy userId) as [user|]; [|inversion Hr].
    destruct confirmed; [|inversion Hr].
    exists user. split; [reflexivity|]. left.
    destruct res; simpl in Hr; apply list_elem_of_singleton in Hr; subst r; eauto.
  - inversion Hr.
  - inversion Hr.
  - inversion Hr.
  - inversion Hr.
  - unfold handleSaveEdit, save_request in Hr.
    destruct (ReactClient.truthy userId); [|inversion Hr].
    destruct (isCreating st); [|destruct (editingPerson st); [|inversion Hr]];
      destruct res; simpl in Hr; apply list_elem_of_singleton in Hr; subst r;
      discriminate Hdel.
Qed.

Lemma delete_needs_confirmation_witness :
  exists user,
    ReactClient.truthy (Some "user@gmail.com") = Some user /\
    ((exists person res,
        delete Samples.alan true (ReactClient.resolved "Contact deleted")
        = delete person true res /\
        delete_person "p2" "user@gmail.com" = delete_person (id person) user) \/
     (exists personId filename res,
        delete Samples.alan true (ReactClient.resolved "Contact deleted")
        = delete_file personId filename true res /\
        delete_person "p2" "user@gmail.com"
        = delete_person_file personId filename user)).
Proof.
  apply (delete_needs_confirmation (Some "user@gmail.com")
           (delete Samples.alan true (ReactClient.resolved "Contact deleted"))
           Samples.editing_ada (delete_person "p2" "user@gmail.com")).
  - simpl. apply list_elem_of_singleton. reflexivity.
  - reflexivity.
Defined.

(** No handler edits the contact list itself: the list changes only when a
    fetch resolves, and becomes what the response holds, the empty list
    when the response has no list. A fetch that fails keeps the list. *)
Theorem list_changes_by_fetch_only (userId : option string) (ev : Event)
    (st : ContactsState) :
  persons (step userId ev st).1 <> persons st ->
  exists data user,
    ev = fetch (ReactClient.resolved data) /\
    ReactClient.truthy userId = Some user /\
    persons (step userId ev st).1 = default [] data.
Proof.
  intros Hne. each_event ev; simpl in Hne |- *.
  - unfold fetchPersons in *. destruct (ReactClient.truthy userId) as [user|];
      [|contradiction].
    destruct res as [data|]; [eauto | contradiction].
  - exfalso. apply Hne. unfold handlePersonFileUpload.
    destruct uploads as [[|file rest]|]; try reflexivity;
      destruct (ReactClient.truthy userId); try reflexivity; destruct res; reflexivity.
  - exfalso. apply Hne. unfold handlePersonFileDelete.
    destruct (ReactClient.truthy userId); [|reflexivity].
    destruct confirmed; [|reflexivity]. destruct res; reflexivity.
  - exfalso. apply Hne. unfold handleDeletePerson.
    destruct (ReactClient.truthy userId); [|reflexivity].
    destruct confirmed; [|reflexivity]. destruct res; reflexivity.
  - contradiction.
  - contradiction.
  - contradiction.
  - contradiction.
  - exfalso. apply Hne. unfold handleSaveEdit.
    destruct (ReactClient.truthy userId); [|reflexivity].
    destruct (save_request _ st); [|reflexivity]. destruct res; reflexivity.
Qed.

Lemma list_changes_by_fetch_only_witness :
  exists data user,
    fetch (ReactClient.resolved None) = fetch (ReactClient.resolved data) /\
    ReactClient.truthy (Some "user@gmail.com") = Some user /\
    persons
      (step (Some "user@gmail.com") (fetch (ReactClient.resolved None))
         Samples.editing_ada).1 = default [] data.
Proof.
  apply (list_changes_by_fetch_only (Some "user@gmail.com")
           (fetch (ReactClient.resolved None)) Samples.editing_ada).
  discriminate.
Defined.

End ContactsFacts.

(* ===================================================================== *)
(** ** The contact search of the sidebar *)
(* ===================================================================== *)

Module SearchFacts.
Import Contacts ContactSearch.

Local Abbreviation by_score searchTokens :=
  (fun a b : Person => score searchTokens b <= score searchTokens a).

(** *** Substrings *)

Lemma prefix_refl s : JsStr.prefix s s = true.
Proof.
  induction s as [|c s IH]; [reflexivity|].
  simpl. rewrite N.eqb_refl. exact IH.
Qed.

Lemma includes_cons c s t :
  JsStr.includes (c :: s) t = JsStr.prefix t (c :: s) || JsStr.includes s t.
Proof. reflexivity. Qed.

Lemma includes_prefix s t : JsStr.prefix t s = true -> JsStr.includes s t = true.
Proof. destruct s; simpl; intros ->; reflexivity. Qed.

Lemma includes_eqb s t : JsStr.eqb s t = true -> JsStr.includes s t = true.
Proof.
  intros H. apply JsStrFacts.js_eqb_eq in H. subst t.
  apply includes_prefix, prefix_refl.
Qed.

(** A text without white space that starts [a ++ " " ++ b] starts [a]. *)
Lemma prefix_before_space t : forall a b,
  JsStr.no_space t = true ->
  JsStr.prefix t (a ++ JsStr.space :: b) = true -> JsStr.prefix t a = true.
Proof.
  induction t as [|c t IH]; intros a b Hns Hp; [destruct a; reflexivity|].
  simpl in Hns. apply andb_true_iff in Hns as [Hc Hns].
  destruct a as [|d a].
  - simpl in Hp. apply andb_true_iff in Hp as [Hp _].
    apply N.eqb_eq in Hp. subst c. discriminate Hc.
  - simpl in Hp |- *. apply andb_true_iff in Hp as [Hcd Hp].
    rewrite Hcd. exact (IH a b Hns Hp).
Qed.

(** A text without white space that occurs in [a ++ " " ++ b] occurs in [a]
    or in [b]. *)
Lemma includes_across_space t : forall a b,
  JsStr.no_space t = true ->
  JsStr.includes (a ++ JsStr.space :: b) t = true ->
  JsStr.includes a t = true \/ JsStr.includes b t = true.
Proof.
  induction a as [|c a IH]; intros b Hns H.
  - change ([] ++ JsStr.space :: b) with (JsStr.space :: b) in H.
    rewrite includes_cons in H.
    apply orb_true_iff in H as [H | H]; [left | right; exact H].
    apply includes_prefix, (prefix_before_space t [] b Hns). exact H.
  - change ((c :: a) ++ JsStr.space :: b) with (c :: (a ++ JsStr.space :: b)) in H.
    rewrite includes_cons in H.
    apply orb_true_iff in H as [H | H].
    + left. apply includes_prefix, (prefix_before_space t (c :: a) b Hns).
      exact H.
    + destruct (IH b Hns H) as [Ha | Hb]; [left | right; exact Hb].
      rewrite includes_cons, Ha. apply orb_true_r.
Qed.

(** *** The tokens of a search text *)

Lemma js_no_space_app (a b : JsStr.jsstr) :
  JsStr.no_space (a ++ b) = JsStr.no_space a && JsStr.no_space b.
Proof.
  induction a as [|c a IH]; [reflexivity|].
  simpl. rewrite IH, andb_assoc. reflexivity.
Qed.

Lemma words_go_tokens s : forall cur,
  JsStr.no_space cur = true ->
  Forall (fun t => t <> [] /\ JsStr.no_space t = true) (JsStr.words_go cur s).
Proof.
  induction s as [|c s IH]; intros cur Hcur; simpl.
  - destruct cur; constructor; [split; [discriminate | exact Hcur] | constructor].
  - destruct (JsStr.is_space c) eqn:Hc.
    + apply Forall_app. split; [|apply IH; reflexivity].
      destruct cur; constructor; [split; [discriminate | exact Hcur] | constructor].
    + apply IH. rewrite js_no_space_app, Hcur. simpl. rewrite Hc. reflexivity.
Qed.

Lemma words_go_not_nil s : forall cur, cur <> [] -> JsStr.words_go cur s <> [].
Proof.
  induction s as [|c s IH]; intros cur Hcur; simpl.
  - destruct cur; [contradiction | discriminate].
  - destruct (JsStr.is_space c).
    + destruct cur; [contradiction | discriminate].
    + apply IH, JsStrFacts.js_snoc_not_nil.
Qed.

Lemma trimStart_head s :
  JsStr.trimStart s = [] \/
  exists c r, JsStr.trimStart s = c :: r /\ JsStr.is_space c = false.
Proof.
  induction s as [|c s IH]; [left; reflexivity|].
  simpl. destruct (JsStr.is_space c) eqn:Hc; [exact IH | right; eauto].
Qed.

Lemma words_trim_not_nil s : JsStr.trim s <> [] -> JsStr.words (JsStr.trim s) <> [].
Proof.
  unfold JsStr.trim. intros Hne.
  destruct (trimStart_head (JsStr.trimEnd s)) as [E | (c & r & E & Hc)];
    [contradiction|].
  rewrite E. unfold JsStr.words. simpl. rewrite Hc.
  apply words_go_not_nil. discriminate.
Qed.

Lemma query_not_blank q :
  JsStr.trim (JsStr.text q) <> [] ->
  String.eqb q "" = false /\
  JsStr.eqb (JsStr.trim (JsStr.toLowerCase (JsStr.text q))) [] = false.
Proof.
  intros Hne. split.
  - apply String.eqb_neq. intros ->. apply Hne. reflexivity.
  - rewrite JsStrFacts.trim_lower_nil. apply JsStrFacts.js_eqb_neq, Hne.
Qed.

(** *** The score of one token *)

Lemma token_score_bounds p t n : token_score p t = Some n -> 5 <= n <= 100.
Proof.
  unfold token_score.
  repeat match goal with
         | |- context [if ?b then _ else _] => destruct b
         end; intros H; inversion H; lia.
Qed.

Lemma token_score_fields p t :
  JsStr.no_space t = true ->
  token_score p t <> Some 20 /\
  (is_Some (token_score p t) <->
   JsStr.includes (JsStr.toLowerCase (JsStr.text (first_name p))) t = true \/
   JsStr.includes (JsStr.toLowerCase (JsStr.text (last_name p))) t = true \/
   JsStr.includes (JsStr.toLowerCase (JsStr.text (default "" (position p)))) t
   = true \/
   JsStr.includes (JsStr.toLowerCase (JsStr.text (default "" (company p)))) t
   = true \/
   JsStr.includes (JsStr.toLowerCase (JsStr.text (default "" (email p)))) t
   = true).
Proof.
  intros Hns. unfold token_score, JsStr.startsWith.
  set (firstName := JsStr.toLowerCase (JsStr.text (first_name p))).
  set (lastName := JsStr.toLowerCase (JsStr.text (last_name p))).
  set (position := JsStr.toLowerCase (JsStr.text (default "" (position p)))).
  set (company := JsStr.toLowerCase (JsStr.text (default "" (company p)))).
  set (email := JsStr.toLowerCase (JsStr.text (default "" (email p)))).
  pose proof (includes_across_space t firstName lastName Hns) as Hfull.
  destruct (JsStr.eqb firstName t) eqn:E1.
  { apply includes_eqb in E1. split; [discriminate|]. split; eauto. }
  destruct (JsStr.eqb lastName t) eqn:E2.
  { apply includes_eqb in E2. split; [discriminate|]. split; eauto. }
  destruct (JsStr.prefix t firstName) eqn:E3.
  { apply includes_prefix in E3. split; [discriminate|]. split; eauto. }
  destruct (JsStr.prefix t lastName) eqn:E4.
  { apply includes_prefix in E4. split; [discriminate|]. split; eauto. }
  destruct (JsStr.includes firstName t) eqn:E5.
  { split; [discriminate|]. split; eauto. }
  destruct (JsStr.includes lastName t) eqn:E6.
  { split; [discriminate|]. split; eauto. }
  destruct (JsStr.includes (firstName ++ JsStr.space :: lastName) t) eqn:E7.
  { destruct (Hfull eq_refl); discriminate. }
  destruct (JsStr.includes position t) eqn:E8.
  { split; [discriminate|]. split; eauto. }
  destruct (JsStr.includes company t) eqn:E9.
  { split; [discriminate|]. split; eauto 6. }
  destruct (JsStr.includes email t) eqn:E10.
  { split; [discriminate|]. split; eauto 6. }
  split; [discriminate|]. split.
  - intros [n Hn]. discriminate Hn.
  - intros [H | [H | [H | [H | H]]]]; discriminate H.
Qed.

(** *** The loop over the tokens *)

Lemma score_acc p ts : forall a,
  foldl (fun acc token => acc + default 0 (token_score p token)) a ts
  = a + score ts p.
Proof.
  unfold score. induction ts as [|t ts IH]; intros a; simpl; [lia|].
  rewrite (IH (a + _)), (IH (default 0 (token_score p t))). lia.
Qed.

Lemma score_cons p t ts :
  score (t :: ts) p = default 0 (token_score p t) + score ts p.
Proof. unfold score at 1. simpl. rewrite score_acc. reflexivity. Qed.

Lemma matched_acc p ts : forall a,
  foldl (fun acc token =>
           match token_score p token with
           | Some _ => S acc
           | None => acc
           end) a ts
  = a + matchedTokens ts p.
Proof.
  unfold matchedTokens. induction ts as [|t ts IH]; intros a; simpl; [lia|].
  destruct (token_score p t); [rewrite (IH (S a)), (IH 1) | rewrite (IH a)]; lia.
Qed.

Lemma matched_cons p t ts :
  matchedTokens (t :: ts) p
  = match token_score p t with Some _ => 1 | None => 0 end
    + matchedTokens ts p.
Proof.
  unfold matchedTokens at 1. simpl.
  destruct (token_score p t); rewrite matched_acc; reflexivity.
Qed.

Lemma matched_le p ts : matchedTokens ts p <= length ts.
Proof.
  induction ts as [|t ts IH]; [reflexivity|].
  rewrite matched_cons. simpl. destruct (token_score p t); lia.
Qed.

Lemma matchedAll_iff p ts :
  matchedAll ts p = true <-> Forall (fun t => is_Some (token_score p t)) ts.
Proof.
  unfold matchedAll. rewrite Nat.eqb_eq. induction ts as [|t ts IH].
  - split; [constructor | reflexivity].
  - rewrite matched_cons, Forall_cons. simpl.
    pose proof (matched_le p ts) as Hle.
    destruct (token_score p t) as [n|].
    + rewrite <- IH. split.
      * intros H. split; [eauto | lia].
      * intros [_ H]. lia.
    + split; [lia | intros [[n Hn] _]; discriminate Hn].
Qed.

Lemma score_bounds p ts :
  Forall (fun t => is_Some (token_score p t)) ts ->
  5 * length ts <= score ts p <= 100 * length ts.
Proof.
  induction 1 as [|t ts [n Hn] _ IH]; [unfold score; simpl; lia|].
  rewrite score_cons, Hn. simpl length. simpl default.
  pose proof (token_score_bounds p t n Hn). lia.
Qed.

(** When there is a token, the test [score > 0] removes nothing. *)
Lemma positive_test_redundant ts p :
  ts <> [] -> matchedAll ts p && (0 <? score ts p) = matchedAll ts p.
Proof.
  intros Hne. destruct (matchedAll ts p) eqn:E; [|reflexivity].
  apply matchedAll_iff, score_bounds in E. simpl. apply Nat.ltb_lt.
  destruct ts; [contradiction | simpl in E; lia].
Qed.

(** *** The sort *)

Lemma insert_perm ts p l : insert_by_score ts p l ≡ₚ p :: l.
Proof.
  induction l as [|q l IH]; simpl; [reflexivity|].
  destruct (score ts q <=? score ts p); [reflexivity|].
  rewrite IH. apply Permutation_swap.
Qed.

Lemma sort_perm ts l : sort_by_score ts l ≡ₚ l.
Proof.
  induction l as [|p l IH]; simpl; [reflexivity|].
  rewrite insert_perm, IH. reflexivity.
Qed.

Lemma insert_sorted ts p l :
  StronglySorted (by_score ts) l ->
  StronglySorted (by_score ts) (insert_by_score ts p l).
Proof.
  induction 1 as [|q l Hs IH Hq]; simpl.
  - constructor; constructor.
  - destruct (score ts q <=? score ts p) eqn:E.
    + apply Nat.leb_le in E. constructor; [constructor; assumption|].
      constructor; [exact E|].
      eapply Forall_impl; [exact Hq|]. simpl. intros x Hx. lia.
    + apply Nat.leb_gt in E. constructor; [exact IH|].
      rewrite insert_perm. constructor; [lia | exact Hq].
Qed.

Lemma sort_sorted ts l : StronglySorted (by_score ts) (sort_by_score ts l).
Proof.
  induction l as [|p l IH]; simpl; [constructor | apply insert_sorted, IH].
Qed.

Lemma insert_keeps_ties ts n p l :
  List.filter (fun q => score ts q =? n) (insert_by_score ts p l)
  = List.filter (fun q => score ts q =? n) (p :: l).
Proof.
  induction l as [|q l IH]; [reflexivity|].
  simpl insert_by_score. destruct (score ts q <=? score ts p) eqn:E; [reflexivity|].
  apply Nat.leb_gt in E. simpl List.filter at 1. rewrite IH. simpl.
  destruct (score ts p =? n) eqn:Ep; [|reflexivity].
  apply Nat.eqb_eq in Ep.
  destruct (score ts q =? n) eqn:Eq; [|reflexivity].
  apply Nat.eqb_eq in Eq. lia.
Qed.

Lemma sort_keeps_ties ts n l :
  List.filter (fun q => score ts q =? n) (sort_by_score ts l)
  = List.filter (fun q => score ts q =? n) l.
Proof.
  induction l as [|p l IH]; [reflexivity|].
  simpl sort_by_score. rewrite insert_keeps_ties. simpl. rewrite IH. reflexivity.
Qed.

Lemma found_eq persons q :
  JsStr.trim (JsStr.text q) <> [] ->
  filteredPersons persons q
  = sort_by_score (JsStr.words (JsStr.trim (JsStr.toLowerCase (JsStr.text q))))
      (List.filter (matchedAll (JsStr.words (JsStr.trim (JsStr.toLowerCase (JsStr.text q)))))
         persons).
Proof.
  intros Hne. unfold filteredPersons.
  destruct (query_not_blank q Hne) as [E1 E2]. rewrite E1, E2. cbv zeta. f_equal.
  apply List.filter_ext. intros p. apply positive_test_redundant.
  apply words_trim_not_nil, JsStrFacts.js_eqb_neq, E2.
Qed.

(** A search text that is empty or white space only leaves the contact list
    as it is, in its own order. *)
Theorem blank_search_lists_everyone (persons : list Person) (searchQuery : string) :
  JsStr.trim (JsStr.text searchQuery) = [] ->
  filteredPersons persons searchQuery = persons.
Proof.
  intros Hblank. unfold filteredPersons.
  destruct (String.eqb searchQuery ""); [reflexivity|].
  rewrite JsStrFacts.trim_lower_nil, Hblank. reflexivity.
Qed.

Lemma blank_search_lists_everyone_witness :
  filteredPersons [Samples.ada; Samples.alan] (String "009" "  ")
  = [Samples.ada; Samples.alan].
Proof. apply blank_search_lists_everyone. reflexivity. Defined.

(** With a search text that holds more than white space there is at least
    one token, and the contacts found are those of the list for which every
    token passes one of the tests, each as often as the list has it. The
    score of a contact found lies between 5 and 100 times the number of
    tokens, so the test [score > 0] removes nothing. *)
Theorem search_finds_all_token_matches (persons : list Person)
    (searchQuery : string) :
  JsStr.trim (JsStr.text searchQuery) <> [] ->
  let searchTokens := JsStr.words (JsStr.trim (JsStr.toLowerCase (JsStr.text searchQuery))) in
  let found := filteredPersons persons searchQuery in
  searchTokens <> [] /\
  found ≡ₚ List.filter (matchedAll searchTokens) persons /\
  (forall p, p ∈ found <->
             p ∈ persons /\
             forall t, t ∈ searchTokens -> is_Some (token_score p t)) /\
  (forall p, p ∈ found ->
             5 * length searchTokens <= score searchTokens p
             <= 100 * length searchTokens).
Proof.
  intros Hne searchTokens found.
  assert (Hfound : found
                   = sort_by_score searchTokens
                       (List.filter (matchedAll searchTokens) persons))
    by exact (found_eq persons searchQuery Hne).
  assert (Hin : forall p, p ∈ found <->
                  p ∈ persons /\
                  forall t, t ∈ searchTokens -> is_Some (token_score p t)).
  { intros p. rewrite Hfound, sort_perm, list_elem_of_In, List.filter_In,
      <- list_elem_of_In, matchedAll_iff, Forall_forall. reflexivity. }
  split; [|split; [|split]].
  - apply words_trim_not_nil, JsStrFacts.js_eqb_neq, (query_not_blank _ Hne).
  - rewrite Hfound. apply sort_perm.
  - exact Hin.
  - intros p Hp. apply score_bounds, Forall_forall, (Hin p), Hp.
Qed.

Lemma search_finds_all_token_matches_witness :
  filteredPersons [Samples.alan; Samples.ada; Samples.adam] " ADA  love"
  ≡ₚ List.filter (matchedAll (JsStr.text <$> ["ada"; "love"]))
       [Samples.alan; Samples.ada; Samples.adam].
Proof.
  apply (search_finds_all_token_matches
           [Samples.alan; Samples.ada; Samples.adam] " ADA  love").
  discriminate.
Defined.

(** The contacts found come in descending order of score, and contacts of
    the same score keep the order they have in the contact list. *)
Theorem search_orders_by_score (persons : list Person) (searchQuery : string) :
  JsStr.trim (JsStr.text searchQuery) <> [] ->
  let searchTokens := JsStr.words (JsStr.trim (JsStr.toLowerCase (JsStr.text searchQuery))) in
  let found := filteredPersons persons searchQuery in
  StronglySorted (by_score searchTokens) found /\
  forall n,
    List.filter (fun p => score searchTokens p =? n) found
    = List.filter (fun p => score searchTokens p =? n)
        (List.filter (matchedAll searchTokens) persons).
Proof.
  intros Hne searchTokens found. unfold found.
  rewrite (found_eq persons searchQuery Hne). fold searchTokens.
  split; [apply sort_sorted | intros n; apply sort_keeps_ties].
Qed.

Lemma search_orders_by_score_witness :
  StronglySorted (by_score [JsStr.text "a"])
    (filteredPersons [Samples.alan; Samples.ada; Samples.adam] "A").
Proof.
  apply (search_orders_by_score [Samples.alan; Samples.ada; Samples.adam] "A").
  discriminate.
Defined.

(** A token of a search text is not empty and holds no white space. It
    passes a test exactly when it occurs in the lower-cased first name, last
    name, position, company or email of the contact: the test on the full
    name never decides, and no token adds 20 to a score. *)
Theorem full_name_test_never_decides (searchQuery : string) (p : Person)
    (token : JsStr.jsstr) :
  token ∈ JsStr.words (JsStr.trim (JsStr.toLowerCase (JsStr.text searchQuery))) ->
  token <> [] /\ JsStr.no_space token = true /\
  token_score p token <> Some 20 /\
  (is_Some (token_score p token) <->
   JsStr.includes (JsStr.toLowerCase (JsStr.text (first_name p))) token = true \/
   JsStr.includes (JsStr.toLowerCase (JsStr.text (last_name p))) token = true \/
   JsStr.includes (JsStr.toLowerCase (JsStr.text (default "" (position p))))
     token = true \/
   JsStr.includes (JsStr.toLowerCase (JsStr.text (default "" (company p))))
     token = true \/
   JsStr.includes (JsStr.toLowerCase (JsStr.text (default "" (email p))))
     token = true).
Proof.
  intros Hin.
  pose proof (words_go_tokens
                (JsStr.trim (JsStr.toLowerCase (JsStr.text searchQuery))) []
                eq_refl) as Htokens.
  rewrite Forall_forall in Htokens. destruct (Htokens token Hin) as [Hne Hns].
  split; [exact Hne|]. split; [exact Hns|]. apply token_score_fields, Hns.
Qed.

Lemma full_name_test_never_decides_witness :
  JsStr.text "lovelace" <> [] /\
  JsStr.no_space (JsStr.text "lovelace") = true /\
  token_score Samples.ada (JsStr.text "lovelace") <> Some 20 /\
  (is_Some (token_score Samples.ada (JsStr.text "lovelace")) <->
   JsStr.includes (JsStr.toLowerCase (JsStr.text (first_name Samples.ada)))
     (JsStr.text "lovelace") = true \/
   JsStr.includes (JsStr.toLowerCase (JsStr.text (last_name Samples.ada)))
     (JsStr.text "lovelace") = true \/
   JsStr.includes
     (JsStr.toLowerCase (JsStr.text (default "" (position Samples.ada))))
     (JsStr.text "lovelace") = true \/
   JsStr.includes
     (JsStr.toLowerCase (JsStr.text (default "" (company Samples.ada))))
     (JsStr.text "lovelace") = true \/
   JsStr.includes
     (JsStr.toLowerCase (JsStr.text (default "" (email Samples.ada))))
     (JsStr.text "lovelace") = true).
Proof.
  apply (full_name_test_never_decides "Ada  Lovelace " Samples.ada
           (JsStr.text "lovelace")).
  apply (bool_decide_unpack _). vm_compute. exact I.
Defined.

End SearchFacts.

(* ===================================================================== *)
(** ** The upload area and the confirm handler of the Flutter client *)
(* ===================================================================== *)

Module FlutterUploadFacts.
Import FlutterUpload.

(** When a pick holds a file whose name ends in .vcf, whatever its case, the
    only request is the VCF enrichment with the VCF files of the pick, in
    the order of the pick: the other files of the pick are sent nowhere, and
    neither the statistics nor the uploading flag change. *)
Theorem mixed_pick_drops_documents (paths : list string) (mounted : bool)
    (enriched : Outcome FlutterClient.Report) (processed : Outcome UploadResponse)
    (st : UploadState) (vcf : string) :
  vcf ∈ paths -> is_vcf vcf = true ->
  let out := pickAndUpload (Some paths) mounted enriched processed st in
  (forall user, userId st = Some user ->
     requests out.2 = [enrichFromVcf (List.filter is_vcf paths) user]) /\
  (forall r path, r ∈ requests out.2 -> path ∈ sent_paths r ->
     path ∈ paths /\ is_vcf path = true) /\
  stats out.1 = stats st /\ isUploading out.1 = isUploading st.
Proof.
  intros Hin Hvcf out.
  assert (Hsome : vcf ∈ List.filter is_vcf paths).
  { apply list_elem_of_In, List.filter_In. split; [apply list_elem_of_In, Hin | exact Hvcf]. }
  assert (Hsent : forall user, userId st = Some user ->
            requests out.2 = [enrichFromVcf (List.filter is_vcf paths) user]).
  { intros user Huser. unfold out, pickAndUpload. rewrite Huser.
    destruct (List.filter is_vcf paths) as [|v vs]; [inversion Hsome|].
    destruct enriched, mounted; reflexivity. }
  split; [exact Hsent|]. split; [|split].
  - intros r path Hr Hpath. destruct (userId st) as [user|] eqn:Huser.
    + rewrite (Hsent user eq_refl) in Hr. apply list_elem_of_singleton in Hr. subst r.
      simpl in Hpath. apply list_elem_of_In, List.filter_In in Hpath as [H1 H2].
      split; [apply list_elem_of_In, H1 | exact H2].
    + unfold out, pickAndUpload in Hr. rewrite Huser in Hr.
      destruct mounted; inversion Hr.
  - unfold out, pickAndUpload. destruct (userId st); [|reflexivity].
    destruct (List.filter is_vcf paths) as [|v vs]; [inversion Hsome|].
    destruct enriched; reflexivity.
  - unfold out, pickAndUpload. destruct (userId st); [|reflexivity].
    destruct (List.filter is_vcf paths) as [|v vs]; [inversion Hsome|].
    destruct enriched; reflexivity.
Qed.

Lemma mixed_pick_drops_documents_witness :
  requests
    (pickAndUpload (Some ["notes.pdf"; "Friends.VCF"; "team.csv"; "family.vcf"])
       true (threw "timeout")
       (returned {| message := "ok"; count := 3; columns := [] |})
       Samples.signed_in).2
  = [enrichFromVcf ["Friends.VCF"; "family.vcf"] "user@gmail.com"].
Proof.
  apply (mixed_pick_drops_documents
           ["notes.pdf"; "Friends.VCF"; "team.csv"; "family.vcf"] true
           (threw "timeout")
           (returned {| message := "ok"; count := 3; columns := [] |})
           Samples.signed_in "Friends.VCF").
  - apply (bool_decide_unpack _). vm_compute. exact I.
  - vm_compute. reflexivity.
  - reflexivity.
Defined.



End FlutterUploadFacts.

Module FlutterConfirmFacts.
Import FlutterClient.



End FlutterConfirmFacts.
